(** * The streaming conversational session manager

    A shallow embedding of the chat routes of the repository:

    - the Gemini chat route          ([src/unnamed/part_002]),
    - the Gemini RAG route           ([src/src/app/api/chat_08_rag/route.ts]),
    - the tool-calling agent route   ([src/unnamed/part_004]),
    - the history read route [GET], the same in the three files,
    - the product tool of the agent   ([src/unnamed/part_004]).

    Each handler is an [async] function that talks to a relational store,
    to a hosted language model and to a vector store.  The handlers are
    translated statement by statement into a state-and-exception monad over
    the store and a trace of observable events; what the outside world
    answers (database faults, model output, search results, clock) is read
    from a [World] record, so that every handler is an executable function
    of the world, the request and the store. *)

From Stdlib Require Import List String Ascii Bool Arith NArith ZArith Lia.
From Stdlib Require Import Sorting.Sorted Sorting.Permutation DecimalString.
Import ListNotations.

Set Implicit Arguments.

(* ================================================================== *)
(** * JavaScript strings *)
(* ================================================================== *)

(** A JavaScript string is a sequence of UTF-16 code units; [length],
    [slice] and [includes] count code units. *)
Definition code_unit := N.
Definition text := list code_unit.

Module JS.

(** String literals of the source are written here as Rocq string
    literals (UTF-8 bytes) and decoded to code units. *)
Fixpoint utf16_of_utf8 (bs : list N) : text :=
  match bs with
  | [] => []
  | b0 :: r0 =>
    if (b0 <? 128)%N then b0 :: utf16_of_utf8 r0
    else if (b0 <? 224)%N then
      match r0 with
      | b1 :: r1 => ((b0 mod 32) * 64 + b1 mod 64)%N :: utf16_of_utf8 r1
      | [] => [65533%N]
      end
    else if (b0 <? 240)%N then
      match r0 with
      | b1 :: b2 :: r2 =>
        ((b0 mod 16) * 4096 + (b1 mod 64) * 64 + b2 mod 64)%N
          :: utf16_of_utf8 r2
      | _ => [65533%N]
      end
    else
      match r0 with
      | b1 :: b2 :: b3 :: r3 =>
        let cp := ((b0 mod 8) * 262144 + (b1 mod 64) * 4096
                   + (b2 mod 64) * 64 + b3 mod 64 - 65536)%N in
        (55296 + cp / 1024)%N :: (56320 + cp mod 1024)%N :: utf16_of_utf8 r3
      | _ => [65533%N]
      end
  end.

Definition lit (s : string) : text :=
  utf16_of_utf8 (map (fun b => N.of_nat (Byte.to_nat b)) (list_byte_of_string s)).

(** [a === b] on strings. *)
Fixpoint eqb (a b : text) : bool :=
  match a, b with
  | [], [] => true
  | x :: a', y :: b' => N.eqb x y && eqb a' b'
  | _, _ => false
  end.

(** Truthiness of a string: the empty string is falsy. *)
Definition truthy (s : text) : bool :=
  match s with [] => false | _ :: _ => true end.

(** Truthiness of a possibly [undefined] string. *)
Definition truthy_opt (s : option text) : bool :=
  match s with Some t => truthy t | None => false end.

(** [a || b] on strings. *)
Definition or_else (a b : text) : text := if truthy a then a else b.

(** [s.slice(0, n)]. *)
Definition slice0 (n : nat) (s : text) : text := firstn n s.

Fixpoint starts_with (p s : text) : bool :=
  match p, s with
  | [], _ => true
  | x :: p', y :: s' => N.eqb x y && starts_with p' s'
  | _ :: _, [] => false
  end.

(** [s.includes(sub)]. *)
Fixpoint includes (s sub : text) : bool :=
  starts_with sub s ||
  match s with
  | [] => false
  | _ :: s' => includes s' sub
  end.

(** [parts.join(sep)]. *)
Fixpoint join (sep : text) (parts : list text) : text :=
  match parts with
  | [] => []
  | [p] => p
  | p :: rest => p ++ sep ++ join sep rest
  end.

(** [String(n)] for a non-negative integer. *)
Definition of_nat (n : nat) : text :=
  lit (NilEmpty.string_of_uint (Nat.to_uint n)).

(** [xs.filter(f).pop()]: the last element that satisfies [f]. *)
Fixpoint find_last {A} (f : A -> bool) (xs : list A) : option A :=
  match xs with
  | [] => None
  | x :: rest =>
    match find_last f rest with
    | Some y => Some y
    | None => if f x then Some x else None
    end
  end.

End JS.

Notation "'#' s" := (JS.lit s%string) (at level 1, format "'#' s").
Arguments JS.lit : simpl never.

(* ================================================================== *)
(** * Requests, messages and the relational store *)
(* ================================================================== *)

(** One part of a UI message: [p.type] and the optional [p.text]. *)
Record UIPart := { part_type : text; part_text : option text }.

(** A message of the request body.  [ui_content] is the [content] field
    that only the agent route reads; [ui_parts] may be missing. *)
Record UIMessage := {
  ui_role : text;
  ui_content : option text;
  ui_parts : option (list UIPart)
}.

(** The parsed request body [{ messages, sessionId, userId }]. *)
Record Request := {
  messages : list UIMessage;
  sessionId : option text;
  userId : option text
}.

Definition is_text_part (p : UIPart) : bool := JS.eqb (part_type p) #"text".
Definition is_user (m : UIMessage) : bool := JS.eqb (ui_role m) #"user".

(** LangChain message classes, as far as [instanceof] tells them apart. *)
Inductive MsgKind := Human | AI | System | Other.

Definition kind_eqb (a b : MsgKind) : bool :=
  match a, b with
  | Human, Human | AI, AI | System, System | Other, Other => true
  | _, _ => false
  end.

(** A message object.  [ref] is the identity of the object: [Set.has] and
    [lastIndexOf] compare objects by identity, not by content. *)
Record BaseMessage := { ref : nat; kind : MsgKind; content : text }.

(** The JSON payload of a row of [chat_messages]: the stored [type], the
    three fields the history route probes, and the fields that the message
    library requires of a function, tool or generic message when it reads
    the row back. *)
Record StoredMessage := {
  m_type : option text;
  m_content : option text;
  m_text : option text;
  m_message : option text;
  m_role : option text;
  m_name : option text;
  m_tool_call_id : option text
}.

Record MessageRow := {
  session_id : text;
  message : StoredMessage;
  created_at : Z
}.

Record SessionRow := {
  id : text;
  title : text;
  user_id : text;
  summary : option text
}.

Record Store := {
  chat_sessions : list SessionRow;
  chat_messages : list MessageRow
}.

(** The payload written for a message of kind [k]; the routes write human
    and assistant messages only. *)
Definition stored_type (k : MsgKind) : text :=
  match k with
  | Human => #"human"
  | AI => #"ai"
  | System => #"system"
  | Other => #"generic"
  end.

Definition to_stored (k : MsgKind) (c : text) : StoredMessage :=
  {| m_type := Some (stored_type k); m_content := Some c;
     m_text := None; m_message := None;
     m_role := None; m_name := None; m_tool_call_id := None |}.

Definition kind_of_stored (t : option text) : MsgKind :=
  match t with
  | Some s =>
    if JS.eqb s #"human" then Human
    else if JS.eqb s #"ai" then AI
    else if JS.eqb s #"system" then System
    else Other
  | None => Other
  end.

(* ================================================================== *)
(** * The outside world *)
(* ================================================================== *)

Inductive Error := JsError (msg : text).

Definition error_message (e : Error) : text :=
  match e with JsError m => m end.

(** The places where a handler talks to the relational store. *)
Inductive Site :=
| AtCreateConnect | AtCreateInsert
| AtSummaryConnect | AtSummarySelect
| AtGetMessages
| AtAddUser | AtAddAI
| AtUpdateConnect | AtUpdateSummary
| AtHistoryConnect | AtHistorySelect.

(** What a prompt template receives: one constructor per chain of the
    routes, one argument per slot of its template. *)
Inductive Prompt :=
| ChatPrompt (system : text) (recent_window : list BaseMessage) (input : text)
| RagPrompt (summary context : text) (chat_history : list BaseMessage)
            (input : text)
| OverflowSummaryPrompt (history : text)
| MergeSummaryPrompt (old delta : text)
| SessionSummaryPrompt (history : text).

(** An asynchronous iterable: the chunks it yields and, when it does not
    end normally, the error it throws after them. *)
Record Stream (A : Type) := { chunks : list A; failure : option Error }.

(** An event of the agent's [streamEvents]: the event name decides between
    a model chunk, whose [content] is a string or not, and anything else. *)
Inductive AgentEvent :=
| OnChatModelStream (content : option text)
| OnOtherEvent.

(** One hit of [similaritySearchWithScore]; [percent] is the text of
    [(score * 100).toFixed(1)]. *)
Record ScoredDocument := {
  filename : option text;
  doc_type : option text;
  pageContent : text;
  percent : text
}.

Inductive Result (A : Type) := Resolved (a : A) | Rejected (e : Error).
Arguments Resolved {A} a.
Arguments Rejected {A} e.

Record World := {
  db_fault : Site -> option Error;
  returning_id : Store -> text;
  now : Store -> Z;
  date_now : text;
  encode : text -> N;
  chain_stream : Prompt -> Result (Stream text);
  chain_invoke : Prompt -> Result text;
  streamEvents : list BaseMessage -> Result (Stream AgentEvent);
  similaritySearchWithScore : text -> nat -> Result (list ScoredDocument);
  toUpperCase : text -> text
}.

(** Observable events, in the order in which they happen. *)
Inductive Event :=
| EvConnect (s : Site)
| EvRelease
| EvInsertSession (title user : text)
| EvInsertMessage (sid : text) (k : MsgKind) (c : text)
| EvUpdateSummary (sid : text) (s : text)
| EvModelStream (p : Prompt)
| EvModelInvoke (p : Prompt)
| EvAgentStream (ms : list BaseMessage)
| EvSearch (query : text) (limit : nat)
| EvEnqueue (chunk : text)
| EvClose
| EvError (e : Error)
| EvLog (label : text) (detail : text).

(** One message of the history read interface. *)
Record HistoryMessage := {
  h_id : text;
  h_role : text;
  h_content : text;
  h_createdAt : Z
}.

(** The response a handler returns.  A streamed response only carries the
    session header, when there is one; what the stream delivers is in the
    trace. *)
Inductive Response :=
| PlainResponse (status : nat) (body : text)
| ErrorResponse (status : nat) (error : text) (details : option text)
| StreamResponse (x_session_id : option text)
| HistoryResponse (status : nat) (msgs : list HistoryMessage).

(* ================================================================== *)
(** * The effect monad: store, trace and exceptions *)
(* ================================================================== *)

Record State := { store : Store; trace : list Event }.

Inductive Outcome (A : Type) := Return (a : A) | Throw (e : Error).
Arguments Return {A} a.
Arguments Throw {A} e.

Definition M (A : Type) := State -> Outcome A * State.

Definition ret {A} (a : A) : M A := fun s => (Return a, s).

Definition bind {A B} (m : M A) (k : A -> M B) : M B :=
  fun s => match m s with
           | (Return a, s') => k a s'
           | (Throw e, s') => (Throw e, s')
           end.

Definition throw {A} (e : Error) : M A := fun s => (Throw e, s).

(** [try { m } catch (e) { h e }]. *)
Definition try_catch {A} (m : M A) (h : Error -> M A) : M A :=
  fun s => match m s with
           | (Return a, s') => (Return a, s')
           | (Throw e, s') => h e s'
           end.

(** [try { m } finally { f }]. *)
Definition try_finally {A} (m : M A) (f : M unit) : M A :=
  fun s => match m s with
           | (r, s') =>
             match f s' with
             | (Return _, s'') => (r, s'')
             | (Throw e, s'') => (Throw e, s'')
             end
           end.

Declare Scope eff_scope.
Delimit Scope eff_scope with eff.
Notation "x <- m ;; k" := (bind m (fun x => k))
  (at level 100, m at next level, right associativity) : eff_scope.
Notation "m ;;; k" := (bind m (fun _ => k))
  (at level 100, right associativity) : eff_scope.
Open Scope eff_scope.

Definition emit (e : Event) : M unit :=
  fun s => (Return tt, {| store := store s; trace := trace s ++ [e] |}).

Definition get_store : M Store := fun s => (Return (store s), s).

Definition put_store (st : Store) : M unit :=
  fun s => (Return tt, {| store := st; trace := trace s |}).

(** [await p] for a promise of the outside world. *)
Definition await {A} (r : Result A) : M A :=
  match r with
  | Resolved a => ret a
  | Rejected e => throw e
  end.

(** [for await (const x of stream) body], threading the loop variables. *)
Fixpoint for_each {A S} (xs : list A) (body : S -> A -> M S) (acc : S) : M S :=
  match xs with
  | [] => ret acc
  | x :: rest => acc' <- body acc x ;; for_each rest body acc'
  end.

Definition for_await {A S} (s : Stream A) (body : S -> A -> M S) (acc : S)
  : M S :=
  acc' <- for_each (chunks s) body acc ;;
  match failure s with
  | Some e => throw e
  | None => ret acc'
  end.

Definition run {A} (m : M A) (st : Store) : Outcome A * State :=
  m {| store := st; trace := [] |}.

(* ================================================================== *)
(** * The relational store and the message history *)
(* ================================================================== *)

Module Db.
Section WithWorld.
Variable w : World.

(** Every call to the store may be rejected by the driver. *)
Definition db_call (site : Site) : M unit :=
  match db_fault w site with
  | Some e => throw e
  | None => ret tt
  end.

(** [await pool.connect()] and [client.release()]. *)
Definition pool_connect (site : Site) : M unit :=
  db_call site ;;; emit (EvConnect site).

Definition client_release : M unit := emit EvRelease.

(** [INSERT INTO chat_sessions (title, user_id) VALUES ($1, $2)
    RETURNING id]. *)
Definition insert_session (new_title user : text) : M text :=
  db_call AtCreateInsert ;;;
  st <- get_store ;;
  let new_id := returning_id w st in
  put_store {| chat_sessions :=
                 chat_sessions st ++
                 [{| id := new_id; title := new_title; user_id := user;
                     summary := None |}];
               chat_messages := chat_messages st |} ;;;
  emit (EvInsertSession new_title user) ;;;
  ret new_id.

(** [SELECT summary FROM chat_sessions WHERE id = $1 LIMIT 1], followed by
    [rows?.[0]?.summary ?? '']. *)
Definition summary_of (st : Store) (sid : text) : text :=
  match find (fun r => JS.eqb (id r) sid) (chat_sessions st) with
  | Some r => match summary r with Some s => s | None => [] end
  | None => []
  end.

Definition select_summary (sid : text) : M text :=
  db_call AtSummarySelect ;;;
  st <- get_store ;;
  ret (summary_of st sid).

(** [UPDATE chat_sessions SET summary = $1 WHERE id = $2]. *)
Definition set_summary (s sid : text) (r : SessionRow) : SessionRow :=
  if JS.eqb (id r) sid
  then {| id := id r; title := title r; user_id := user_id r;
          summary := Some s |}
  else r.

Definition update_summary (s sid : text) : M unit :=
  db_call AtUpdateSummary ;;;
  st <- get_store ;;
  put_store {| chat_sessions := map (set_summary s sid) (chat_sessions st);
               chat_messages := chat_messages st |} ;;;
  emit (EvUpdateSummary sid s).

(** The rows of one session, in insertion order. *)
Definition rows_of (st : Store) (sid : text) : list MessageRow :=
  filter (fun r => JS.eqb (session_id r) sid) (chat_messages st).

(** What the message library refuses to read back: a stored type it does
    not know, and a function, tool or generic message without the field it
    requires.  The result is the error it throws, if any. *)
Definition unreadable (m : StoredMessage) : option Error :=
  match m_type m with
  | Some t =>
    if JS.eqb t #"human" || JS.eqb t #"ai" || JS.eqb t #"system" then None
    else if JS.eqb t #"function" then
      match m_name m with
      | Some _ => None
      | None => Some (JsError #"Name must be defined for function messages")
      end
    else if JS.eqb t #"tool" then
      match m_tool_call_id m with
      | Some _ => None
      | None =>
        Some (JsError #"Tool call ID must be defined for tool messages")
      end
    else if JS.eqb t #"generic" then
      match m_role m with
      | Some _ => None
      | None => Some (JsError #"Role must be defined for chat messages")
      end
    else Some (JsError (#"Got unexpected type: " ++ t))
  | None => Some (JsError #"Got unexpected type: undefined")
  end.

(** The error of the first row that cannot be read back. *)
Fixpoint first_unreadable (rows : list MessageRow) : option Error :=
  match rows with
  | [] => None
  | r :: rest =>
    match unreadable (message r) with
    | Some e => Some e
    | None => first_unreadable rest
    end
  end.

(** [PostgresChatMessageHistory.getMessages()]: one fresh object per row;
    the objects of one call are numbered from [base]. *)
Definition message_of_row (i : nat) (r : MessageRow) : BaseMessage :=
  {| ref := i;
     kind := kind_of_stored (m_type (message r));
     content := match m_content (message r) with Some c => c | None => [] end
  |}.

Fixpoint objects_from (base : nat) (rows : list MessageRow)
  : list BaseMessage :=
  match rows with
  | [] => []
  | r :: rest => message_of_row base r :: objects_from (S base) rest
  end.

Definition loadAll (st : Store) (sid : text) : list BaseMessage :=
  objects_from 0 (rows_of st sid).

Definition getMessages (sid : text) : M (list BaseMessage) :=
  db_call AtGetMessages ;;;
  st <- get_store ;;
  match first_unreadable (rows_of st sid) with
  | Some e => throw e
  | None => ret (loadAll st sid)
  end.

(** [PostgresChatMessageHistory.addMessage(message)]: one row,
    [created_at] given by the store's clock. *)
Definition addMessage (site : Site) (sid : text) (k : MsgKind) (c : text)
  : M unit :=
  db_call site ;;;
  st <- get_store ;;
  put_store {| chat_sessions := chat_sessions st;
               chat_messages :=
                 chat_messages st ++
                 [{| session_id := sid; message := to_stored k c;
                     created_at := now w st |}] |} ;;;
  emit (EvInsertMessage sid k c).

End WithWorld.
End Db.

(* ================================================================== *)
(** * Token estimator and context window trimmer *)
(* ================================================================== *)

Module Tokens.
Section WithWorld.
Variable w : World.

(** [strTokenCounter] on a string: the length of its encoding. *)
Definition strTokenCounter (c : text) : N := encode w c.

Definition role_label (k : MsgKind) : text :=
  match k with
  | Human => #"user"
  | AI => #"assistant"
  | System => #"system"
  | Other => #"unknown"
  end.

(** [tiktokenCounter]: the loop over [messages] adding, for each message,
    the tokens of its role label and of its content. *)
Definition tiktokenCounter (ms : list BaseMessage) : N :=
  fold_left
    (fun total m =>
       total + strTokenCounter (role_label (kind m))
             + strTokenCounter (content m))%N
    ms 0%N.

Definition cost (m : BaseMessage) : N :=
  (strTokenCounter (role_label (kind m)) + strTokenCounter (content m))%N.

(** Modelled from the spec: [trimMessages] with [strategy: 'last'] is a
    function of the message library, which is not part of the sources.
    Section 4.3: scan the history from the most recent turn backward,
    accumulating the token estimate; a turn is included only if the running
    total, that turn included, stays within the budget; once the budget is
    exceeded, that turn and everything older is left out. *)
Fixpoint scan_backward (newest_first : list BaseMessage) (running budget : N)
  : list BaseMessage :=
  match newest_first with
  | [] => []
  | m :: older =>
    let total := (running + cost m)%N in
    if (total <=? budget)%N
    then m :: scan_backward older total budget
    else []
  end.

(** The library hands back new message objects, copies of the turns it
    keeps: none of them is one of the objects it was given. *)
Definition fresh_ref (ms : list BaseMessage) : nat :=
  S (fold_right (fun m acc => Nat.max (ref m) acc) 0 ms).

Fixpoint copies_from (base : nat) (ms : list BaseMessage)
  : list BaseMessage :=
  match ms with
  | [] => []
  | m :: rest =>
    {| ref := base; kind := kind m; content := content m |}
      :: copies_from (S base) rest
  end.

Definition trimMessages (history : list BaseMessage) (maxTokens : N)
  : list BaseMessage :=
  copies_from (fresh_ref history)
              (rev (scan_backward (rev history) 0%N maxTokens)).

End WithWorld.
End Tokens.

(* ================================================================== *)
(** * The history read route *)
(* ================================================================== *)

Module History.
Section WithWorld.
Variable w : World.

(** [ORDER BY created_at ASC]: the rows sorted by [created_at]; rows of
    equal [created_at] keep the order in which they were inserted. *)
Fixpoint insert_by_created_at (r : MessageRow) (sorted : list MessageRow)
  : list MessageRow :=
  match sorted with
  | [] => [r]
  | x :: rest =>
    if (created_at r <=? created_at x)%Z
    then r :: x :: rest
    else x :: insert_by_created_at r rest
  end.

Definition order_by_created_at (rows : list MessageRow) : list MessageRow :=
  fold_right insert_by_created_at [] rows.

(** [SELECT message, message->>'type' as message_type, created_at FROM
    chat_messages WHERE session_id = $1 ORDER BY created_at ASC]. *)
Definition select_history (sid : text) : M (list MessageRow) :=
  Db.db_call w AtHistorySelect ;;;
  st <- get_store ;;
  ret (order_by_created_at (Db.rows_of st sid)).

(** [let role = 'user'; if (type === 'ai') role = 'assistant';
    else if (type === 'human') role = 'user']. *)
Definition type_is (t : option text) (s : text) : bool :=
  match t with Some x => JS.eqb x s | None => false end.

Definition role_of (message_type : option text) : text :=
  let role := #"user" in
  if type_is message_type #"ai" then #"assistant"
  else if type_is message_type #"human" then #"user"
  else role.

(** [data.content || data.text || data.message || '']. *)
Definition first_truthy (a : option text) (b : text) : text :=
  match a with
  | Some s => if JS.truthy s then s else b
  | None => b
  end.

Definition content_of (data : StoredMessage) : text :=
  first_truthy (m_content data)
    (first_truthy (m_text data) (first_truthy (m_message data) [])).

Definition to_history_message (i : nat) (row : MessageRow) : HistoryMessage :=
  {| h_id := #"history-" ++ JS.of_nat i;
     h_role := role_of (m_type (message row));
     h_content := content_of (message row);
     h_createdAt := created_at row |}.

(** [rows.map((row, i) => ...)]. *)
Fixpoint map_rows (i : nat) (rows : list MessageRow) : list HistoryMessage :=
  match rows with
  | [] => []
  | row :: rest => to_history_message i row :: map_rows (S i) rest
  end.

(** The handler; [on_error] is the [catch] block, which differs between the
    route files only in the body of the 500 response. *)
Definition GET_with (on_error : Error -> M Response) (sessionId : option text)
  : M Response :=
  try_catch
    (match sessionId with
     | Some sid =>
       if JS.truthy sid then
         Db.pool_connect w AtHistoryConnect ;;;
         try_finally
           (rows <- select_history sid ;;
            ret (HistoryResponse 200 (map_rows 0 rows)))
           Db.client_release
       else ret (ErrorResponse 400 #"Session ID is required" None)
     | None => ret (ErrorResponse 400 #"Session ID is required" None)
     end)
    on_error.

End WithWorld.
End History.

(* ================================================================== *)
(** * The Gemini chat route ([src/unnamed/part_002]) *)
(* ================================================================== *)

Definition nl : text := [10%N].
Definition dquote : text := [34%N].

Definition is_human (m : BaseMessage) : bool := kind_eqb (kind m) Human.

Module Gemini.
Section WithWorld.
Variable w : World.

(** [mapUIMessagesToLangChainMessages]: one fresh object per UI message,
    numbered from [base]. *)
Definition text_of_parts (parts : option (list UIPart)) : text :=
  match parts with
  | Some ps =>
    match find is_text_part ps with
    | Some p => match part_text p with Some t => t | None => [] end
    | None => []
    end
  | None => []
  end.

Definition kind_of_role (role : text) : MsgKind :=
  if JS.eqb role #"user" then Human
  else if JS.eqb role #"assistant" then AI
  else Human.

Fixpoint mapUIMessagesToLangChainMessages (base : nat) (ms : list UIMessage)
  : list BaseMessage :=
  match ms with
  | [] => []
  | msg :: rest =>
    {| ref := base; kind := kind_of_role (ui_role msg);
       content := text_of_parts (ui_parts msg) |}
      :: mapUIMessagesToLangChainMessages (S base) rest
  end.

(** [createNewSession(userId, messages)]. *)
Definition first_part_title (firstMessage : option UIMessage) : M text :=
  match firstMessage with
  | Some m =>
    match ui_parts m with
    | Some (p0 :: _) =>
      if is_text_part p0 then
        match part_text p0 with
        | Some t => ret (JS.slice0 50 t)
        | None =>
          throw (JsError
                   #"Cannot read properties of undefined (reading 'slice')")
        end
      else ret #"New Chat"
    | _ => ret #"New Chat"
    end
  | None => ret #"New Chat"
  end.

Definition createNewSession (user : text) (ms : list UIMessage) : M text :=
  Db.pool_connect w AtCreateConnect ;;;
  try_finally
    (try_catch
       (new_title <- first_part_title (find is_user ms) ;;
        Db.insert_session w new_title user)
       (fun error =>
          emit (EvLog #"❌ Error in createNewSession:" (error_message error)) ;;;
          throw error))
    Db.client_release.

(** [updateSessionSummary(sessionId, oldSummary, allHistory)]. *)
Definition updateSessionSummary (sid oldSummary allHistory : text) : M unit :=
  try_catch
    (emit (EvModelInvoke (SessionSummaryPrompt allHistory)) ;;;
     updatedSummary <- await (chain_invoke w (SessionSummaryPrompt allHistory)) ;;
     Db.update_summary w updatedSummary sid)
    (fun e =>
       emit (EvLog (#"❌ Failed to update summary for session " ++ sid ++ #":")
                   (error_message e))).

(** [formatMessageForSummary]. *)
Definition formatMessageForSummary (m : BaseMessage) : text :=
  match kind m with
  | Human => #"ผู้ใช้: " ++ content m
  | AI => #"ผู้ช่วย: " ++ content m
  | _ => #"ระบบ: " ++ content m
  end.

(** [xs.lastIndexOf(m)], by object identity. *)
Fixpoint lastIndexOf (xs : list BaseMessage) (m : BaseMessage) : option nat :=
  match xs with
  | [] => None
  | x :: rest =>
    match lastIndexOf rest m with
    | Some i => Some (S i)
    | None => if Nat.eqb (ref x) (ref m) then Some 0 else None
    end
  end.

(** [xs.slice(0, xs.lastIndexOf(m))]; an index of -1 drops the last one. *)
Definition slice_before_last (xs : list BaseMessage) (m : BaseMessage)
  : list BaseMessage :=
  match lastIndexOf xs m with
  | Some i => firstn i xs
  | None => removelast xs
  end.

(** Step 4: trimming, then dropping a leading assistant message. *)
Definition recent_window (historyWithoutLastInput : list BaseMessage)
  : list BaseMessage :=
  let recentWindow :=
    match historyWithoutLastInput with
    | [] => []
    | _ :: _ => Tokens.trimMessages w historyWithoutLastInput 10000%N
    end in
  match recentWindow with
  | m :: rest => if kind_eqb (kind m) AI then rest else recentWindow
  | [] => recentWindow
  end.

Definition systemInstruction (persistedSummary : text) : text :=
  #"คุณคือผู้ช่วยที่ตอบชัดเจน และตอบเป็นภาษาไทยเมื่อผู้ใช้ถามเป็นไทย"
   ++ nl ++ #"    " ++ nl ++ #"บริบทก่อนหน้า (สรุป): "
   ++ JS.or_else persistedSummary #"ไม่มีบริบทก่อนหน้า".

(** The body of the [for await] loop. *)
Definition on_chunk (assistantText chunk : text) : M text :=
  if JS.truthy chunk && (0 <? List.length chunk)
  then emit (EvEnqueue chunk) ;;; ret (assistantText ++ chunk)
  else ret assistantText.

(** The [start] callback of the response stream. *)
Definition start (sid persistedSummary input : text)
    (dbHistory : list BaseMessage) (stream : Stream text) : M unit :=
  try_catch
    (assistantText <- for_await stream on_chunk [] ;;
     (if JS.truthy assistantText then
        try_catch
          (Db.addMessage w AtAddUser sid Human input ;;;
           Db.addMessage w AtAddAI sid AI assistantText ;;;
           let allHistoryForSummary :=
             JS.join nl
               (map formatMessageForSummary dbHistory ++
                [#"ผู้ใช้: " ++ input; #"ผู้ช่วย: " ++ assistantText]) in
           updateSessionSummary sid persistedSummary allHistoryForSummary)
          (fun bgError =>
             emit (EvLog #"❌ Database save error:" (error_message bgError)))
      else ret tt) ;;;
     emit EvClose)
    (fun error =>
       emit (EvLog #"❌ Stream error:" (error_message error)) ;;;
       emit (EvError error)).

(** Steps 2 to 6, once the session id is known. *)
Definition converse (isNewSession : bool) (sid : text) (ms : list UIMessage)
  : M Response :=
  persistedSummary <- Db.select_summary w sid ;;
  dbHistory <- Db.getMessages w sid ;;
  let newMessages := mapUIMessagesToLangChainMessages (List.length dbHistory) ms in
  let fullHistory :=
    if isNewSession then newMessages
    else match JS.find_last is_human newMessages with
         | Some latestUserMessage => dbHistory ++ [latestUserMessage]
         | None => dbHistory
         end in
  let lastUserMessage := JS.find_last is_human fullHistory in
  let input :=
    match lastUserMessage with Some m => content m | None => [] end in
  if negb (JS.truthy input)
  then ret (PlainResponse 400 #"No valid user input found.")
  else
    let historyWithoutLastInput :=
      match lastUserMessage with
      | Some m => slice_before_last fullHistory m
      | None => fullHistory
      end in
    let recentWindow := recent_window historyWithoutLastInput in
    let prompt :=
      ChatPrompt (systemInstruction persistedSummary) recentWindow input in
    emit (EvModelStream prompt) ;;;
    stream <- await (chain_stream w prompt) ;;
    start sid persistedSummary input dbHistory stream ;;;
    ret (StreamResponse (Some sid)).

(** Step 1: the session id of the request, or a new session. *)
Definition resolve_session (req : Request) : M text :=
  match sessionId req with
  | Some sid =>
    if JS.truthy sid then ret sid
    else
      match userId req with
      | Some user =>
        if JS.truthy user then createNewSession user (messages req)
        else throw (JsError #"User ID is required for new sessions")
      | None => throw (JsError #"User ID is required for new sessions")
      end
  | None =>
    match userId req with
    | Some user =>
      if JS.truthy user then createNewSession user (messages req)
      else throw (JsError #"User ID is required for new sessions")
    | None => throw (JsError #"User ID is required for new sessions")
    end
  end.

Definition POST (req : Request) : M Response :=
  try_catch
    (let isNewSession := negb (JS.truthy_opt (sessionId req)) in
     currentSessionId <- resolve_session req ;;
     if negb (JS.truthy currentSessionId)
     then throw (JsError #"Failed to create session ID")
     else converse isNewSession currentSessionId (messages req))
    (fun error =>
       emit (EvLog #"API Error:" (error_message error)) ;;;
       ret (ErrorResponse 500 #"An error occurred processing your request"
                          (Some (error_message error)))).

(** The history route of this file. *)
Definition GET (sid : option text) : M Response :=
  History.GET_with w
    (fun error =>
       emit (EvLog #"GET History Error:" (error_message error)) ;;;
       ret (ErrorResponse 500 #"Failed to fetch history" None))
    sid.

End WithWorld.
End Gemini.

(* ================================================================== *)
(** * The Gemini RAG route ([src/src/app/api/chat_08_rag/route.ts]) *)
(* ================================================================== *)

Module Rag.
Section WithWorld.
Variable w : World.

(** The text put in the context slot when the search cannot be reached. *)
Definition SEARCH_UNAVAILABLE : text :=
  #"ไม่สามารถเข้าถึงระบบค้นหาเอกสารได้ในขณะนี้".

Definition format_document (d : ScoredDocument) : text :=
  let name :=
    match filename d with
    | Some f => JS.or_else f #"ไม่ทราบชื่อไฟล์"
    | None => #"ไม่ทราบชื่อไฟล์"
    end in
  let type :=
    match doc_type d with
    | Some t => JS.or_else t #"ไม่ทราบประเภท"
    | None => #"ไม่ทราบประเภท"
    end in
  #"ไฟล์: " ++ name ++ #" (" ++ toUpperCase w type ++ #")" ++ nl
   ++ #"เนื้อหา: " ++ pageContent d ++ nl
   ++ #"ความเกี่ยวข้อง: " ++ percent d ++ #"%".

(** [searchDocuments(query, limit)]. *)
Definition searchDocuments (query : text) (limit : nat) : M text :=
  try_catch
    (emit (EvSearch query limit) ;;;
     results <- await (similaritySearchWithScore w query limit) ;;
     match results with
     | [] =>
       ret (#"ไม่พบเอกสารที่เกี่ยวข้องกับ " ++ dquote ++ query ++ dquote
             ++ #" ในระบบ")
     | _ :: _ =>
       ret (JS.join (nl ++ nl ++ #"---" ++ nl ++ nl)
                    (map format_document results))
     end)
    (fun e =>
       let errorMessage := error_message e in
       emit (EvLog #"❌ Search error:" errorMessage) ;;;
       if JS.includes errorMessage #"connection"
          || JS.includes errorMessage #"network"
          || JS.includes errorMessage #"timeout"
       then throw (JsError SEARCH_UNAVAILABLE)
       else throw (JsError (#"เกิดข้อผิดพลาดในการค้นหาเอกสาร: "
                             ++ errorMessage))).

(** Step 2: the title of a new session. *)
Definition title_of (ms : list UIMessage) : text :=
  match find is_user ms with
  | Some firstMessage =>
    match ui_parts firstMessage with
    | Some ((_ :: _) as ps) =>
      match find is_text_part ps with
      | Some textPart =>
        match part_text textPart with
        | Some t =>
          JS.slice0 50 t ++ (if 50 <? List.length t then #"..." else [])
        | None => #"New Chat"
        end
      | None => #"New Chat"
      end
    | _ => #"New Chat"
    end
  | None => #"New Chat"
  end.

Definition new_session (req : Request) : M text :=
  Db.pool_connect w AtCreateConnect ;;;
  try_finally
    (let new_title := title_of (messages req) in
     match userId req with
     | Some user =>
       if JS.truthy user then Db.insert_session w new_title user
       else throw (JsError #"User ID is required")
     | None => throw (JsError #"User ID is required")
     end)
    Db.client_release.

(** Step 3: the persisted summary. *)
Definition load_summary (sid : text) : M text :=
  Db.pool_connect w AtSummaryConnect ;;;
  try_finally (Db.select_summary w sid) Db.client_release.

(** Step 6: the text of the last user message; [None] is [undefined]. *)
Definition last_input (ms : list UIMessage) : option text :=
  match JS.find_last is_user ms with
  | Some lastUserMessage =>
    match ui_parts lastUserMessage with
    | Some ((_ :: _) as ps) =>
      match find is_text_part ps with
      | Some textPart => part_text textPart
      | None => Some []
      end
    | _ => Some []
    end
  | None => Some []
  end.

(** [windowSet.has(m)]: membership by object identity. *)
Definition set_has (window : list BaseMessage) (m : BaseMessage) : bool :=
  existsb (fun x => Nat.eqb (ref x) (ref m)) window.

Definition format_turn (m : BaseMessage) : text :=
  match kind m with
  | Human => #"ผู้ใช้: " ++ content m
  | AI => #"ผู้ช่วย: " ++ content m
  | _ => #"ระบบ: " ++ content m
  end.

(** Step 7: the window and the overflow of the stored history. *)
Definition trimmed_window (fullHistory : list BaseMessage)
  : list BaseMessage :=
  Tokens.trimMessages w fullHistory 3000%N.

Definition overflow_of (fullHistory trimmedWindow : list BaseMessage)
  : list BaseMessage :=
  filter (fun m => negb (set_has trimmedWindow m)) fullHistory.

Definition without_current_input (input : text)
    (trimmedWindow : list BaseMessage) : list BaseMessage :=
  filter (fun msg => negb (is_human msg && JS.eqb (content msg) input))
         trimmedWindow.

Definition summarize_overflow (overflow : list BaseMessage) : M text :=
  match overflow with
  | [] => ret []
  | _ :: _ =>
    let historyText := JS.join nl (map format_turn overflow) in
    try_catch
      (emit (EvModelInvoke (OverflowSummaryPrompt historyText)) ;;;
       await (chain_invoke w (OverflowSummaryPrompt historyText)))
      (fun e =>
         emit (EvLog #"overflow summary failed" (error_message e)) ;;;
         ret [])
  end.

Definition budgeting (req : Request) (input : text)
    (fullHistory : list BaseMessage) : M (list BaseMessage * text) :=
  match fullHistory with
  | _ :: _ =>
    if JS.truthy_opt (sessionId req) then
      let trimmedWindow := trimmed_window fullHistory in
      let recentWindowWithoutCurrentInput :=
        without_current_input input trimmedWindow in
      let overflow := overflow_of fullHistory trimmedWindow in
      overflowSummary <- summarize_overflow overflow ;;
      ret (recentWindowWithoutCurrentInput, overflowSummary)
    else ret ([], [])
  | [] => ret ([], [])
  end.

(** Step 9: the document context of the prompt. *)
Definition document_context (input : text) : M text :=
  try_catch
    (searchDocuments input 3)
    (fun error =>
       emit (EvLog #"⚠️ Search Error:" (error_message error)) ;;;
       ret SEARCH_UNAVAILABLE).

(** Step 10: saving the user message. *)
Definition save_user_message (sid input : text) : M bool :=
  try_catch
    (Db.addMessage w AtAddUser sid Human input ;;; ret true)
    (fun e =>
       emit (EvLog #"⚠️ Save user msg failed:" (error_message e)) ;;;
       ret false).

Definition SEARCH_ERROR_MARK : text := #"ไม่สามารถเข้าถึงระบบค้นหาเอกสารได้".

Definition friendlyMessage : text :=
  #"ขออภัยครับ ขณะนี้ไม่สามารถเข้าถึงระบบค้นหาเอกสารได้ กรุณาลองใหม่อีกครั้งในภายหลัง".

(** Step 11: the body of the [for await] loop; the loop variables are
    [assistantText] and [hasSearchError]. *)
Definition on_chunk (vars : text * bool) (chunk : text) : M (text * bool) :=
  let assistantText := fst vars ++ chunk in
  if JS.includes chunk SEARCH_ERROR_MARK
     || JS.includes assistantText SEARCH_ERROR_MARK
  then emit (EvEnqueue friendlyMessage) ;;; ret (friendlyMessage, true)
  else emit (EvEnqueue chunk) ;;; ret (assistantText, snd vars).

(** Steps 12 and 13: saving the answer and updating the summary. *)
Definition save_and_summarize (sid persistedSummary overflowSummary input
                               assistantText : text) : M unit :=
  try_catch
    (Db.addMessage w AtAddAI sid AI assistantText ;;;
     let prompt :=
       MergeSummaryPrompt
         (JS.or_else persistedSummary #"ไม่มีประวัติก่อนหน้า")
         (JS.join nl
            (filter JS.truthy
               [overflowSummary; #"ผู้ใช้: " ++ input;
                #"ผู้ช่วย: " ++ assistantText])) in
     emit (EvModelInvoke prompt) ;;;
     updatedSummary <- await (chain_invoke w prompt) ;;
     Db.pool_connect w AtUpdateConnect ;;;
     try_finally (Db.update_summary w updatedSummary sid) Db.client_release)
    (fun e => emit (EvLog #"Update summary failed" (error_message e))).

(** The [start] callback of the response stream. *)
Definition start (sid persistedSummary overflowSummary input : text)
    (canSaveToDatabase : bool) (stream : Stream text) : M unit :=
  try_catch
    (vars <- for_await stream on_chunk ([], false) ;;
     let assistantText := fst vars in
     let hasSearchError := snd vars in
     (if negb (JS.truthy assistantText)
      then emit (EvLog #"⚠️ จบ Stream แต่ไม่มีข้อความ (Empty Response)" [])
      else ret tt) ;;;
     (if JS.truthy assistantText && negb hasSearchError && canSaveToDatabase
      then save_and_summarize sid persistedSummary overflowSummary input
                              assistantText
      else ret tt) ;;;
     emit EvClose)
    (fun error => emit (EvError error)).

(** Steps 3 to 14, once the session id is known. *)
Definition converse (req : Request) (sid : text) : M Response :=
  persistedSummary <- load_summary sid ;;
  fullHistory <- Db.getMessages w sid ;;
  match last_input (messages req) with
  | None => ret (PlainResponse 400 #"No valid user input found.")
  | Some input =>
    if negb (JS.truthy input)
    then ret (PlainResponse 400 #"No valid user input found.")
    else
      budget <- budgeting req input fullHistory ;;
      let recentWindowWithoutCurrentInput := fst budget in
      let overflowSummary := snd budget in
      let summaryForThisTurn :=
        JS.join nl (filter JS.truthy [persistedSummary; overflowSummary]) in
      documentContext <- document_context input ;;
      let prompt :=
        RagPrompt summaryForThisTurn documentContext
                  recentWindowWithoutCurrentInput input in
      emit (EvModelStream prompt) ;;;
      stream <- await (chain_stream w prompt) ;;
      canSaveToDatabase <- save_user_message sid input ;;
      start sid persistedSummary overflowSummary input canSaveToDatabase
            stream ;;;
      ret (StreamResponse (if JS.truthy sid then Some sid else None))
  end.

(** Step 2: the session id of the request, or a new session. *)
Definition resolve_session (req : Request) : M text :=
  match sessionId req with
  | Some sid => if JS.truthy sid then ret sid else new_session req
  | None => new_session req
  end.

Definition POST (req : Request) : M Response :=
  try_catch
    (currentSessionId <- resolve_session req ;;
     converse req currentSessionId)
    (fun error =>
       emit (EvLog #"API Error:" (error_message error)) ;;;
       ret (ErrorResponse 500 #"An error occurred"
                          (Some (error_message error)))).

Definition GET (sid : option text) : M Response :=
  History.GET_with w
    (fun error =>
       emit (EvLog #"Error fetching messages:" (error_message error)) ;;;
       ret (ErrorResponse 500 #"Failed to fetch messages"
                          (Some (error_message error))))
    sid.

End WithWorld.
End Rag.

(* ================================================================== *)
(** * The tool-calling agent route ([src/unnamed/part_004]) *)
(* ================================================================== *)

Module Agent.
Section WithWorld.
Variable w : World.

(** Step 2: the input of the turn; [None] is [undefined]. *)
Definition input_content (ms : list UIMessage) : option text :=
  let lastUserMessage := JS.find_last is_user ms in
  let inputContent :=
    match lastUserMessage with
    | Some m =>
      match ui_content m with
      | Some c => JS.or_else c []
      | None => []
      end
    | None => []
    end in
  match lastUserMessage with
  | Some m =>
    match ui_parts m with
    | Some ((_ :: _) as ps) =>
      match find is_text_part ps with
      | Some textPart => part_text textPart
      | None => Some inputContent
      end
    | _ => Some inputContent
    end
  | None => Some inputContent
  end.

(** The body of the [for await] loop over the agent's events. *)
Definition on_event (fullAiResponse : text) (ev : AgentEvent) : M text :=
  match ev with
  | OnChatModelStream (Some c) =>
    if JS.truthy c && (0 <? List.length c)
    then emit (EvEnqueue c) ;;; ret (fullAiResponse ++ c)
    else ret fullAiResponse
  | _ => ret fullAiResponse
  end.

(** The [start] callback of the custom text stream.  The answer is saved
    after the stream is closed; a failed save is only logged. *)
Definition start (sid : text) (historyMessages : list BaseMessage) : M unit :=
  try_catch
    (emit (EvAgentStream historyMessages) ;;;
     eventStream <- await (streamEvents w historyMessages) ;;
     fullAiResponse <- for_await eventStream on_event [] ;;
     emit EvClose ;;;
     if JS.truthy fullAiResponse then
       try_catch
         (Db.addMessage w AtAddAI sid AI fullAiResponse)
         (fun err =>
            emit (EvLog #"Failed to save history:" (error_message err)))
     else ret tt)
    (fun e =>
       emit (EvLog #"❌ Stream Error:" (error_message e)) ;;;
       emit (EvError e)).

Definition POST (req : Request) : M Response :=
  try_catch
    (let targetSessionId :=
       match sessionId req with
       | Some sid => JS.or_else sid (#"session-" ++ date_now w)
       | None => #"session-" ++ date_now w
       end in
     match input_content (messages req) with
     | None => ret (PlainResponse 400 #"No input")
     | Some inputContent =>
       if negb (JS.truthy inputContent)
       then ret (PlainResponse 400 #"No input")
       else
         Db.addMessage w AtAddUser targetSessionId Human inputContent ;;;
         historyMessages <- Db.getMessages w targetSessionId ;;
         start targetSessionId historyMessages ;;;
         ret (StreamResponse (Some targetSessionId))
     end)
    (fun error =>
       emit (EvLog #"API Error:" (error_message error)) ;;;
       ret (ErrorResponse 500 #"Server Error" None)).

Definition GET (sid : option text) : M Response :=
  History.GET_with w
    (fun error =>
       emit (EvLog #"Error fetching messages:" (error_message error)) ;;;
       ret (ErrorResponse 500 #"Failed to fetch messages"
                          (Some (error_message error))))
    sid.

End WithWorld.
End Agent.

(* ================================================================== *)
(** * The product tool of the agent ([src/unnamed/part_004]) *)
(* ================================================================== *)

Module Tools.

(** A row of the [products] table as the tool reads it.  Each field is the
    text that the template literal renders for it; [p_price_locale] is the
    text of [price.toLocaleString()], which cannot be computed when the
    price is [null]. *)
Record Product := {
  p_name : text;
  p_price : text;
  p_price_locale : option text;
  p_stock : text;
  p_description : text
}.

(** What the query resolves to: [{ data, error }] with one of the two
    set; [data] may be [null]. *)
Inductive Reply :=
| Data (rows : option (list Product))
| QueryError (message : text).

Definition DATABASE_CONNECTION_ERROR : text := #"DATABASE_CONNECTION_ERROR".

(** [m.includes('connection') || m.includes('network') ||
    m.includes('timeout')]. *)
Definition is_connection_message (m : text) : bool :=
  JS.includes m #"connection" || JS.includes m #"network"
  || JS.includes m #"timeout".

Section WithSupabase.

(** The answer of [supabase.from("products").select(...).ilike("name",
    `%${productName}%`).limit(10)] for a product name. *)
Variable select_products : text -> Result Reply.

(** One row of the Markdown table. *)
Definition table_row (product : Product) : M text :=
  match p_price_locale product with
  | Some price =>
    ret (#"| " ++ p_name product ++ #" | " ++ price ++ #" | "
          ++ p_stock product ++ #" | " ++ p_description product ++ #" |")
  | None =>
    throw (JsError
             #"Cannot read properties of null (reading 'toLocaleString')")
  end.

(** [data.map(product => ...)]. *)
Fixpoint table_rows (data : list Product) : M (list text) :=
  match data with
  | [] => ret []
  | product :: rest =>
    row <- table_row product ;;
    rows <- table_rows rest ;;
    ret (row :: rows)
  end.

Definition tableHeader : text :=
  #"| ชื่อสินค้า | ราคา (บาท) | สต็อก (ชิ้น) | รายละเอียด |" ++ nl
   ++ #"|----------|------------|-------------|------------|".

(** The [func] of [getProductInfoTool].  Of a logged object only the
    label is recorded. *)
Definition getProductInfoTool (productName : text) : M text :=
  emit (EvLog (#"🔧 TOOL CALLED: get_product_info with productName="
                ++ dquote ++ productName ++ dquote) []) ;;;
  try_catch
    (reply <- await (select_products productName) ;;
     match reply with
     | QueryError message =>
       emit (EvLog #"❌ Supabase error:" message) ;;;
       if is_connection_message message
       then throw (JsError DATABASE_CONNECTION_ERROR)
       else throw (JsError message)
     | Data None | Data (Some []) =>
       emit (EvLog (#"❌ ไม่พบสินค้าที่ชื่อ '" ++ productName ++ #"'") []) ;;;
       ret (#"ไม่พบสินค้าที่ชื่อ '" ++ productName ++ #"' ในฐานข้อมูล")
     | Data (Some [product]) =>
       emit (EvLog #"✅ พบข้อมูลสินค้า:" []) ;;;
       ret (#"ข้อมูลสินค้า " ++ dquote ++ p_name product ++ dquote ++ #":" ++ nl
             ++ #"- ราคา: " ++ p_price product ++ #" บาท" ++ nl
             ++ #"- จำนวนในสต็อก: " ++ p_stock product ++ #" ชิ้น" ++ nl
             ++ #"- รายละเอียด: " ++ p_description product)
     | Data (Some data) =>
       emit (EvLog #"✅ พบข้อมูลสินค้า:" []) ;;;
       tableRows <- table_rows data ;;
       ret (#"พบสินค้าที่ตรงกับคำค้นหา " ++ dquote ++ productName ++ dquote
             ++ #" ทั้งหมด " ++ JS.of_nat (List.length data) ++ #" รายการ:"
             ++ nl ++ nl ++ tableHeader ++ nl ++ JS.join nl tableRows)
     end)
    (fun e =>
       let errorMessage := error_message e in
       emit (EvLog #"❌ Tool error:" errorMessage) ;;;
       if JS.eqb errorMessage DATABASE_CONNECTION_ERROR
          || is_connection_message errorMessage
       then throw (JsError DATABASE_CONNECTION_ERROR)
       else ret (#"เกิดข้อผิดพลาดในการดึงข้อมูลสินค้า: " ++ errorMessage)).

(** The message of the failure of the query, if it fails: the message of
    the rejection, or of the [error] of the reply. *)
Definition failure_message (productName : text) : option text :=
  match select_products productName with
  | Rejected e => Some (error_message e)
  | Resolved (QueryError message) => Some message
  | Resolved (Data _) => None
  end.

End WithSupabase.

(** A failure that the tool passes on: it is the sentinel itself or it
    names a connection, the network or a timeout. *)
Definition is_connection_failure (m : text) : bool :=
  JS.eqb m DATABASE_CONNECTION_ERROR || is_connection_message m.

End Tools.

(* ================================================================== *)
(** * Sample worlds, requests and stores *)
(* ================================================================== *)

Module Sample.

(** A world in which nothing fails: the model streams two chunks, the
    summarizer answers, the search finds nothing. *)
Definition calm : World := {|
  db_fault := fun _ => None;
  returning_id := fun st => #"s" ++ JS.of_nat (List.length (chat_sessions st));
  now := fun st => (100 + Z.of_nat (List.length (chat_messages st)))%Z;
  date_now := #"1700000000000";
  encode := fun t => N.of_nat (List.length t);
  chain_stream := fun _ =>
    Resolved {| chunks := [#"Hi"; #" there"]; failure := None |};
  chain_invoke := fun _ => Resolved #"digest";
  streamEvents := fun _ =>
    Resolved {| chunks := [OnChatModelStream (Some #"Hi"); OnOtherEvent];
                failure := None |};
  similaritySearchWithScore := fun _ _ => Resolved [];
  toUpperCase := fun t => t
|}.

Definition with_chain_stream (w : World) (r : Result (Stream text)) : World := {|
  db_fault := db_fault w;
  returning_id := returning_id w;
  now := now w;
  date_now := date_now w;
  encode := encode w;
  chain_stream := fun _ => r;
  chain_invoke := chain_invoke w;
  streamEvents := streamEvents w;
  similaritySearchWithScore := similaritySearchWithScore w;
  toUpperCase := toUpperCase w
|}.

Definition with_chain_invoke (w : World) (r : Result text) : World := {|
  db_fault := db_fault w;
  returning_id := returning_id w;
  now := now w;
  date_now := date_now w;
  encode := encode w;
  chain_stream := chain_stream w;
  chain_invoke := fun _ => r;
  streamEvents := streamEvents w;
  similaritySearchWithScore := similaritySearchWithScore w;
  toUpperCase := toUpperCase w
|}.


Definition user_says (t : text) : UIMessage :=
  {| ui_role := #"user"; ui_content := Some t;
     ui_parts := Some [{| part_type := #"text"; part_text := Some t |}] |}.

Definition empty_store : Store :=
  {| chat_sessions := []; chat_messages := [] |}.

(** A store with one session, [s0], owned by [u1], and two stored turns. *)
Definition one_session : Store := {|
  chat_sessions :=
    [{| id := #"s0"; title := #"Hello"; user_id := #"u1";
        summary := Some #"greeting" |}];
  chat_messages :=
    [{| session_id := #"s0"; message := to_stored Human #"Hello";
        created_at := 10 |};
     {| session_id := #"s0"; message := to_stored AI #"Hi, how can I help?";
        created_at := 11 |}]
|}.

(** First turn of a new conversation of owner [u1]. *)
Definition hello_new : Request :=
  {| messages := [user_says #"Hello"]; sessionId := None;
     userId := Some #"u1" |}.

(** A further turn in session [s0]. *)
Definition next_turn : Request :=
  {| messages := [user_says #"What is RAG?"]; sessionId := Some #"s0";
     userId := Some #"u1" |}.

(** A request with neither a session id nor an owner id. *)
Definition anonymous : Request :=
  {| messages := [user_says #"Hello"]; sessionId := None; userId := None |}.

Definition network_error : Error := JsError #"network unreachable".

(** A request for a new session that carries no message. *)
Definition empty_new : Request :=
  {| messages := []; sessionId := None; userId := Some #"u1" |}.

(** A user message whose only part is a text part without text. *)
Definition textless : UIMessage :=
  {| ui_role := #"user"; ui_content := None;
     ui_parts := Some [{| part_type := #"text"; part_text := None |}] |}.

Definition textless_new : Request :=
  {| messages := [textless]; sessionId := None; userId := Some #"u1" |}.

(** A world whose model repeats the placeholder of the document search
    in the middle of its answer. *)
Definition echoing : World :=
  with_chain_stream calm
    (Resolved {| chunks := [#"Sorry: ";
                            #"ไม่สามารถเข้าถึงระบบค้นหาเอกสารได้ในขณะนี้";
                            #" (end)"];
                 failure := None |}).


(** A world whose summarizer is unreachable. *)
Definition offline_summarizer : World :=
  with_chain_invoke calm (Rejected network_error).

(** A model stream that yields one chunk and then breaks. *)
Definition broken_stream : Stream text :=
  {| chunks := [#"A"]; failure := Some network_error |}.

(** A store with one session, [s0], that has a summary and no stored
    turn yet. *)
Definition bare_session : Store := {|
  chat_sessions :=
    [{| id := #"s0"; title := #"Hello"; user_id := #"u1";
        summary := Some #"greeting" |}];
  chat_messages := []
|}.

(** A world in which the write of the assistant turn fails. *)
Definition lost_answer_write : World := {|
  db_fault := fun site =>
    match site with AtAddAI => Some network_error | _ => None end;
  returning_id := returning_id calm;
  now := now calm;
  date_now := date_now calm;
  encode := encode calm;
  chain_stream := chain_stream calm;
  chain_invoke := chain_invoke calm;
  streamEvents := streamEvents calm;
  similaritySearchWithScore := similaritySearchWithScore calm;
  toUpperCase := toUpperCase calm
|}.

(** A world whose pool has no client to give when a session is to be
    created. *)
Definition exhausted_pool : World := {|
  db_fault := fun site =>
    match site with AtCreateConnect => Some network_error | _ => None end;
  returning_id := returning_id calm;
  now := now calm;
  date_now := date_now calm;
  encode := encode calm;
  chain_stream := chain_stream calm;
  chain_invoke := chain_invoke calm;
  streamEvents := streamEvents calm;
  similaritySearchWithScore := similaritySearchWithScore calm;
  toUpperCase := toUpperCase calm
|}.

(** A first message of 51 characters. *)
Definition long_text : text := repeat 97%N 51.

Definition long_hello : Request :=
  {| messages := [user_says long_text]; sessionId := None;
     userId := Some #"u1" |}.

End Sample.

(* ================================================================== *)
(** * Observations on responses and traces *)
(* ================================================================== *)

Inductive Route := GeminiRoute | RagRoute | AgentRoute.

Definition POST_of (r : Route) (w : World) (req : Request) : M Response :=
  match r with
  | GeminiRoute => Gemini.POST w req
  | RagRoute => Rag.POST w req
  | AgentRoute => Agent.POST w req
  end.

Definition GET_of (r : Route) (w : World) (sid : option text) : M Response :=
  match r with
  | GeminiRoute => Gemini.GET w sid
  | RagRoute => Rag.GET w sid
  | AgentRoute => Agent.GET w sid
  end.

(** The messages of a history response; none for any other outcome. *)
Definition history_messages (o : Outcome Response) : list HistoryMessage :=
  match o with
  | Return (HistoryResponse _ msgs) => msgs
  | _ => []
  end.

(** The chunks handed to the stream controller, in order. *)
Fixpoint enqueues (t : list Event) : list text :=
  match t with
  | [] => []
  | EvEnqueue c :: rest => c :: enqueues rest
  | _ :: rest => enqueues rest
  end.

(** Rows in non-decreasing order of [created_at]. *)
Definition ascending (l : list MessageRow) : Prop :=
  StronglySorted Z.le (map created_at l).

(** The chunks the Gemini and agent loops hand on: the non-empty ones. *)
Definition nonempty_chunks (cs : list text) : list text :=
  filter (fun c => JS.truthy c && (0 <? List.length c)) cs.

(** Events that cannot be part of a delivered answer: everything except
    the enqueueing of a chunk, the end of the stream, and the appending of
    an assistant turn. *)
Definition prefix_event (e : Event) : bool :=
  match e with
  | EvEnqueue _ | EvClose | EvError _ | EvInsertMessage _ AI _ => false
  | _ => true
  end.

(** Events of the steps that come before the answer stream is opened:
    resolving the session, loading, the overflow summary and the search.
    None of them touches the stored turns. *)
Definition setup_event (e : Event) : bool :=
  match e with
  | EvConnect _ | EvRelease | EvInsertSession _ _ | EvLog _ _
  | EvSearch _ _ | EvModelInvoke (OverflowSummaryPrompt _) => true
  | _ => false
  end.

Definition is_ai_insert (e : Event) : bool :=
  match e with
  | EvInsertMessage _ AI _ => true
  | _ => false
  end.

Definition is_error (e : Event) : bool :=
  match e with
  | EvError _ => true
  | _ => false
  end.

(** [opened w t stream]: the trace [t] records the call that opened the
    answer stream, and the world resolved that call to [stream]. *)
Definition opened (w : World) (t : list Event) (stream_failure : option Error)
  : Prop :=
  (exists p s, In (EvModelStream p) t /\ chain_stream w p = Resolved s /\
               failure s = stream_failure)
  \/ (exists ms s, In (EvAgentStream ms) t /\ streamEvents w ms = Resolved s /\
                   failure s = stream_failure).

(** The row written for a turn. *)
Definition row_of (w : World) (st : Store) (sid : text) (k : MsgKind)
    (c : text) : MessageRow :=
  {| session_id := sid; message := to_stored k c; created_at := now w st |}.

Definition add_row (st : Store) (r : MessageRow) : Store :=
  {| chat_sessions := chat_sessions st;
     chat_messages := chat_messages st ++ [r] |}.

Definition with_session (w : World) (st : Store) (new_title user : text)
  : Store :=
  {| chat_sessions :=
       chat_sessions st ++
       [{| id := returning_id w st; title := new_title; user_id := user;
           summary := None |}];
     chat_messages := chat_messages st |}.

Definition with_summary (st : Store) (s sid : text) : Store :=
  {| chat_sessions := map (Db.set_summary s sid) (chat_sessions st);
     chat_messages := chat_messages st |}.

(** How the Gemini route ends a stream: the store it leaves and the events
    that follow the enqueued chunks. *)
Inductive GeminiEnd (w : World) (sid input answer : text) (prompt : Prompt)
    (fl : option Error) (st : Store) : Store -> list Event -> Prop :=
| gemini_failed e label :
    fl = Some e ->
    GeminiEnd w sid input answer prompt fl st
      st [EvLog label (error_message e); EvError e]
| gemini_empty :
    fl = None -> answer = [] ->
    GeminiEnd w sid input answer prompt fl st st [EvClose]
| gemini_user_write_failed e label :
    fl = None -> answer <> [] -> db_fault w AtAddUser = Some e ->
    GeminiEnd w sid input answer prompt fl st
      st [EvLog label (error_message e); EvClose]
| gemini_ai_write_failed e label :
    fl = None -> answer <> [] ->
    db_fault w AtAddUser = None -> db_fault w AtAddAI = Some e ->
    GeminiEnd w sid input answer prompt fl st
      (add_row st (row_of w st sid Human input))
      [EvInsertMessage sid Human input; EvLog label (error_message e); EvClose]
| gemini_summary_failed e label :
    fl = None -> answer <> [] ->
    db_fault w AtAddUser = None -> db_fault w AtAddAI = None ->
    (chain_invoke w prompt = Rejected e \/
     exists s, chain_invoke w prompt = Resolved s /\
               db_fault w AtUpdateSummary = Some e) ->
    let u := row_of w st sid Human input in
    let a := row_of w (add_row st u) sid AI answer in
    GeminiEnd w sid input answer prompt fl st
      (add_row (add_row st u) a)
      [EvInsertMessage sid Human input; EvInsertMessage sid AI answer;
       EvModelInvoke prompt; EvLog label (error_message e); EvClose]
| gemini_saved s :
    fl = None -> answer <> [] ->
    db_fault w AtAddUser = None -> db_fault w AtAddAI = None ->
    chain_invoke w prompt = Resolved s ->
    db_fault w AtUpdateSummary = None ->
    let u := row_of w st sid Human input in
    let a := row_of w (add_row st u) sid AI answer in
    GeminiEnd w sid input answer prompt fl st
      (with_summary (add_row (add_row st u) a) s sid)
      [EvInsertMessage sid Human input; EvInsertMessage sid AI answer;
       EvModelInvoke prompt; EvUpdateSummary sid s; EvClose].

Definition gemini_summary_prompt (db : list BaseMessage) (input answer : text)
  : Prompt :=
  SessionSummaryPrompt
    (JS.join nl (map Gemini.formatMessageForSummary db ++
                 [#"ผู้ใช้: " ++ input; #"ผู้ช่วย: " ++ answer])).

Definition GeminiTitle (ms : list UIMessage) (T : text) : Prop :=
  T = #"New Chat" \/
  exists m p0 rest txt,
    find is_user ms = Some m /\ ui_parts m = Some (p0 :: rest) /\
    is_text_part p0 = true /\ part_text p0 = Some txt /\
    T = JS.slice0 50 txt.

(** What resolving the session leaves of the store: nothing new, or one
    new session row, for a request without a session id. *)
Inductive Prepared (w : World) (req : Request) (title_ok : text -> Prop)
    (st : Store) : Store -> Prop :=
| prepared_existing : Prepared w req title_ok st st
| prepared_new T user :
    JS.truthy_opt (sessionId req) = false ->
    userId req = Some user -> JS.truthy user = true ->
    title_ok T ->
    Prepared w req title_ok st (with_session w st T user).

Definition not_streamed (r : Response) : Prop :=
  match r with
  | StreamResponse _ => False
  | _ => True
  end.

(** An event that neither delivers nor saves an answer and, if it opens
    the answer stream, is a call the world rejected. *)
Definition rejected_open (w : World) (e : Event) : Prop :=
  prefix_event e = true /\
  (forall p, e = EvModelStream p -> exists err, chain_stream w p = Rejected err)
  /\ (forall ms, e = EvAgentStream ms -> False).

(** The RAG loop as a function: the final loop variables and the texts
    handed to the controller. *)
Fixpoint rag_loop (cs : list text) (vars : text * bool)
  : (text * bool) * list text :=
  match cs with
  | [] => (vars, [])
  | chunk :: rest =>
    let assistantText := fst vars ++ chunk in
    if JS.includes chunk Rag.SEARCH_ERROR_MARK
       || JS.includes assistantText Rag.SEARCH_ERROR_MARK
    then
      let r := rag_loop rest (Rag.friendlyMessage, true) in
      (fst r, Rag.friendlyMessage :: snd r)
    else
      let r := rag_loop rest (assistantText, snd vars) in
      (fst r, chunk :: snd r)
  end.

(** The text that ends up in the context slot of the prompt. *)
Definition rag_context (w : World) (input : text) : text :=
  match similaritySearchWithScore w input 3 with
  | Resolved [] =>
    #"ไม่พบเอกสารที่เกี่ยวข้องกับ " ++ dquote ++ input ++ dquote ++ #" ในระบบ"
  | Resolved (d :: ds) =>
    JS.join (nl ++ nl ++ #"---" ++ nl ++ nl)
            (map (Rag.format_document w) (d :: ds))
  | Rejected _ => Rag.SEARCH_UNAVAILABLE
  end.

(** The overflow of the stored history, when the request trims it. *)
Definition rag_overflow (w : World) (req : Request)
    (fullHistory : list BaseMessage) : list BaseMessage :=
  match fullHistory with
  | _ :: _ =>
    if JS.truthy_opt (sessionId req)
    then Rag.overflow_of fullHistory (Rag.trimmed_window w fullHistory)
    else []
  | [] => []
  end.

Definition rag_window (w : World) (req : Request) (input : text)
    (fullHistory : list BaseMessage) : list BaseMessage :=
  match fullHistory with
  | _ :: _ =>
    if JS.truthy_opt (sessionId req)
    then Rag.without_current_input input (Rag.trimmed_window w fullHistory)
    else []
  | [] => []
  end.

Definition rag_overflow_summary (w : World) (overflow : list BaseMessage)
  : text :=
  match overflow with
  | [] => []
  | _ :: _ =>
    match chain_invoke w
            (OverflowSummaryPrompt (JS.join nl (map Rag.format_turn overflow)))
    with
    | Resolved s => s
    | Rejected _ => []
    end
  end.

Definition rag_merge_prompt (persistedSummary overflowSummary input answer
                             : text) : Prompt :=
  MergeSummaryPrompt
    (JS.or_else persistedSummary #"ไม่มีประวัติก่อนหน้า")
    (JS.join nl
       (filter JS.truthy
          [overflowSummary; #"ผู้ใช้: " ++ input; #"ผู้ช่วย: " ++ answer])).

Definition RagTitle (ms : list UIMessage) (T : text) : Prop :=
  T = Rag.title_of ms.

(** Events of the store and of the search: no call to the model. *)
Definition quiet_event (e : Event) : bool :=
  match e with
  | EvConnect _ | EvRelease | EvInsertSession _ _ | EvLog _ _
  | EvSearch _ _ => true
  | _ => false
  end.

(** How the RAG route saves the user turn before it reads the stream. *)
Inductive UserSaved (w : World) (sid input : text) (st : Store)
  : Store -> list Event -> bool -> Prop :=
| user_saved :
    db_fault w AtAddUser = None ->
    UserSaved w sid input st (add_row st (row_of w st sid Human input))
              [EvInsertMessage sid Human input] true
| user_not_saved e label :
    db_fault w AtAddUser = Some e ->
    UserSaved w sid input st st [EvLog label (error_message e)] false.

(** How the RAG route ends a stream. *)
Inductive RagEnd (w : World) (sid input answer : text) (prompt : Prompt)
    (hasSearchError canSave : bool) (fl : option Error) (st : Store)
  : Store -> list Event -> Prop :=
| rag_failed e :
    fl = Some e ->
    RagEnd w sid input answer prompt hasSearchError canSave fl st
      st [EvError e]
| rag_empty label :
    fl = None -> answer = [] ->
    RagEnd w sid input answer prompt hasSearchError canSave fl st
      st [EvLog label []; EvClose]
| rag_not_saved :
    fl = None -> answer <> [] ->
    hasSearchError = true \/ canSave = false ->
    RagEnd w sid input answer prompt hasSearchError canSave fl st
      st [EvClose]
| rag_ai_write_failed e label :
    fl = None -> answer <> [] -> hasSearchError = false -> canSave = true ->
    db_fault w AtAddAI = Some e ->
    RagEnd w sid input answer prompt hasSearchError canSave fl st
      st [EvLog label (error_message e); EvClose]
| rag_summary_failed e label :
    fl = None -> answer <> [] -> hasSearchError = false -> canSave = true ->
    db_fault w AtAddAI = None ->
    (chain_invoke w prompt = Rejected e \/
     exists s, chain_invoke w prompt = Resolved s /\
               db_fault w AtUpdateConnect = Some e) ->
    RagEnd w sid input answer prompt hasSearchError canSave fl st
      (add_row st (row_of w st sid AI answer))
      [EvInsertMessage sid AI answer; EvModelInvoke prompt;
       EvLog label (error_message e); EvClose]
| rag_summary_write_failed e s label :
    fl = None -> answer <> [] -> hasSearchError = false -> canSave = true ->
    db_fault w AtAddAI = None ->
    chain_invoke w prompt = Resolved s ->
    db_fault w AtUpdateConnect = None ->
    db_fault w AtUpdateSummary = Some e ->
    RagEnd w sid input answer prompt hasSearchError canSave fl st
      (add_row st (row_of w st sid AI answer))
      [EvInsertMessage sid AI answer; EvModelInvoke prompt;
       EvConnect AtUpdateConnect; EvRelease;
       EvLog label (error_message e); EvClose]
| rag_saved s :
    fl = None -> answer <> [] -> hasSearchError = false -> canSave = true ->
    db_fault w AtAddAI = None ->
    chain_invoke w prompt = Resolved s ->
    db_fault w AtUpdateConnect = None ->
    db_fault w AtUpdateSummary = None ->
    RagEnd w sid input answer prompt hasSearchError canSave fl st
      (with_summary (add_row st (row_of w st sid AI answer)) s sid)
      [EvInsertMessage sid AI answer; EvModelInvoke prompt;
       EvConnect AtUpdateConnect; EvUpdateSummary sid s; EvRelease; EvClose].

(** The texts the agent loop hands on: the non-empty string contents of
    the model chunks. *)
Fixpoint agent_chunks (evs : list AgentEvent) : list text :=
  match evs with
  | [] => []
  | OnChatModelStream (Some c) :: rest =>
    if JS.truthy c && (0 <? List.length c)
    then c :: agent_chunks rest
    else agent_chunks rest
  | _ :: rest => agent_chunks rest
  end.

(** The session id the agent route works with. *)
Definition agent_session (w : World) (req : Request) : text :=
  match sessionId req with
  | Some sid => JS.or_else sid (#"session-" ++ date_now w)
  | None => #"session-" ++ date_now w
  end.

(** How the agent route ends: the texts it delivered, the store it leaves
    and the events that follow the delivered texts. *)
Inductive AgentEnd (w : World) (sid : text)
    (call : Result (Stream AgentEvent)) (st : Store)
  : list text -> Store -> list Event -> Prop :=
| agent_open_failed e label :
    call = Rejected e ->
    AgentEnd w sid call st [] st [EvLog label (error_message e); EvError e]
| agent_failed stream e label :
    call = Resolved stream -> failure stream = Some e ->
    AgentEnd w sid call st (agent_chunks (chunks stream)) st
             [EvLog label (error_message e); EvError e]
| agent_empty stream :
    call = Resolved stream -> failure stream = None ->
    List.concat (agent_chunks (chunks stream)) = [] ->
    AgentEnd w sid call st (agent_chunks (chunks stream)) st [EvClose]
| agent_saved stream :
    call = Resolved stream -> failure stream = None ->
    List.concat (agent_chunks (chunks stream)) <> [] ->
    db_fault w AtAddAI = None ->
    let answer := List.concat (agent_chunks (chunks stream)) in
    AgentEnd w sid call st (agent_chunks (chunks stream))
             (add_row st (row_of w st sid AI answer))
             [EvClose; EvInsertMessage sid AI answer]
| agent_save_failed stream e label :
    call = Resolved stream -> failure stream = None ->
    List.concat (agent_chunks (chunks stream)) <> [] ->
    db_fault w AtAddAI = Some e ->
    AgentEnd w sid call st (agent_chunks (chunks stream)) st
             [EvClose; EvLog label (error_message e)].

(** The calls that open an answer stream. *)
Definition is_open_event (e : Event) : bool :=
  match e with
  | EvModelStream _ | EvAgentStream _ => true
  | _ => false
  end.

(** The prompts of the summarizers that run after the stream. *)
Definition is_post_prompt (p : Prompt) : bool :=
  match p with
  | MergeSummaryPrompt _ _ | SessionSummaryPrompt _ => true
  | _ => false
  end.

Definition is_post_invoke (e : Event) : bool :=
  match e with
  | EvModelInvoke p => is_post_prompt p
  | _ => false
  end.

(** An assistant turn is appended only after its stream ran to completion:
    wherever the trace [t] records the appending of an assistant turn, the
    content is not empty, the call that opened the stream comes before it
    and was resolved to a stream that ended without error, no chunk is
    enqueued after it, and the stream is never put in the error state. *)
Definition answer_saved_after_stream (w : World) (t : list Event) : Prop :=
  forall pre sid c post,
    t = pre ++ EvInsertMessage sid AI c :: post ->
    c <> [] /\ opened w pre None /\ enqueues post = [] /\
    (forall e, ~ In (EvError e) t).

(** Every row of the store after a run was there before or was written by
    an insert that the trace records. *)
Definition rows_are_recorded (st : Store) (s' : State) : Prop :=
  forall row,
    In row (chat_messages (store s')) ->
    In row (chat_messages st) \/
    exists k c, In (EvInsertMessage (session_id row) k c) (trace s') /\
                message row = to_stored k c.

(** The model call of a turn failed: the stream was put in the error
    state, or the call that opens the stream was rejected. *)
Definition turn_failed (w : World) (t : list Event) : Prop :=
  (exists e, In (EvError e) t) \/
  (exists p e, In (EvModelStream p) t /\ chain_stream w p = Rejected e).

(** The routes that keep a running summary of the session. *)
Definition summarizing (r : Route) : bool :=
  match r with
  | GeminiRoute | RagRoute => true
  | AgentRoute => false
  end.

Definition is_summary_update (e : Event) : bool :=
  match e with
  | EvUpdateSummary _ _ => true
  | _ => false
  end.

(** The events of the summarizer that runs after the stream: its call to
    the model and its write of the summary. *)
Definition is_summary_event (e : Event) : bool :=
  is_post_invoke e || is_summary_update e.

(** What the end of a stream shows of the summarizer, for a tail given
    event by event. *)
Definition summarizer_facts (w : World) (st st' : Store)
    (tail : list Event) : Prop :=
  (forall p e,
      In (EvModelInvoke p) tail -> chain_invoke w p = Rejected e ->
      (exists label, In (EvLog label (error_message e)) tail) /\
      chat_sessions st' = chat_sessions st) /\
  (forall mid sid c post,
      tail = mid ++ EvInsertMessage sid AI c :: post ->
      (exists s, In (EvUpdateSummary sid s) post) \/
      (exists label e, In (EvLog label (error_message e)) post)) /\
  ((forall sid s, ~ In (EvUpdateSummary sid s) tail) ->
   chat_sessions st' = chat_sessions st).

(** How many pooled clients a trace takes and how many it gives back. *)
Definition connects (t : list Event) : nat :=
  List.length (filter (fun e => match e with EvConnect _ => true | _ => false end) t).

Definition releases (t : list Event) : nat :=
  List.length (filter (fun e => match e with EvRelease => true | _ => false end) t).

(** The [details] field of the 500 response of a history route: the Gemini
    route leaves it out, the other two carry the message of the error. *)
Definition history_error_details (r : Route) (e : Error) : option text :=
  match r with
  | GeminiRoute => None
  | RagRoute | AgentRoute => Some (error_message e)
  end.

(** The request messages that the Gemini route maps to human messages:
    those of any role but "assistant". *)
Definition is_not_assistant (u : UIMessage) : bool :=
  negb (JS.eqb (ui_role u) #"assistant").

(** The history slot of a prompt of the answer chains. *)
Definition prompt_history (p : Prompt) : list BaseMessage :=
  match p with
  | ChatPrompt _ recent_window _ => recent_window
  | RagPrompt _ _ chat_history _ => chat_history
  | _ => []
  end.

(** The input slot of a prompt of the answer chains. *)
Definition prompt_input (p : Prompt) : text :=
  match p with
  | ChatPrompt _ _ input => input
  | RagPrompt _ _ _ input => input
  | _ => []
  end.

(** A turn, as far as the model and the token counter can tell: the class
    of the message and its text, not the identity of the object. *)
Definition turn (m : BaseMessage) : MsgKind * text := (kind m, content m).

Definition turns (ms : list BaseMessage) : list (MsgKind * text) :=
  map turn ms.

(** The call of the overflow summarizer of the RAG route. *)
Definition is_overflow_invoke (e : Event) : bool :=
  match e with
  | EvModelInvoke (OverflowSummaryPrompt _) => true
  | _ => false
  end.

(** The session of a turn and the store once it is resolved: the session
    the request names, or the one inserted for it. *)
Inductive SessionOf (w : World) (req : Request) (st : Store)
  : text -> Store -> Prop :=
| session_given sid :
    sessionId req = Some sid -> JS.truthy sid = true ->
    SessionOf w req st sid st
| session_created T user :
    JS.truthy_opt (sessionId req) = false ->
    userId req = Some user -> JS.truthy user = true ->
    SessionOf w req st (returning_id w st) (with_session w st T user).

(** The prompt of the answer chain of the RAG route, for the session
    [sid], the store [st1] it is read from and the input of the turn. *)
Definition rag_prompt (w : World) (req : Request) (st1 : Store)
    (sid input : text) : Prompt :=
  RagPrompt
    (JS.join nl
       (filter JS.truthy
          [Db.summary_of st1 sid;
           rag_overflow_summary w
             (rag_overflow w req (Db.loadAll st1 sid))]))
    (rag_context w input)
    (rag_window w req input (Db.loadAll st1 sid))
    input.

(** The summary and context slots of a prompt of the RAG answer chain. *)
Definition prompt_summary (p : Prompt) : text :=
  match p with
  | RagPrompt summary _ _ _ => summary
  | _ => []
  end.


(** The request names a session that has stored turns. *)
Definition has_stored_turns (req : Request) (st : Store) : Prop :=
  exists sid r,
    sessionId req = Some sid /\ JS.truthy sid = true /\
    In r (chat_messages st) /\ session_id r = sid.

(** Why the RAG route answers without a stream. *)
Inductive RagRefusal (w : World) (req : Request) (st : Store)
    (t : list Event) : Prop :=
| refusal_store site e :
    db_fault w site = Some e -> RagRefusal w req st t
| refusal_owner :
    JS.truthy_opt (sessionId req) = false ->
    JS.truthy_opt (userId req) = false -> RagRefusal w req st t
| refusal_unreadable r e :
    In r (chat_messages st) -> Db.unreadable (message r) = Some e ->
    RagRefusal w req st t
| refusal_input :
    JS.truthy_opt (Rag.last_input (messages req)) = false ->
    RagRefusal w req st t
| refusal_model p e :
    In (EvModelStream p) t -> chain_stream w p = Rejected e ->
    RagRefusal w req st t.

(** What holds of every event of the RAG route before the stream is read:
    the overflow summarizer is called only for a session with stored
    turns, and the answer chain is called with the prompt of the turn. *)
Definition rag_setup_ok (w : World) (req : Request) (st st1 : Store)
    (e : Event) : Prop :=
  (is_overflow_invoke e = true -> has_stored_turns req st) /\
  (forall p, e = EvModelStream p ->
     exists sid input,
       SessionOf w req st sid st1 /\
       Rag.last_input (messages req) = Some input /\
       p = rag_prompt w req st1 sid input).

(** What the end of a stream shows of the two writes that follow it, for
    a tail given event by event.  [tried] says that the write of the
    assistant turn was attempted.  A failure of that write is logged and
    nothing of the turn's answer is stored; and once the assistant turn is
    appended, either the summarizer answered and its answer is written as
    the summary of the session, or the log has the error of the step that
    failed (the call of the summarizer, the checkout of a client, or the
    write of the summary) and no summary was changed. *)
Definition write_facts (w : World) (tried : Prop) (st st' : Store)
    (tail : list Event) : Prop :=
  (forall e,
      db_fault w AtAddAI = Some e -> tried ->
      (exists label, In (EvLog label (error_message e)) tail) /\
      (forall sid c, ~ In (EvInsertMessage sid AI c) tail) /\
      chat_sessions st' = chat_sessions st) /\
  (forall mid sid c post,
      tail = mid ++ EvInsertMessage sid AI c :: post ->
      (exists p s,
          In (EvModelInvoke p) post /\ chain_invoke w p = Resolved s /\
          In (EvUpdateSummary sid s) post) \/
      (exists label e,
          In (EvLog label (error_message e)) post /\
          chat_sessions st' = chat_sessions st /\
          ((exists p, In (EvModelInvoke p) post /\
                      chain_invoke w p = Rejected e) \/
           db_fault w AtUpdateConnect = Some e \/
           db_fault w AtUpdateSummary = Some e))).

(** The sum of the per-message costs of a sequence of messages. *)
Definition total_cost (w : World) (ms : list BaseMessage) : N :=
  fold_right (fun m acc => (Tokens.cost w m + acc)%N) 0%N ms.

(* ================================================================== *)
(** * Facts about strings and lists *)
(* ================================================================== *)

(** Literals are kept folded in the proofs below. *)
Opaque JS.lit.

Lemma eqb_eq (a b : text) : JS.eqb a b = true <-> a = b.
Proof.
  revert b; induction a as [|x a IH]; intros [|y b]; simpl; split;
    try discriminate; try reflexivity.
  - intros H. apply andb_true_iff in H as [Hx Hab].
    apply N.eqb_eq in Hx. apply IH in Hab. now subst.
  - intros H. injection H as -> ->.
    apply andb_true_iff; split; [apply N.eqb_refl | now apply IH].
Qed.

Lemma eqb_refl (a : text) : JS.eqb a a = true.
Proof. now apply eqb_eq. Qed.

Lemma eqb_neq (a b : text) : JS.eqb a b = false <-> a <> b.
Proof.
  split.
  - intros H E. apply eqb_eq in E. congruence.
  - intros H. destruct (JS.eqb a b) eqn:E; [|reflexivity].
    apply eqb_eq in E. contradiction.
Qed.

Lemma truthy_nonempty (s : text) : JS.truthy s = true <-> s <> [].
Proof. destruct s; simpl; split; congruence. Qed.

Lemma slice0_length (n : nat) (s : text) : List.length (JS.slice0 n s) <= n.
Proof. unfold JS.slice0. rewrite length_firstn. lia. Qed.

(* ================================================================== *)
(** * The history read route: ordering and roles *)
(* ================================================================== *)

Section HistoryFacts.
Import History.

Lemma insert_perm (r : MessageRow) (l : list MessageRow) :
  Permutation (r :: l) (insert_by_created_at r l).
Proof.
  induction l as [|x l IH]; simpl; [reflexivity|].
  destruct (created_at r <=? created_at x)%Z; [reflexivity|].
  rewrite perm_swap. now apply perm_skip.
Qed.

Lemma order_perm (l : list MessageRow) :
  Permutation l (order_by_created_at l).
Proof.
  induction l as [|x l IH]; simpl; [reflexivity|].
  rewrite <- insert_perm. now apply perm_skip.
Qed.

Lemma insert_ascending (r : MessageRow) (l : list MessageRow) :
  ascending l -> ascending (insert_by_created_at r l).
Proof.
  unfold ascending. induction l as [|x l IH]; simpl; intros Hs.
  - repeat constructor.
  - destruct (created_at r <=? created_at x)%Z eqn:E.
    + apply Z.leb_le in E. simpl. constructor; [exact Hs|].
      inversion Hs as [|? ? _ Hall]; subst.
      constructor; [lia|].
      eapply Forall_impl; [|exact Hall]. simpl. intros; lia.
    + apply Z.leb_gt in E. inversion Hs as [|? ? Hs' Hall]; subst.
      simpl. constructor; [now apply IH|].
      apply Forall_forall. intros t Ht.
      apply in_map_iff in Ht as [y [<- Hy]].
      eapply Permutation_in in Hy; [|symmetry; apply insert_perm].
      destruct Hy as [<-|Hy]; [lia|].
      rewrite Forall_forall in Hall. apply Hall. now apply in_map.
Qed.

Lemma order_ascending (l : list MessageRow) :
  ascending (order_by_created_at l).
Proof.
  induction l as [|x l IH]; simpl; [constructor|].
  now apply insert_ascending.
Qed.

Lemma map_rows_createdAt (rows : list MessageRow) (i : nat) :
  map h_createdAt (map_rows i rows) = map created_at rows.
Proof.
  revert i; induction rows as [|r rows IH]; intros i; simpl;
    [reflexivity|]. now rewrite IH.
Qed.

Lemma map_rows_role (rows : list MessageRow) (i : nat) (m : HistoryMessage) :
  In m (map_rows i rows) ->
  exists row, In row rows /\ h_role m = role_of (m_type (message row)).
Proof.
  revert i; induction rows as [|r rows IH]; intros i; simpl; [tauto|].
  intros [<-|H].
  - exists r. split; [now left | reflexivity].
  - destruct (IH _ H) as [row [Hin Hr]]. exists row. split; [now right|exact Hr].
Qed.

(** What the handler returns: the sorted rows of the session, a 400 for a
    missing session id, or whatever the [catch] block returns. *)
Lemma GET_with_cases (w : World) (on_error : Error -> M Response)
    (sid : option text) (s : State) :
  (exists id0, sid = Some id0 /\ JS.truthy id0 = true /\
     db_fault w AtHistoryConnect = None /\ db_fault w AtHistorySelect = None /\
     GET_with w on_error sid s =
       (Return (HistoryResponse 200
                  (map_rows 0 (order_by_created_at (Db.rows_of (store s) id0)))),
        {| store := store s;
           trace := (trace s ++ [EvConnect AtHistoryConnect]) ++ [EvRelease] |}))
  \/ (JS.truthy_opt sid = false /\
      GET_with w on_error sid s =
        (Return (ErrorResponse 400 #"Session ID is required" None), s))
  \/ (exists e s', store s' = store s /\
        (db_fault w AtHistoryConnect = Some e \/
         db_fault w AtHistorySelect = Some e) /\
        GET_with w on_error sid s = on_error e s').
Proof.
  unfold GET_with, try_catch.
  destruct sid as [id0|]; [|right; left; split; reflexivity].
  destruct (JS.truthy id0) eqn:Ht; [|right; left; split; [exact Ht|reflexivity]].
  unfold Db.pool_connect, Db.db_call, select_history, Db.db_call, bind,
    try_finally, Db.client_release, emit, get_store, ret, throw.
  destruct (db_fault w AtHistoryConnect) as [e|] eqn:Hc.
  - right; right. exists e, s. simpl. auto.
  - simpl. destruct (db_fault w AtHistorySelect) as [e|] eqn:Hq.
    + right; right. simpl. eexists e, _. split; [|split; [now right|reflexivity]].
      reflexivity.
    + left. exists id0. simpl. auto.
Qed.

End HistoryFacts.

Lemma role_of_ai (t : option text) :
  t = Some #"ai" -> History.role_of t = #"assistant".
Proof.
  intros ->. unfold History.role_of, History.type_is.
  now rewrite eqb_refl.
Qed.

Lemma role_of_other (t : option text) :
  t <> Some #"ai" -> History.role_of t = #"user".
Proof.
  intros H. unfold History.role_of, History.type_is.
  destruct t as [x|].
  - destruct (JS.eqb x #"ai") eqn:E.
    + apply eqb_eq in E. subst. contradiction.
    + now destruct (JS.eqb x #"human").
  - reflexivity.
Qed.

Lemma role_of_two_values (t : option text) :
  History.role_of t = #"user" \/ History.role_of t = #"assistant".
Proof.
  unfold History.role_of.
  destruct (History.type_is t #"ai"); [now right|].
  destruct (History.type_is t #"human"); now left.
Qed.

Lemma rows_of_In (st : Store) (sid : text) (r : MessageRow) :
  In r (Db.rows_of st sid) -> In r (chat_messages st) /\ session_id r = sid.
Proof.
  unfold Db.rows_of. intros H. apply filter_In in H as [H1 H2].
  apply eqb_eq in H2. auto.
Qed.

Lemma rows_of_unknown (st : Store) (sid : text) :
  (forall r, In r (chat_messages st) -> session_id r <> sid) ->
  Db.rows_of st sid = [].
Proof.
  unfold Db.rows_of. induction (chat_messages st) as [|r l IH]; simpl;
    intros H; [reflexivity|].
  destruct (JS.eqb (session_id r) sid) eqn:E.
  - apply eqb_eq in E. exfalso. apply (H r); auto.
  - apply IH. intros r' Hr'. apply H. now right.
Qed.

(** The three route files answer a failed history read with a 500. *)
Lemma GET_of_cases (route : Route) (w : World) (sid : option text) (s : State) :
  (exists id0, sid = Some id0 /\ JS.truthy id0 = true /\
     db_fault w AtHistoryConnect = None /\ db_fault w AtHistorySelect = None /\
     GET_of route w sid s =
       (Return (HistoryResponse 200
                  (History.map_rows 0
                     (History.order_by_created_at (Db.rows_of (store s) id0)))),
        {| store := store s;
           trace := (trace s ++ [EvConnect AtHistoryConnect]) ++ [EvRelease] |}))
  \/ (exists status err details s',
        (status = 400 \/ status = 500) /\ store s' = store s /\
        GET_of route w sid s =
          (Return (ErrorResponse status err details), s')).
Proof.
  destruct route; unfold GET_of, Gemini.GET, Rag.GET, Agent.GET;
    match goal with
    | |- context [History.GET_with w ?h sid s] =>
      destruct (GET_with_cases w h sid s)
        as [Hok | [[_ H400] | [e [s' [Hst [_ H500]]]]]]
    end;
    try (left; exact Hok);
    right.
  all: try (do 3 eexists; exists s; split; [left; reflexivity|];
            split; [reflexivity | exact H400]).
  all: rewrite H500; unfold bind, emit, ret; simpl;
    do 4 eexists; (split; [right; reflexivity|]);
    (split; [|reflexivity]); exact Hst.
Qed.

Lemma insert_ties (t : Z) (r : MessageRow) (l : list MessageRow) :
  filter (fun x => (created_at x =? t)%Z) (History.insert_by_created_at r l)
  = filter (fun x => (created_at x =? t)%Z) (r :: l).
Proof.
  induction l as [|x l IH]; [reflexivity|].
  cbn [History.insert_by_created_at].
  destruct (created_at r <=? created_at x)%Z eqn:E; [reflexivity|].
  apply Z.leb_gt in E.
  cbn [filter] in *. rewrite IH.
  destruct (created_at r =? t)%Z eqn:Er;
    destruct (created_at x =? t)%Z eqn:Ex; try reflexivity.
  apply Z.eqb_eq in Er, Ex. lia.
Qed.

(** The order is stable: the rows of one time stamp come back in the order
    in which they are stored. *)
Lemma order_ties (t : Z) (l : list MessageRow) :
  filter (fun x => (created_at x =? t)%Z) (History.order_by_created_at l)
  = filter (fun x => (created_at x =? t)%Z) l.
Proof.
  induction l as [|x l IH]; [reflexivity|].
  cbn [History.order_by_created_at fold_right].
  fold (History.order_by_created_at l).
  rewrite insert_ties. cbn [filter]. now rewrite IH.
Qed.

Lemma map_rows_contents (rows : list MessageRow) (i : nat) :
  map h_content (History.map_rows i rows)
  = map (fun r => History.content_of (message r)) rows.
Proof.
  revert i; induction rows as [|r rows IH]; intros i; simpl;
    [reflexivity|]. now rewrite IH.
Qed.

Lemma map_rows_each (rows : list MessageRow) (i : nat) :
  Forall2 (fun m row =>
             h_role m = History.role_of (m_type (message row)) /\
             h_content m = History.content_of (message row) /\
             h_createdAt m = created_at row)
          (History.map_rows i rows) rows.
Proof.
  revert i; induction rows as [|r rows IH]; intros i; simpl; constructor;
    auto.
Qed.

Lemma human_is_not_ai : Some #"human" <> Some #"ai".
Proof.
  intros E.
  apply (f_equal (fun o => match o with
                            | Some l => List.length l
                            | None => 0
                            end)) in E.
  vm_compute in E. discriminate.
Qed.

Lemma GET_of_ok (route : Route) (w : World) (sid : text) (st : Store) :
  JS.truthy sid = true ->
  db_fault w AtHistoryConnect = None ->
  db_fault w AtHistorySelect = None ->
  run (GET_of route w (Some sid)) st
  = (Return (HistoryResponse 200
               (History.map_rows 0
                  (History.order_by_created_at (Db.rows_of st sid)))),
     {| store := st; trace := [EvConnect AtHistoryConnect; EvRelease] |}).
Proof.
  intros Hsid Hc Hq. unfold run.
  destruct (GET_of_cases route w (Some sid) {| store := st; trace := [] |})
    as [[id0 [E [_ [_ [_ H]]]]] | [status [err [details [s' [Hs [_ H]]]]]]].
  - injection E as <-. exact H.
  - exfalso. revert H.
    destruct route; unfold GET_of, Gemini.GET, Rag.GET, Agent.GET;
      match goal with
      | |- context [History.GET_with w ?h _ ?s0] =>
        destruct (GET_with_cases w h (Some sid) s0)
          as [[id1 [_ [_ [_ [_ H1]]]]]
             | [[H1 _] | [e [s1 [_ [[H1|H1] _]]]]]]
      end;
      try congruence;
      try (simpl in H1; congruence);
      rewrite H1; discriminate.
Qed.

(** C8. For every (non-empty) session id, when the store answers, the
    history read of each route returns with status 200 one message for
    each stored row that carries that session id, and for no other row:
    the rows returned are exactly the rows of the message table with that
    session id, each exactly once, the messages carry their contents and
    time stamps position by position, and they come in non-decreasing
    order of [createdAt]; rows of equal time stamp keep the order in which
    they are stored.  The store is left as it was, and for a session id
    that no stored row carries the returned sequence is empty, still with
    status 200. *)
Theorem history_read_is_ordered (route : Route) (w : World) (sid : text)
    (st : Store) :
  JS.truthy sid = true ->
  db_fault w AtHistoryConnect = None ->
  db_fault w AtHistorySelect = None ->
  exists rows msgs,
    fst (run (GET_of route w (Some sid)) st)
      = Return (HistoryResponse 200 msgs) /\
    store (snd (run (GET_of route w (Some sid)) st)) = st /\
    map h_createdAt msgs = map created_at rows /\
    map h_content msgs
    = map (fun r => History.content_of (message r)) rows /\
    (forall r, In r rows <-> In r (chat_messages st) /\ session_id r = sid) /\
    Permutation
      (filter (fun r => JS.eqb (session_id r) sid) (chat_messages st)) rows /\
    StronglySorted Z.le (map h_createdAt msgs) /\
    (forall t,
        filter (fun r => (created_at r =? t)%Z) rows
        = filter (fun r => (created_at r =? t)%Z)
                 (filter (fun r => JS.eqb (session_id r) sid)
                         (chat_messages st))) /\
    ((forall r, In r (chat_messages st) -> session_id r <> sid) ->
     msgs = []).
Proof.
  intros Hsid Hc Hq. rewrite (@GET_of_ok route w sid st Hsid Hc Hq).
  cbn [fst snd store].
  exists (History.order_by_created_at (Db.rows_of st sid)),
         (History.map_rows 0
            (History.order_by_created_at (Db.rows_of st sid))).
  split; [reflexivity|]. split; [reflexivity|].
  split; [apply map_rows_createdAt|].
  split; [apply map_rows_contents|].
  split.
  { intros r. split.
    - intros Hr. eapply Permutation_in in Hr; [|symmetry; apply order_perm].
      now apply rows_of_In.
    - intros [Hr Hs]. eapply Permutation_in; [apply order_perm|].
      unfold Db.rows_of. apply filter_In. split; [exact Hr|].
      subst sid. apply eqb_refl. }
  split; [apply order_perm|].
  split; [rewrite map_rows_createdAt; apply order_ascending|].
  split; [intros t; apply order_ties|].
  intros Hu. now rewrite (rows_of_unknown _ Hu).
Qed.

Lemma history_read_is_ordered_witness :
  exists rows msgs,
    fst (run (GET_of RagRoute Sample.calm (Some #"s0")) Sample.one_session)
      = Return (HistoryResponse 200 msgs) /\
    store (snd (run (GET_of RagRoute Sample.calm (Some #"s0"))
                    Sample.one_session)) = Sample.one_session /\
    map h_createdAt msgs = map created_at rows /\
    map h_content msgs
    = map (fun r => History.content_of (message r)) rows /\
    (forall r, In r rows <->
               In r (chat_messages Sample.one_session) /\
               session_id r = #"s0") /\
    Permutation
      (filter (fun r => JS.eqb (session_id r) #"s0")
              (chat_messages Sample.one_session)) rows /\
    StronglySorted Z.le (map h_createdAt msgs) /\
    (forall t,
        filter (fun r => (created_at r =? t)%Z) rows
        = filter (fun r => (created_at r =? t)%Z)
                 (filter (fun r => JS.eqb (session_id r) #"s0")
                         (chat_messages Sample.one_session))) /\
    ((forall r, In r (chat_messages Sample.one_session) ->
                session_id r <> #"s0") -> msgs = []).
Proof.
  apply (history_read_is_ordered RagRoute Sample.calm #"s0" Sample.one_session);
    vm_compute; reflexivity.
Defined.

(** C10. Every message returned by the history read of each route is
    mapped from one stored row of the requested session, position by
    position: the rows behind the returned messages are the stored rows
    that carry the session id of the request, each once; each message has
    the content and the time stamp of its own row, and its role is
    "assistant" when the stored type of that row is 'ai' and "user"
    otherwise, be the stored type 'human' or anything else (tool, system,
    none).  No other role is returned. *)
Theorem history_roles (route : Route) (w : World) (sid : option text)
    (st : Store) :
  let msgs := history_messages (fst (run (GET_of route w sid) st)) in
  exists rows,
    Forall2
      (fun m row =>
         h_content m = History.content_of (message row) /\
         h_createdAt m = created_at row /\
         (h_role m = #"user" \/ h_role m = #"assistant") /\
         (m_type (message row) = Some #"ai" -> h_role m = #"assistant") /\
         (m_type (message row) = Some #"human" -> h_role m = #"user") /\
         (m_type (message row) <> Some #"ai" -> h_role m = #"user"))
      msgs rows /\
    (forall row, In row rows ->
                 In row (chat_messages st) /\ Some (session_id row) = sid) /\
    (msgs <> [] ->
     exists id0,
       sid = Some id0 /\
       Permutation
         (filter (fun r => JS.eqb (session_id r) id0) (chat_messages st))
         rows).
Proof.
  intros msgs. subst msgs. unfold run.
  destruct (GET_of_cases route w sid {| store := st; trace := [] |})
    as [[id0 [-> [_ [_ [_ H]]]]] | [status [err [details [s' [_ [_ H]]]]]]];
    rewrite H; cbn [fst history_messages store].
  - exists (History.order_by_created_at (Db.rows_of st id0)).
    split; [|split].
    + eapply Forall2_impl; [|apply map_rows_each].
      intros m row (Hr & Hcn & Hat). rewrite Hr.
      split; [exact Hcn|]. split; [exact Hat|].
      split; [apply role_of_two_values|].
      split; [apply role_of_ai|].
      split; [|apply role_of_other].
      intros Hh. apply role_of_other. rewrite Hh. apply human_is_not_ai.
    + intros row Hrow.
      eapply Permutation_in in Hrow; [|symmetry; apply order_perm].
      apply rows_of_In in Hrow as [Hrow <-]. auto.
    + intros _. exists id0. split; [reflexivity | apply order_perm].
  - exists []. split; [constructor|]. split; [intros row []|].
    intros Hne. now contradiction Hne.
Qed.

(* ================================================================== *)
(** * The context window trimmer *)
(* ================================================================== *)

Section TrimFacts.
Variable w : World.

Lemma tiktokenCounter_fold (ms : list BaseMessage) (acc : N) :
  fold_left
    (fun total m =>
       (total + Tokens.strTokenCounter w (Tokens.role_label (kind m))
              + Tokens.strTokenCounter w (content m))%N) ms acc
  = (acc + total_cost w ms)%N.
Proof.
  revert acc; induction ms as [|m ms IH]; intros acc; simpl.
  - lia.
  - rewrite IH. unfold Tokens.cost. lia.
Qed.

Lemma tiktokenCounter_total (ms : list BaseMessage) :
  Tokens.tiktokenCounter w ms = total_cost w ms.
Proof. unfold Tokens.tiktokenCounter. now rewrite tiktokenCounter_fold. Qed.

Lemma total_cost_app (a b : list BaseMessage) :
  total_cost w (a ++ b) = (total_cost w a + total_cost w b)%N.
Proof. induction a as [|m a IH]; simpl; [reflexivity|]. rewrite IH. lia. Qed.

Lemma total_cost_rev (ms : list BaseMessage) :
  total_cost w (rev ms) = total_cost w ms.
Proof.
  induction ms as [|m ms IH]; simpl; [reflexivity|].
  rewrite total_cost_app, IH. simpl. lia.
Qed.

(** The backward scan keeps an initial segment of what it is given... *)
Lemma scan_backward_prefix (l : list BaseMessage) (running budget : N) :
  exists older, l = Tokens.scan_backward w l running budget ++ older.
Proof.
  revert running; induction l as [|m l IH]; intros running; simpl.
  - now exists [].
  - destruct (running + Tokens.cost w m <=? budget)%N.
    + destruct (IH (running + Tokens.cost w m)%N) as [older E].
      exists older. simpl. now rewrite <- E.
    + now exists (m :: l).
Qed.

(** ... and what it keeps fits in what is left of the budget. *)
Lemma scan_backward_fits (l : list BaseMessage) (running budget : N) :
  (running <= budget)%N ->
  (running + total_cost w (Tokens.scan_backward w l running budget)
   <= budget)%N.
Proof.
  revert running; induction l as [|m l IH]; intros running Hr; simpl.
  - lia.
  - destruct (running + Tokens.cost w m <=? budget)%N eqn:E.
    + apply N.leb_le in E. specialize (IH _ E). simpl. lia.
    + simpl. lia.
Qed.

(** ... and it stops only at a turn that does not fit. *)
Lemma scan_backward_maximal (l : list BaseMessage) (running budget : N) :
  exists older,
    l = Tokens.scan_backward w l running budget ++ older /\
    (older = [] \/
     exists m older',
       older = m :: older' /\
       (budget
        < running + total_cost w (Tokens.scan_backward w l running budget)
          + Tokens.cost w m)%N).
Proof.
  revert running; induction l as [|m l IH]; intros running; simpl.
  - exists []. auto.
  - destruct (running + Tokens.cost w m <=? budget)%N eqn:E.
    + destruct (IH (running + Tokens.cost w m)%N) as (older & El & Hmax).
      exists older. simpl. split; [now rewrite <- El|].
      destruct Hmax as [->|(x & older' & -> & Hx)]; [now left|right].
      exists x, older'. split; [reflexivity|]. lia.
    + apply N.leb_gt in E. exists (m :: l). split; [reflexivity|].
      right. exists m, l. split; [reflexivity|]. simpl. lia.
Qed.

Lemma copies_from_turns (base : nat) (ms : list BaseMessage) :
  turns (Tokens.copies_from base ms) = turns ms.
Proof.
  revert base; induction ms as [|m ms IH]; intros base; simpl;
    [reflexivity|]. now rewrite IH.
Qed.

Lemma copies_from_refs (base : nat) (ms : list BaseMessage) :
  map ref (Tokens.copies_from base ms) = seq base (List.length ms).
Proof.
  revert base; induction ms as [|m ms IH]; intros base; simpl;
    [reflexivity|]. now rewrite IH.
Qed.

(** The token count of a sequence is decided by its turns. *)
Lemma total_cost_turns (a b : list BaseMessage) :
  turns a = turns b -> total_cost w a = total_cost w b.
Proof.
  revert b; induction a as [|x a IH]; intros [|y b] E; try discriminate;
    [reflexivity|].
  injection E as Ek Ec Et. simpl. unfold Tokens.cost.
  rewrite Ek, Ec, (IH b Et). reflexivity.
Qed.

Lemma fresh_ref_above (ms : list BaseMessage) (m : BaseMessage) :
  In m ms -> ref m < Tokens.fresh_ref ms.
Proof.
  unfold Tokens.fresh_ref. induction ms as [|x ms IH]; [contradiction|].
  intros [->|Hin]; simpl; [lia|]. specialize (IH Hin). lia.
Qed.

(** The window is a copy of the longest suffix of the history that fits
    the budget. *)
Lemma trimMessages_window (history : list BaseMessage) (budget : N) :
  exists older kept,
    history = older ++ kept /\
    turns (Tokens.trimMessages w history budget) = turns kept /\
    (Tokens.tiktokenCounter w (Tokens.trimMessages w history budget)
     <= budget)%N /\
    (older = [] \/
     exists older' m,
       older = older' ++ [m] /\
       (budget
        < Tokens.cost w m
          + Tokens.tiktokenCounter w (Tokens.trimMessages w history budget))%N).
Proof.
  unfold Tokens.trimMessages.
  destruct (scan_backward_maximal (rev history) 0 budget)
    as (older & E & Hmax).
  set (kept := Tokens.scan_backward w (rev history) 0 budget) in *.
  assert (Hc : total_cost w (Tokens.copies_from (Tokens.fresh_ref history)
                                                (rev kept))
               = total_cost w kept).
  { rewrite (total_cost_turns _ (rev kept)) by apply copies_from_turns.
    apply total_cost_rev. }
  exists (rev older), (rev kept). split; [|split; [|split]].
  - rewrite <- rev_app_distr, <- E. now rewrite rev_involutive.
  - apply copies_from_turns.
  - rewrite tiktokenCounter_total, Hc.
    pose proof (@scan_backward_fits (rev history) 0 budget) as H.
    fold kept in H. lia.
  - destruct Hmax as [->|(m & older' & -> & Hm)]; [now left|right].
    exists (rev older'), m. split; [reflexivity|].
    rewrite tiktokenCounter_total, Hc. lia.
Qed.

(** None of the objects of the window is an object of the history. *)
Lemma trimMessages_fresh (history : list BaseMessage) (budget : N)
    (m h : BaseMessage) :
  In m (Tokens.trimMessages w history budget) -> In h history ->
  ref m <> ref h.
Proof.
  unfold Tokens.trimMessages. intros Hm Hh.
  apply (in_map ref) in Hm. rewrite copies_from_refs in Hm.
  apply in_seq in Hm. pose proof (fresh_ref_above _ _ Hh). lia.
Qed.

End TrimFacts.

Lemma set_has_In (window : list BaseMessage) (m : BaseMessage) :
  Rag.set_has window m = true <-> In (ref m) (map ref window).
Proof.
  unfold Rag.set_has. rewrite existsb_exists. split.
  - intros [x [Hx E]]. apply Nat.eqb_eq in E. rewrite <- E. now apply in_map.
  - intros H. apply in_map_iff in H as [x [E Hx]].
    exists x. split; [exact Hx|]. now apply Nat.eqb_eq.
Qed.

(** Against a window of copies, the identity filter of the RAG route keeps
    the whole history. *)
Lemma overflow_of_copies (w : World) (history : list BaseMessage) :
  Rag.overflow_of history (Rag.trimmed_window w history) = history.
Proof.
  unfold Rag.overflow_of, Rag.trimmed_window.
  assert (G : forall l, (forall m, In m l -> In m history) ->
                filter (fun m => negb (Rag.set_has
                                         (Tokens.trimMessages w history 3000) m))
                       l = l).
  { induction l as [|m l IH]; simpl; intros Hl; [reflexivity|].
    destruct (Rag.set_has (Tokens.trimMessages w history 3000) m) eqn:Hm.
    - exfalso. apply set_has_In in Hm.
      apply in_map_iff in Hm as (x & Ex & Hx).
      apply (trimMessages_fresh w history 3000 x m Hx); auto.
    - simpl. f_equal. apply IH. intros m' Hm'. apply Hl. now right. }
  apply G. auto.
Qed.

Lemma rag_overflow_cases (w : World) (req : Request)
    (fullHistory : list BaseMessage) :
  rag_overflow w req fullHistory
  = if JS.truthy_opt (sessionId req) then fullHistory else [].
Proof.
  unfold rag_overflow. destruct fullHistory as [|m rest].
  - now destruct (JS.truthy_opt (sessionId req)).
  - destruct (JS.truthy_opt (sessionId req)); [|reflexivity].
    apply overflow_of_copies.
Qed.

Lemma objects_from_refs (rows : list MessageRow) (base : nat) :
  map ref (Db.objects_from base rows) = seq base (List.length rows).
Proof.
  revert base; induction rows as [|r rows IH]; intros base; simpl;
    [reflexivity|]. now rewrite IH.
Qed.

(** The objects returned by one call of [getMessages] are distinct. *)
Lemma loadAll_distinct (st : Store) (sid : text) :
  NoDup (map ref (Db.loadAll st sid)).
Proof. unfold Db.loadAll. rewrite objects_from_refs. apply seq_NoDup. Qed.

(** C2, as stated, fails in the Gemini route: a history of two turns that
    fits the budget whole, and whose first turn is an assistant turn, gives
    a window of one turn.  The assistant turn is dropped although nothing
    overflows. *)
Lemma window_drops_leading_assistant_turn :
  let history := [{| ref := 0; kind := AI; content := #"Hi" |};
                  {| ref := 1; kind := Human; content := #"Hello" |}] in
  (Tokens.tiktokenCounter Sample.calm history <= 10000)%N /\
  turns history = [(AI, #"Hi"); (Human, #"Hello")] /\
  turns (Gemini.recent_window Sample.calm history) = [(Human, #"Hello")].
Proof. vm_compute. repeat split; discriminate. Qed.

(** C2 (amended). For every history and every token budget, the window
    that the trimmer returns holds, in order, the turns of a suffix of the
    history; its estimate is within the budget (a newest turn that alone
    exceeds the budget gives an empty window); and the suffix is the
    longest that fits: either it is the whole history, or the turn just
    before it would take the estimate over the budget.  The Gemini route
    cuts its window to 10000 tokens in this way and then leaves out its
    first turn when that is an assistant turn. *)
Theorem window_is_longest_fitting_suffix (w : World)
    (history : list BaseMessage) (budget : N) :
  (exists older kept,
      history = older ++ kept /\
      turns (Tokens.trimMessages w history budget) = turns kept /\
      (Tokens.tiktokenCounter w (Tokens.trimMessages w history budget)
       <= budget)%N /\
      (older = [] \/
       exists older' m,
         older = older' ++ [m] /\
         (budget
          < Tokens.cost w m
            + Tokens.tiktokenCounter w
                (Tokens.trimMessages w history budget))%N)) /\
  (exists older kept,
      history = older ++ kept /\
      (Tokens.tiktokenCounter w kept <= 10000)%N /\
      (older = [] \/
       exists older' m,
         older = older' ++ [m] /\
         (10000 < Tokens.cost w m + Tokens.tiktokenCounter w kept)%N) /\
      turns (Gemini.recent_window w history)
      = match kept with
        | m :: rest => if kind_eqb (kind m) AI then turns rest else turns kept
        | [] => []
        end).
Proof.
  split; [apply trimMessages_window|].
  destruct (trimMessages_window w history 10000)
    as (older & kept & E & Ht & Hfit & Hmax).
  assert (Hc : Tokens.tiktokenCounter w (Tokens.trimMessages w history 10000)
               = Tokens.tiktokenCounter w kept).
  { rewrite !tiktokenCounter_total. now apply total_cost_turns. }
  rewrite Hc in Hfit, Hmax.
  exists older, kept. split; [exact E|]. split; [exact Hfit|].
  split; [exact Hmax|].
  unfold Gemini.recent_window.
  destruct history as [|h0 hs].
  - destruct older; [|discriminate]. destruct kept; [|discriminate].
    reflexivity.
  - destruct (Tokens.trimMessages w (h0 :: hs) 10000) as [|x xs];
      destruct kept as [|k ks]; try discriminate; [reflexivity|].
    injection Ht as Ek Ec Ets. rewrite Ek.
    destruct (kind_eqb (kind k) AI); [exact Ets|].
    simpl. unfold turn. now rewrite Ek, Ec, Ets.
Qed.

(** On the sample store a budget of 30 keeps the last turn. *)
Example trim_sample :
  let history := Db.loadAll Sample.one_session #"s0" in
  let windowed := Tokens.trimMessages Sample.calm history 30 in
  turns windowed = [(AI, #"Hi, how can I help?")] /\
  map ref windowed = [2] /\
  map ref (Rag.overflow_of history windowed) = [0; 1].
Proof. vm_compute. repeat split; reflexivity. Qed.

(* ================================================================== *)
(** * Symbolic execution of the handlers *)
(* ================================================================== *)


Ltac exec_red :=
  cbv beta iota zeta delta
    [bind ret throw try_catch try_finally emit get_store put_store await
     for_await run
     Db.db_call Db.addMessage Db.update_summary Db.insert_session
     Db.select_summary Db.getMessages Db.pool_connect Db.client_release];
  cbn [fst snd store trace].

Ltac innermost x :=
  lazymatch x with
  | context [match ?y with _ => _ end] => innermost y
  | _ => x
  end.

Ltac exec_case :=
  lazymatch goal with
  | |- context [match ?x with _ => _ end] =>
    let y := innermost x in
    let T := type of y in
    lazymatch T with
    | (_ * State)%type => fail
    | _ => destruct y eqn:?
    end
  end.

Ltac exec := repeat (first [progress exec_red | exec_case]).

(** Closes [run = (o, {| store := _; trace := t ++ ?evs |})]. *)
Ltac same_run :=
  first [ rewrite <- ?app_assoc; reflexivity
        | do 2 f_equal; symmetry; apply app_nil_r ].

Lemma gemini_loop (cs : list text) (acc : text) (st : Store) (t : list Event) :
  for_each cs Gemini.on_chunk acc {| store := st; trace := t |} =
  (Return (acc ++ List.concat (nonempty_chunks cs)),
   {| store := st; trace := t ++ map EvEnqueue (nonempty_chunks cs) |}).
Proof.
  revert acc t; induction cs as [|c cs IH]; intros acc t; simpl.
  - unfold ret. now rewrite !app_nil_r.
  - unfold bind, Gemini.on_chunk.
    destruct (JS.truthy c && (0 <? List.length c)); simpl.
    + unfold bind, emit, ret. simpl. rewrite IH. simpl.
      rewrite <- !app_assoc. reflexivity.
    + unfold ret. simpl. apply IH.
Qed.

Lemma gemini_loop_nil (cs : list text) (st : Store) (t : list Event) :
  for_each cs Gemini.on_chunk [] {| store := st; trace := t |} =
  (Return (List.concat (nonempty_chunks cs)),
   {| store := st; trace := t ++ map EvEnqueue (nonempty_chunks cs) |}).
Proof. apply gemini_loop. Qed.

Lemma Gemini_start_cases (w : World) (sid ps input : text)
    (db : list BaseMessage) (stream : Stream text) (st : Store)
    (t : list Event) :
  let ds := nonempty_chunks (chunks stream) in
  let answer := List.concat ds in
  exists st' tail,
    Gemini.start w sid ps input db stream {| store := st; trace := t |}
    = (Return tt, {| store := st'; trace := t ++ map EvEnqueue ds ++ tail |})
    /\ GeminiEnd w sid input answer (gemini_summary_prompt db input answer)
                 (failure stream) st st' tail.
Proof.
  intros ds answer.
  unfold Gemini.start, Gemini.updateSessionSummary.
  exec_red. rewrite gemini_loop_nil. fold ds. fold answer.
  fold (gemini_summary_prompt db input answer).
  destruct (failure stream) as [e|] eqn:Hf; exec_red.
  { do 2 eexists. split; [rewrite <- ?app_assoc; reflexivity|].
    now econstructor. }
  destruct (JS.truthy answer) eqn:Ha; exec_red.
  2:{ do 2 eexists. split; [rewrite <- ?app_assoc; reflexivity|].
      apply gemini_empty; auto. now destruct answer. }
  assert (Hne : answer <> []) by (now apply truthy_nonempty).
  exec.
  all: do 2 eexists; (split; [rewrite <- ?app_assoc; reflexivity|]).
  all: simpl app.
  - eapply gemini_user_write_failed; eauto.
  - eapply gemini_ai_write_failed; eauto.
  - eapply gemini_summary_failed; eauto.
  - eapply gemini_saved; eauto.
  - eapply gemini_summary_failed; eauto.
Qed.

Lemma Forall_setup_prefix (t : list Event) :
  Forall (fun e => setup_event e = true) t ->
  Forall (fun e => prefix_event e = true) t.
Proof.
  apply Forall_impl. intros [] H; simpl in *; try reflexivity; discriminate.
Qed.

Lemma createNewSession_cases (w : World) (user : text) (ms : list UIMessage)
    (st : Store) (t : list Event) :
  (exists e evs,
      Gemini.createNewSession w user ms {| store := st; trace := t |}
      = (Throw e, {| store := st; trace := t ++ evs |})
      /\ Forall (fun e => setup_event e = true) evs)
  \/ (exists T evs,
      Gemini.createNewSession w user ms {| store := st; trace := t |}
      = (Return (returning_id w st),
         {| store := with_session w st T user; trace := t ++ evs |})
      /\ Forall (fun e => setup_event e = true) evs
      /\ GeminiTitle ms T).
Proof.
  unfold Gemini.createNewSession, Gemini.first_part_title, GeminiTitle.
  exec.
  all: try (left; do 2 eexists; split; [same_run | repeat constructor]).
  all: right; do 2 eexists; split; [same_run | split; [repeat constructor|]].
  all: try (left; reflexivity).
  right. do 4 eexists. repeat split; eauto.
Qed.

Lemma Gemini_resolve_cases (w : World) (req : Request) (st : Store) :
  (exists e t1,
      Gemini.resolve_session w req {| store := st; trace := [] |}
      = (Throw e, {| store := st; trace := t1 |})
      /\ Forall (fun e => setup_event e = true) t1)
  \/ (exists sid st1 t1,
      Gemini.resolve_session w req {| store := st; trace := [] |}
      = (Return sid, {| store := st1; trace := t1 |})
      /\ Prepared w req (GeminiTitle (messages req)) st st1
      /\ Forall (fun e => setup_event e = true) t1).
Proof.
  unfold Gemini.resolve_session.
  assert (New : forall user,
    userId req = Some user -> JS.truthy user = true ->
    JS.truthy_opt (sessionId req) = false ->
    (exists e t1,
      Gemini.createNewSession w user (messages req)
        {| store := st; trace := [] |}
      = (Throw e, {| store := st; trace := t1 |})
      /\ Forall (fun e => setup_event e = true) t1)
    \/ (exists sid st1 t1,
      Gemini.createNewSession w user (messages req)
        {| store := st; trace := [] |}
      = (Return sid, {| store := st1; trace := t1 |})
      /\ Prepared w req (GeminiTitle (messages req)) st st1
      /\ Forall (fun e => setup_event e = true) t1)).
  { intros user Hu Ht Hs.
    destruct (createNewSession_cases w user (messages req) st [])
      as [(e & evs & E & Hev) | (T & evs & E & Hev & HT)]; rewrite E.
    - left. do 2 eexists. split; [reflexivity|exact Hev].
    - right. do 3 eexists. split; [reflexivity|]. split; [|exact Hev].
      now apply prepared_new. }
  destruct (sessionId req) as [sid|] eqn:Hsid.
  - destruct (JS.truthy sid) eqn:Hs.
    + right. exists sid, st, []. split; [reflexivity|].
      split; constructor.
    + destruct (userId req) as [user|] eqn:Hu.
      * destruct (JS.truthy user) eqn:Hut; [now apply New|].
        left. do 2 eexists. split; [reflexivity|constructor].
      * left. do 2 eexists. split; [reflexivity|constructor].
  - destruct (userId req) as [user|] eqn:Hu.
    + destruct (JS.truthy user) eqn:Hut; [now apply New|].
      left. do 2 eexists. split; [reflexivity|constructor].
    + left. do 2 eexists. split; [reflexivity|constructor].
Qed.

Lemma setup_rejected_open (w : World) (t : list Event) :
  Forall (fun e => setup_event e = true) t -> Forall (rejected_open w) t.
Proof.
  apply Forall_impl. intros e H. unfold rejected_open.
  destruct e; simpl in *; try discriminate; repeat split; intros;
    try discriminate; congruence.
Qed.

Lemma Gemini_POST_cases (w : World) (req : Request) (st : Store) :
  (exists resp st1 t1,
      run (Gemini.POST w req) st =
        (Return resp, {| store := st1; trace := t1 |})
      /\ not_streamed resp
      /\ Prepared w req (GeminiTitle (messages req)) st st1
      /\ Forall (rejected_open w) t1)
  \/ (exists sid input db p stream st1 t1 st' tail,
      let ds := nonempty_chunks (chunks stream) in
      let answer := List.concat ds in
      run (Gemini.POST w req) st =
        (Return (StreamResponse (Some sid)),
         {| store := st';
            trace := (t1 ++ [EvModelStream p]) ++ map EvEnqueue ds ++ tail |})
      /\ Prepared w req (GeminiTitle (messages req)) st st1
      /\ Forall (fun e => setup_event e = true) t1
      /\ chain_stream w p = Resolved stream
      /\ JS.truthy input = true
      /\ GeminiEnd w sid input answer (gemini_summary_prompt db input answer)
                   (failure stream) st1 st' tail).
Proof.
  unfold run, Gemini.POST.
  assert (Conv : forall isNew sid st1 t1,
    Prepared w req (GeminiTitle (messages req)) st st1 ->
    Forall (fun e => setup_event e = true) t1 ->
    (exists resp t2,
        Gemini.converse w isNew sid (messages req)
          {| store := st1; trace := t1 |}
        = (Return resp, {| store := st1; trace := t2 |})
        /\ not_streamed resp /\ Forall (rejected_open w) t2)
    \/ (exists e t2,
        Gemini.converse w isNew sid (messages req)
          {| store := st1; trace := t1 |}
        = (Throw e, {| store := st1; trace := t2 |})
        /\ Forall (rejected_open w) t2)
    \/ (exists input db p stream st' tail,
        let ds := nonempty_chunks (chunks stream) in
        let answer := List.concat ds in
        Gemini.converse w isNew sid (messages req)
          {| store := st1; trace := t1 |}
        = (Return (StreamResponse (Some sid)),
           {| store := st';
              trace := (t1 ++ [EvModelStream p]) ++ map EvEnqueue ds ++ tail |})
        /\ chain_stream w p = Resolved stream
        /\ JS.truthy input = true
        /\ GeminiEnd w sid input answer (gemini_summary_prompt db input answer)
                     (failure stream) st1 st' tail)).
  { intros isNew sid st1 t1 Hp Ht. unfold Gemini.converse.
    pose proof (setup_rejected_open w Ht) as Ht'.
    exec_red.
    destruct (db_fault w AtSummarySelect) as [e|] eqn:E1; exec_red.
    { right; left. do 2 eexists. split; [reflexivity|exact Ht']. }
    destruct (db_fault w AtGetMessages) as [e|] eqn:E2; exec_red.
    { right; left. do 2 eexists. split; [reflexivity|exact Ht']. }
    destruct (Db.first_unreadable (Db.rows_of st1 sid)) as [e|] eqn:E2';
      exec_red.
    { right; left. do 2 eexists. split; [reflexivity|exact Ht']. }
    match goal with
    | |- context [if negb (JS.truthy ?i) then _ else _] =>
      set (input := i); destruct (JS.truthy input) eqn:Hin
    end; cbn [negb]; exec_red.
    2:{ left. do 2 eexists. split; [reflexivity|]. split; [exact I|exact Ht']. }
    match goal with
    | |- context [chain_stream w ?q] => set (p := q)
    end.
    destruct (chain_stream w p) as [stream|e] eqn:E3; exec_red.
    2:{ right; left. do 2 eexists. split; [reflexivity|].
        apply Forall_app. split; [exact Ht'|].
        constructor; [|constructor].
        unfold rejected_open. repeat split; try discriminate.
        intros p' Hp'. injection Hp' as <-. eauto. }
    match goal with
    | |- context [Gemini.start w sid ?ps input ?db stream
                                 {| store := st1; trace := ?t |}] =>
      destruct (Gemini_start_cases w sid ps input db stream st1 t)
        as (st' & tail & Es & Hend); rewrite Es
    end.
    right; right. exists input.
    do 5 eexists. split; [reflexivity|]. eauto. }
  destruct (Gemini_resolve_cases w req st)
    as [(e & t1 & E & Ht) | (sid & st1 & t1 & E & Hp & Ht)];
    exec_red; rewrite E; exec_red.
  { left. do 3 eexists. split; [reflexivity|]. split; [exact I|].
    split; [constructor|].
    apply setup_rejected_open. apply Forall_app. split; [exact Ht|].
    repeat constructor. }
  destruct (JS.truthy sid) eqn:Hs; cbn [negb]; exec_red.
  2:{ left. do 3 eexists. split; [reflexivity|]. split; [exact I|].
      split; [exact Hp|].
      apply setup_rejected_open. apply Forall_app. split; [exact Ht|].
      repeat constructor. }
  destruct (Conv (negb (JS.truthy_opt (sessionId req))) sid st1 t1 Hp Ht)
    as [(resp & t2 & Ec & Hr & Ht2)
       | [(e & t2 & Ec & Ht2)
         | (input & db & p & stream & st' & tail & Ec & H1 & H2 & H3)]];
    rewrite Ec; exec_red.
  - left. do 3 eexists. split; [reflexivity|]. auto.
  - left. do 3 eexists. split; [reflexivity|]. split; [exact I|].
    split; [exact Hp|]. apply Forall_app. split; [exact Ht2|].
    constructor; [|constructor].
    unfold rejected_open. repeat split; discriminate.
  - right. exists sid, input, db, p, stream, st1, t1, st', tail.
    cbv zeta. auto 10.
Qed.

Lemma rag_loop_run (cs : list text) (vars : text * bool) (st : Store)
    (t : list Event) :
  for_each cs Rag.on_chunk vars {| store := st; trace := t |} =
  (Return (fst (rag_loop cs vars)),
   {| store := st; trace := t ++ map EvEnqueue (snd (rag_loop cs vars)) |}).
Proof.
  revert vars t; induction cs as [|c cs IH]; intros vars t; simpl.
  - unfold ret. now rewrite app_nil_r.
  - unfold bind, Rag.on_chunk.
    destruct (JS.includes c Rag.SEARCH_ERROR_MARK
              || JS.includes (fst vars ++ c) Rag.SEARCH_ERROR_MARK);
      unfold bind, emit, ret; simpl; rewrite IH; simpl;
      rewrite <- !app_assoc; reflexivity.
Qed.

Lemma Rag_start_cases (w : World) (sid ps os input : text) (canSave : bool)
    (stream : Stream text) (st : Store) (t : list Event) :
  let r := rag_loop (chunks stream) ([], false) in
  let answer := fst (fst r) in
  exists st' tail,
    Rag.start w sid ps os input canSave stream {| store := st; trace := t |}
    = (Return tt,
       {| store := st'; trace := t ++ map EvEnqueue (snd r) ++ tail |})
    /\ RagEnd w sid input answer (rag_merge_prompt ps os input answer)
              (snd (fst r)) canSave (failure stream) st st' tail.
Proof.
  intros r answer.
  unfold Rag.start, Rag.save_and_summarize.
  exec_red. rewrite rag_loop_run. subst answer r.
  destruct (rag_loop (chunks stream) ([], false)) as [[answer hasErr] q].
  cbn [fst snd].
  fold (rag_merge_prompt ps os input answer).
  destruct (failure stream) as [e|] eqn:Hf; exec_red.
  { do 2 eexists. split; [same_run|]. now econstructor. }
  destruct (JS.truthy answer) eqn:Ha; cbn [negb andb]; exec_red.
  2:{ do 2 eexists. split; [same_run|].
      eapply rag_empty; auto. now destruct answer. }
  assert (Hne : answer <> []) by (now apply truthy_nonempty).
  destruct hasErr; cbn [negb andb]; exec_red.
  { do 2 eexists. split; [same_run|]. eapply rag_not_saved; auto. }
  destruct canSave; exec_red.
  2:{ do 2 eexists. split; [same_run|]. eapply rag_not_saved; auto. }
  exec.
  all: do 2 eexists; (split; [same_run|]).
  all: simpl app.
  - eapply rag_ai_write_failed; eauto.
  - eapply rag_summary_failed; eauto.
  - eapply rag_summary_write_failed; eauto.
  - eapply rag_saved; eauto.
  - eapply rag_summary_failed; eauto.
Qed.


Lemma quiet_setup (t : list Event) : Forall (fun e => quiet_event e = true) t -> Forall (fun e => setup_event e = true) t.
Proof.
  apply Forall_impl. intros [] H; simpl in *; try reflexivity; discriminate.
Qed.

Lemma Rag_resolve_cases (w : World) (req : Request) (st : Store) :
  (exists e t1,
      Rag.resolve_session w req {| store := st; trace := [] |}
      = (Throw e, {| store := st; trace := t1 |})
      /\ Forall (fun e => quiet_event e = true) t1
      /\ ((exists site, db_fault w site = Some e) \/
          (JS.truthy_opt (sessionId req) = false /\
           JS.truthy_opt (userId req) = false)))
  \/ (exists sid st1 t1,
      Rag.resolve_session w req {| store := st; trace := [] |}
      = (Return sid, {| store := st1; trace := t1 |})
      /\ Prepared w req (RagTitle (messages req)) st st1
      /\ Forall (fun e => quiet_event e = true) t1
      /\ SessionOf w req st sid st1).
Proof.
  unfold Rag.resolve_session.
  assert (New : JS.truthy_opt (sessionId req) = false ->
    (exists e t1,
      Rag.new_session w req {| store := st; trace := [] |}
      = (Throw e, {| store := st; trace := t1 |})
      /\ Forall (fun e => quiet_event e = true) t1
      /\ ((exists site, db_fault w site = Some e) \/
          (JS.truthy_opt (sessionId req) = false /\
           JS.truthy_opt (userId req) = false)))
    \/ (exists sid st1 t1,
      Rag.new_session w req {| store := st; trace := [] |}
      = (Return sid, {| store := st1; trace := t1 |})
      /\ Prepared w req (RagTitle (messages req)) st st1
      /\ Forall (fun e => quiet_event e = true) t1
      /\ SessionOf w req st sid st1)).
  { intros Hs. unfold Rag.new_session.
    destruct (userId req) as [user|] eqn:Hu;
      [destruct (JS.truthy user) eqn:Hut|]; exec.
    all: try (left; do 2 eexists; split; [reflexivity|];
              split; [repeat constructor|]; first [left; eauto; fail | right; split; [exact Hs|simpl; auto]]).
    right. do 3 eexists. split; [reflexivity|]. split; [|split].
    - eapply (prepared_new w req (RagTitle (messages req)) st); eauto.
      reflexivity.
    - repeat constructor.
    - eapply session_created; eauto. }
  destruct (sessionId req) as [sid|] eqn:Hsid.
  - destruct (JS.truthy sid) eqn:Hs.
    + right. exists sid, st, []. split; [reflexivity|].
      split; [constructor|]. split; [constructor|].
      now apply session_given.
    + now apply New.
  - now apply New.
Qed.

Lemma Rag_load_summary_cases (w : World) (sid : text) (st : Store)
    (t : list Event) :
  (exists e evs,
      Rag.load_summary w sid {| store := st; trace := t |}
      = (Throw e, {| store := st; trace := t ++ evs |})
      /\ Forall (fun e => quiet_event e = true) evs
      /\ exists site, db_fault w site = Some e)
  \/ (exists evs,
      Rag.load_summary w sid {| store := st; trace := t |}
      = (Return (Db.summary_of st sid), {| store := st; trace := t ++ evs |})
      /\ Forall (fun e => quiet_event e = true) evs).
Proof.
  unfold Rag.load_summary. exec.
  all: try (left; do 2 eexists; split; [same_run|];
            split; [repeat constructor | eauto]).
  right. eexists. split; [same_run | repeat constructor].
Qed.

Lemma Rag_budgeting_run (w : World) (req : Request) (input : text)
    (fullHistory : list BaseMessage) (st : Store) (t : list Event) :
  exists evs,
    Rag.budgeting w req input fullHistory {| store := st; trace := t |}
    = (Return (rag_window w req input fullHistory,
               rag_overflow_summary w (rag_overflow w req fullHistory)),
       {| store := st; trace := t ++ evs |})
    /\ Forall (fun e => setup_event e = true) evs
    /\ (rag_overflow w req fullHistory = [] -> evs = []).
Proof.
  unfold Rag.budgeting, Rag.summarize_overflow, rag_window, rag_overflow,
    rag_overflow_summary.
  destruct fullHistory as [|m rest]; exec_red.
  { exists []. split; [same_run|]. split; [constructor|reflexivity]. }
  destruct (JS.truthy_opt (sessionId req)); exec_red.
  2:{ exists []. split; [same_run|]. split; [constructor|reflexivity]. }
  destruct (Rag.overflow_of (m :: rest) (Rag.trimmed_window w (m :: rest)))
    as [|o os] eqn:Ho; exec_red.
  { exists []. split; [same_run|]. split; [constructor|reflexivity]. }
  exec.
  all: eexists; split; [same_run|]; split; [repeat constructor|discriminate].
Qed.

Lemma Rag_document_context_run (w : World) (input : text) (st : Store)
    (t : list Event) :
  exists evs,
    Rag.document_context w input {| store := st; trace := t |}
    = (Return (rag_context w input), {| store := st; trace := t ++ evs |})
    /\ Forall (fun e => quiet_event e = true) evs.
Proof.
  unfold Rag.document_context, Rag.searchDocuments, rag_context. exec.
  all: eexists; split; [same_run | repeat constructor].
Qed.

Lemma Rag_save_user_cases (w : World) (sid input : text) (st : Store)
    (t : list Event) :
  exists st2 evs canSave,
    Rag.save_user_message w sid input {| store := st; trace := t |}
    = (Return canSave, {| store := st2; trace := t ++ evs |})
    /\ UserSaved w sid input st st2 evs canSave.
Proof.
  unfold Rag.save_user_message. exec.
  all: do 3 eexists; split; [same_run|].
  - eapply user_not_saved; eauto.
  - eapply user_saved; eauto.
Qed.

Lemma first_unreadable_In (rows : list MessageRow) (e : Error) :
  Db.first_unreadable rows = Some e ->
  exists r, In r rows /\ Db.unreadable (message r) = Some e.
Proof.
  induction rows as [|r rows IH]; simpl; [discriminate|].
  destruct (Db.unreadable (message r)) as [e'|] eqn:Hr.
  - intros E. injection E as <-. exists r. auto.
  - intros E. destruct (IH E) as (r' & Hin & Hu). exists r'. auto.
Qed.

Lemma first_unreadable_none (rows : list MessageRow) :
  (forall r, In r rows -> Db.unreadable (message r) = None) ->
  Db.first_unreadable rows = None.
Proof.
  induction rows as [|r rows IH]; simpl; intros H; [reflexivity|].
  rewrite (H r) by now left. apply IH. intros r' Hr'. apply H. now right.
Qed.

Lemma to_stored_readable (k : MsgKind) (c : text) :
  Db.unreadable (to_stored k c) = None \/ k = Other.
Proof. destruct k; [left|left|left|right]; vm_compute; reflexivity. Qed.

(** A session whose stored rows can be read back can still be read back
    after a human or an assistant turn was written. *)
Lemma readable_after_write (w : World) (st : Store) (sid sid' : text)
    (k : MsgKind) (c : text) :
  k <> Other ->
  (forall r, In r (chat_messages st) -> session_id r = sid ->
             Db.unreadable (message r) = None) ->
  Db.first_unreadable (Db.rows_of (add_row st (row_of w st sid' k c)) sid)
  = None.
Proof.
  intros Hk H. apply first_unreadable_none. intros r Hr.
  apply rows_of_In in Hr as [Hin Hs]. simpl in Hin.
  apply in_app_or in Hin as [Hin | [<- | []]]; [now apply H|].
  simpl. destruct (to_stored_readable k c); [assumption | contradiction].
Qed.

Lemma loadAll_rows (st : Store) (sid : text) :
  Db.loadAll st sid <> [] ->
  exists r, In r (chat_messages st) /\ session_id r = sid.
Proof.
  unfold Db.loadAll. destruct (Db.rows_of st sid) as [|r rows] eqn:E;
    [simpl; congruence|].
  intros _. exists r. apply rows_of_In. rewrite E. now left.
Qed.

(** The overflow summarizer runs only for a named session with stored
    turns. *)
Lemma overflow_needs_stored_turns (w : World) (req : Request) (st st1 : Store)
    (sid : text) :
  SessionOf w req st sid st1 ->
  rag_overflow w req (Db.loadAll st1 sid) <> [] ->
  has_stored_turns req st.
Proof.
  intros Hs Ho. rewrite rag_overflow_cases in Ho.
  destruct (JS.truthy_opt (sessionId req)) eqn:Ht; [|congruence].
  destruct Hs as [sid Hsid Htr | T user Hf _ _]; [|congruence].
  destruct (loadAll_rows _ _ Ho) as (r & Hin & Hr).
  exists sid, r. auto.
Qed.

Lemma rag_setup_ok_quiet (w : World) (req : Request) (st st1 : Store)
    (t : list Event) :
  Forall (fun e => quiet_event e = true) t ->
  Forall (rag_setup_ok w req st st1) t.
Proof.
  apply Forall_impl. intros e He. split.
  - destruct e; simpl in *; try discriminate.
  - intros p ->. discriminate.
Qed.

(** The runs of the RAG route: a refusal, with its cause, or a stream. *)
Lemma Rag_POST_shape (w : World) (req : Request) (st : Store) :
  (exists resp st1 t1,
      run (Rag.POST w req) st = (Return resp, {| store := st1; trace := t1 |})
      /\ not_streamed resp
      /\ Prepared w req (RagTitle (messages req)) st st1
      /\ Forall (rejected_open w) t1
      /\ RagRefusal w req st t1
      /\ Forall (rag_setup_ok w req st st1) t1)
  \/ (exists sid input stream st1 st2 t1 user_ev canSave st' tail,
      let ps := Db.summary_of st1 sid in
      let fh := Db.loadAll st1 sid in
      let os := rag_overflow_summary w (rag_overflow w req fh) in
      let p := RagPrompt (JS.join nl (filter JS.truthy [ps; os]))
                         (rag_context w input)
                         (rag_window w req input fh) input in
      let r := rag_loop (chunks stream) ([], false) in
      run (Rag.POST w req) st =
        (Return (StreamResponse (if JS.truthy sid then Some sid else None)),
         {| store := st';
            trace := ((t1 ++ [EvModelStream p]) ++ user_ev)
                     ++ map EvEnqueue (snd r) ++ tail |})
      /\ Prepared w req (RagTitle (messages req)) st st1
      /\ Forall (fun e => setup_event e = true) t1
      /\ (rag_overflow w req fh = [] -> Forall (fun e => quiet_event e = true) t1)
      /\ Rag.last_input (messages req) = Some input
      /\ JS.truthy input = true
      /\ chain_stream w p = Resolved stream
      /\ UserSaved w sid input st1 st2 user_ev canSave
      /\ RagEnd w sid input (fst (fst r))
                (rag_merge_prompt ps os input (fst (fst r)))
                (snd (fst r)) canSave (failure stream) st2 st' tail
      /\ SessionOf w req st sid st1
      /\ Forall (rag_setup_ok w req st st1) t1).
Proof.
  unfold run, Rag.POST. exec_red.
  destruct (Rag_resolve_cases w req st)
    as [(e & t1 & E & Ht & Hcause) | (sid & st1 & t1 & E & Hp & Ht & Hsess)];
    rewrite E; exec_red.
  { left. do 3 eexists. split; [reflexivity|]. split; [exact I|].
    split; [constructor|].
    assert (Hq : Forall (fun e0 => quiet_event e0 = true)
                        (t1 ++ [EvLog #"API Error:" (error_message e)])).
    { apply Forall_app. split; [exact Ht|]. repeat constructor. }
    split; [apply setup_rejected_open, quiet_setup, Hq|].
    split; [|apply rag_setup_ok_quiet, Hq].
    destruct Hcause as [(site & Hf) | (Hs & Hu)].
    - eapply refusal_store; eauto.
    - now apply refusal_owner. }
  assert (Hmsgs : chat_messages st1 = chat_messages st)
    by (destruct Hp; reflexivity).
  unfold Rag.converse. exec_red.
  destruct (Rag_load_summary_cases w sid st1 t1)
    as [(e & ev1 & E1 & Hev1 & (site & Hf)) | (ev1 & E1 & Hev1)];
    rewrite E1; exec_red.
  { left. do 3 eexists. split; [reflexivity|]. split; [exact I|].
    split; [exact Hp|].
    assert (Hq : Forall (fun e0 => quiet_event e0 = true)
                   ((t1 ++ ev1) ++ [EvLog #"API Error:" (error_message e)])).
    { repeat (apply Forall_app; split); auto; repeat constructor. }
    split; [apply setup_rejected_open, quiet_setup, Hq|].
    split; [eapply refusal_store; eauto | apply rag_setup_ok_quiet, Hq]. }
  destruct (db_fault w AtGetMessages) as [e|] eqn:E2; exec_red.
  { left. do 3 eexists. split; [reflexivity|]. split; [exact I|].
    split; [exact Hp|].
    assert (Hq : Forall (fun e0 => quiet_event e0 = true)
                   ((t1 ++ ev1) ++ [EvLog #"API Error:" (error_message e)])).
    { repeat (apply Forall_app; split); auto; repeat constructor. }
    split; [apply setup_rejected_open, quiet_setup, Hq|].
    split; [eapply refusal_store; eauto | apply rag_setup_ok_quiet, Hq]. }
  destruct (Db.first_unreadable (Db.rows_of st1 sid)) as [e|] eqn:E2';
    exec_red.
  { left. do 3 eexists. split; [reflexivity|]. split; [exact I|].
    split; [exact Hp|].
    assert (Hq : Forall (fun e0 => quiet_event e0 = true)
                   ((t1 ++ ev1) ++ [EvLog #"API Error:" (error_message e)])).
    { repeat (apply Forall_app; split); auto; repeat constructor. }
    split; [apply setup_rejected_open, quiet_setup, Hq|].
    split; [|apply rag_setup_ok_quiet, Hq].
    apply first_unreadable_In in E2' as (r & Hr & Hu).
    apply rows_of_In in Hr as [Hr _]. rewrite Hmsgs in Hr.
    eapply refusal_unreadable; eauto. }
  assert (Hq1 : Forall (fun e0 => quiet_event e0 = true) (t1 ++ ev1)).
  { apply Forall_app. auto. }
  destruct (Rag.last_input (messages req)) as [input|] eqn:Hli; exec_red.
  2:{ left. do 3 eexists. split; [reflexivity|]. split; [exact I|].
      split; [exact Hp|].
      split; [apply setup_rejected_open, quiet_setup, Hq1|].
      split; [apply refusal_input; rewrite Hli; reflexivity
             | apply rag_setup_ok_quiet, Hq1]. }
  destruct (JS.truthy input) eqn:Hin; cbn [negb]; exec_red.
  2:{ left. do 3 eexists. split; [reflexivity|]. split; [exact I|].
      split; [exact Hp|].
      split; [apply setup_rejected_open, quiet_setup, Hq1|].
      split; [apply refusal_input; rewrite Hli; simpl; exact Hin
             | apply rag_setup_ok_quiet, Hq1]. }
  match goal with
  | |- context [Rag.budgeting w req input ?fh {| store := st1; trace := ?t |}] =>
    destruct (Rag_budgeting_run w req input fh st1 t)
      as (ev2 & Eb & Hev2 & Hnone); rewrite Eb
  end; exec_red.
  match goal with
  | |- context [Rag.document_context w input {| store := st1; trace := ?t |}] =>
    destruct (Rag_document_context_run w input st1 t)
      as (ev3 & Ed & Hev3); rewrite Ed
  end; exec_red.
  assert (Hsetup : Forall (fun e => setup_event e = true) (((t1 ++ ev1) ++ ev2) ++ ev3)).
  { repeat (apply Forall_app; split); auto using quiet_setup. }
  assert (Hok : Forall (rag_setup_ok w req st st1)
                       (((t1 ++ ev1) ++ ev2) ++ ev3)).
  { repeat (apply Forall_app; split); auto using rag_setup_ok_quiet.
    destruct (rag_overflow w req (Db.loadAll st1 sid)) as [|o os'] eqn:Ho.
    - rewrite (Hnone eq_refl). constructor.
    - assert (Hdue : has_stored_turns req st).
      { apply (overflow_needs_stored_turns Hsess). rewrite Ho. discriminate. }
      apply Forall_forall. intros e0 He0. split; [auto|].
      intros p0 ->. rewrite Forall_forall in Hev2. apply Hev2 in He0.
      discriminate. }
  match goal with
  | |- context [chain_stream w ?q] => set (p := q)
  end.
  destruct (chain_stream w p) as [stream|e] eqn:E3; exec_red.
  2:{ left. do 3 eexists. split; [reflexivity|]. split; [exact I|].
      split; [exact Hp|]. split; [|split].
      - apply Forall_app; split; [apply Forall_app; split|].
        + apply setup_rejected_open; exact Hsetup.
        + constructor; [|constructor].
          unfold rejected_open. repeat split; try discriminate.
          intros p' Hp'. injection Hp' as <-. eauto.
        + repeat constructor; discriminate.
      - eapply (refusal_model _ _ _ _ p); [|exact E3].
        apply in_or_app. left. apply in_or_app. right. now left.
      - apply Forall_app; split; [apply Forall_app; split|].
        + exact Hok.
        + constructor; [|constructor]. split; [discriminate|].
          intros p' Hp'. injection Hp' as <-.
          exists sid, input. split; [exact Hsess|].
          split; [exact Hli | reflexivity].
        + apply rag_setup_ok_quiet. repeat constructor. }
  match goal with
  | |- context [Rag.save_user_message w sid input
                  {| store := st1; trace := ?t |}] =>
    destruct (Rag_save_user_cases w sid input st1 t)
      as (st2 & uev & canSave & Eu & Hu); rewrite Eu
  end; exec_red.
  match goal with
  | |- context [Rag.start w sid ?ps ?os input canSave stream
                  {| store := st2; trace := ?t |}] =>
    destruct (Rag_start_cases w sid ps os input canSave stream st2 t)
      as (st' & tail & Es & Hend); rewrite Es
  end; exec_red.
  right. exists sid, input, stream, st1, st2, (((t1 ++ ev1) ++ ev2) ++ ev3),
           uev, canSave, st', tail.
  cbv zeta. split; [reflexivity|].
  repeat (split; [solve [auto]|]).
  split.
  { intros Ho. specialize (Hnone Ho). subst ev2.
    repeat (apply Forall_app; split); auto. }
  auto 12.
Qed.

Lemma Rag_POST_cases (w : World) (req : Request) (st : Store) :
  (exists resp st1 t1,
      run (Rag.POST w req) st = (Return resp, {| store := st1; trace := t1 |})
      /\ not_streamed resp
      /\ Prepared w req (RagTitle (messages req)) st st1
      /\ Forall (rejected_open w) t1)
  \/ (exists sid input stream st1 st2 t1 user_ev canSave st' tail,
      let ps := Db.summary_of st1 sid in
      let fh := Db.loadAll st1 sid in
      let os := rag_overflow_summary w (rag_overflow w req fh) in
      let p := RagPrompt (JS.join nl (filter JS.truthy [ps; os]))
                         (rag_context w input)
                         (rag_window w req input fh) input in
      let r := rag_loop (chunks stream) ([], false) in
      run (Rag.POST w req) st =
        (Return (StreamResponse (if JS.truthy sid then Some sid else None)),
         {| store := st';
            trace := ((t1 ++ [EvModelStream p]) ++ user_ev)
                     ++ map EvEnqueue (snd r) ++ tail |})
      /\ Prepared w req (RagTitle (messages req)) st st1
      /\ Forall (fun e => setup_event e = true) t1
      /\ (rag_overflow w req fh = [] -> Forall (fun e => quiet_event e = true) t1)
      /\ Rag.last_input (messages req) = Some input
      /\ JS.truthy input = true
      /\ chain_stream w p = Resolved stream
      /\ UserSaved w sid input st1 st2 user_ev canSave
      /\ RagEnd w sid input (fst (fst r))
                (rag_merge_prompt ps os input (fst (fst r)))
                (snd (fst r)) canSave (failure stream) st2 st' tail).
Proof.
  destruct (Rag_POST_shape w req st)
    as [(resp & st1 & t1 & E & Hn & Hp & Ht & _)
       | (sid & input & stream & st1 & st2 & t1 & uev & canSave & st'
          & tail & E & Hp & Ht & Hq & Hli & Hi & Hs & Hu & Hend & _)].
  - left. exists resp, st1, t1. auto.
  - right. exists sid, input, stream, st1, st2, t1, uev, canSave, st', tail.
    cbv zeta in *. auto 10.
Qed.

Lemma agent_loop_run (evs : list AgentEvent) (acc : text) (st : Store)
    (t : list Event) :
  for_each evs Agent.on_event acc {| store := st; trace := t |} =
  (Return (acc ++ List.concat (agent_chunks evs)),
   {| store := st; trace := t ++ map EvEnqueue (agent_chunks evs) |}).
Proof.
  revert acc t; induction evs as [|ev evs IH]; intros acc t; simpl.
  - unfold ret. now rewrite !app_nil_r.
  - unfold bind, Agent.on_event.
    destruct ev as [[c|]|]; try (unfold ret; apply IH).
    destruct (JS.truthy c && (0 <? List.length c)); simpl.
    + unfold bind, emit, ret. simpl. rewrite IH. simpl.
      rewrite <- !app_assoc. reflexivity.
    + unfold ret. simpl. apply IH.
Qed.

Lemma agent_loop_nil (evs : list AgentEvent) (st : Store) (t : list Event) :
  for_each evs Agent.on_event [] {| store := st; trace := t |} =
  (Return (List.concat (agent_chunks evs)),
   {| store := st; trace := t ++ map EvEnqueue (agent_chunks evs) |}).
Proof. apply agent_loop_run. Qed.

Lemma Agent_start_cases (w : World) (sid : text)
    (historyMessages : list BaseMessage) (st : Store) (t : list Event) :
  exists ds st' tail,
    Agent.start w sid historyMessages {| store := st; trace := t |}
    = (Return tt,
       {| store := st';
          trace := (t ++ [EvAgentStream historyMessages])
                   ++ map EvEnqueue ds ++ tail |})
    /\ AgentEnd w sid (streamEvents w historyMessages) st ds st' tail.
Proof.
  unfold Agent.start. exec_red.
  destruct (streamEvents w historyMessages) as [stream|e] eqn:Ecall; exec_red.
  2:{ exists []. do 2 eexists. split; [same_run|]. now econstructor. }
  rewrite agent_loop_nil.
  destruct (failure stream) as [e|] eqn:Hf; exec_red.
  { do 3 eexists. split; [same_run|]. eapply agent_failed; eauto. }
  destruct (JS.truthy (List.concat (agent_chunks (chunks stream)))) eqn:Ha;
    exec_red.
  2:{ do 3 eexists. split; [same_run|]. eapply agent_empty; eauto.
      now destruct (List.concat (agent_chunks (chunks stream))). }
  apply truthy_nonempty in Ha.
  exec.
  all: do 3 eexists; (split; [same_run|]).
  - eapply agent_save_failed; eauto.
  - eapply agent_saved; eauto.
Qed.

Lemma Agent_POST_cases (w : World) (req : Request) (st : Store) :
  let sid := agent_session w req in
  (exists resp st1 t1,
      run (Agent.POST w req) st = (Return resp, {| store := st1; trace := t1 |})
      /\ not_streamed resp
      /\ (st1 = st \/
          exists input, Agent.input_content (messages req) = Some input /\
                        st1 = add_row st (row_of w st sid Human input) /\
                        In (EvInsertMessage sid Human input) t1)
      /\ Forall (rejected_open w) t1
      /\ Forall (fun e => is_open_event e = false) t1)
  \/ (exists input ds st' tail,
      let st1 := add_row st (row_of w st sid Human input) in
      let hist := Db.loadAll st1 sid in
      run (Agent.POST w req) st =
        (Return (StreamResponse (Some sid)),
         {| store := st';
            trace := ([EvInsertMessage sid Human input] ++ [EvAgentStream hist])
                     ++ map EvEnqueue ds ++ tail |})
      /\ Agent.input_content (messages req) = Some input
      /\ JS.truthy input = true
      /\ db_fault w AtAddUser = None
      /\ AgentEnd w sid (streamEvents w hist) st1 ds st' tail).
Proof.
  intros sid. unfold run, Agent.POST. fold (agent_session w req). fold sid.
  exec_red.
  destruct (Agent.input_content (messages req)) as [input|] eqn:Hin; exec_red.
  2:{ left. do 3 eexists. split; [reflexivity|]. split; [exact I|].
      split; [now left|split; constructor]. }
  destruct (JS.truthy input) eqn:Ht; cbn [negb]; exec_red.
  2:{ left. do 3 eexists. split; [reflexivity|]. split; [exact I|].
      split; [now left|split; constructor]. }
  destruct (db_fault w AtAddUser) as [e|] eqn:E1; exec_red.
  { left. do 3 eexists. split; [reflexivity|]. split; [exact I|].
    split; [now left|].
    split; repeat constructor; discriminate. }
  destruct (db_fault w AtGetMessages) as [e|] eqn:E2; exec_red.
  { left. do 3 eexists. split; [reflexivity|]. split; [exact I|].
    split; [right; exists input; repeat split; auto; now left|].
    split; repeat constructor; discriminate. }
  match goal with
  | |- context [Db.first_unreadable ?rows] =>
    destruct (Db.first_unreadable rows) as [e|] eqn:E2'
  end; exec_red.
  { left. do 3 eexists. split; [reflexivity|]. split; [exact I|].
    split; [right; exists input; repeat split; auto; now left|].
    split; repeat constructor; discriminate. }
  match goal with
  | |- context [Agent.start w sid ?h {| store := ?s1; trace := ?t |}] =>
    destruct (Agent_start_cases w sid h s1 t)
      as (ds & st' & tail & Es & Hend); rewrite Es
  end; exec_red.
  right. exists input, ds, st', tail. cbv zeta.
  split; [reflexivity|]. auto.
Qed.

(* ================================================================== *)
(** * Requests without session and owner *)
(* ================================================================== *)

(** C5, as stated, fails in the agent route, which has no owner check:
    a request with neither a session id nor an owner id is accepted, under
    a session id made from the clock; the user turn is written, the agent
    is called and its answer is streamed and stored.  It also fails in the
    RAG route when the pool has no client to give: the reply then carries
    the error of the pool, not the message about the owner. *)
Lemma agent_accepts_request_without_owner :
  let r := run (Agent.POST Sample.calm Sample.anonymous)
               Sample.empty_store in
  let sid := #"session-1700000000000" in
  JS.truthy_opt (sessionId Sample.anonymous) = false /\
  JS.truthy_opt (userId Sample.anonymous) = false /\
  fst r = Return (StreamResponse (Some sid)) /\
  map (fun row => (session_id row, m_type (message row),
                   m_content (message row)))
      (chat_messages (store (snd r)))
  = [(sid, Some #"human", Some #"Hello"); (sid, Some #"ai", Some #"Hi")] /\
  existsb is_open_event (trace (snd r)) = true /\
  fst (run (Rag.POST Sample.exhausted_pool Sample.anonymous)
           Sample.empty_store)
  = Return (ErrorResponse 500 #"An error occurred"
                          (Some #"network unreachable")).
Proof. vm_compute. repeat split; reflexivity. Qed.

(** C5 (amended). A request that supplies neither a session id nor an
    owner id is rejected by the Gemini route with the error response that
    carries the message "User ID is required for new sessions", before any
    side effect: the store is left as it was (no session row, no turn)
    and the trace holds only the log entry.  The RAG route first takes a
    client from the pool: if that succeeds it gives the client back and
    rejects the request with the message "User ID is required"; if it
    fails, the reply carries the error of the pool instead.  In both cases
    the store is left as it was and neither the model nor the search is
    called.  The agent route does not look at the owner id at all: its
    run is the same whatever the owner id of the request. *)
Theorem no_owner_no_session_rejected (w : World) (req : Request) (st : Store) :
  JS.truthy_opt (sessionId req) = false ->
  JS.truthy_opt (userId req) = false ->
  run (Gemini.POST w req) st
  = (Return (ErrorResponse 500 #"An error occurred processing your request"
               (Some #"User ID is required for new sessions")),
     {| store := st;
        trace := [EvLog #"API Error:"
                        #"User ID is required for new sessions"] |})
  /\ ((db_fault w AtCreateConnect = None /\
       run (Rag.POST w req) st
       = (Return (ErrorResponse 500 #"An error occurred"
                    (Some #"User ID is required")),
          {| store := st;
             trace := [EvConnect AtCreateConnect; EvRelease;
                       EvLog #"API Error:" #"User ID is required"] |}))
      \/ (exists e, db_fault w AtCreateConnect = Some e /\
          run (Rag.POST w req) st
          = (Return (ErrorResponse 500 #"An error occurred"
                       (Some (error_message e))),
             {| store := st;
                trace := [EvLog #"API Error:" (error_message e)] |})))
  /\ (forall owner,
         run (Agent.POST w req) st
         = run (Agent.POST w {| messages := messages req;
                                sessionId := sessionId req;
                                userId := owner |}) st).
Proof.
  intros Hs Hu. split; [|split].
  - unfold run, Gemini.POST, Gemini.resolve_session.
    destruct (sessionId req) as [sid|]; simpl in Hs; [rewrite Hs|];
      (destruct (userId req) as [user|]; simpl in Hu; [rewrite Hu|]);
      reflexivity.
  - unfold run, Rag.POST, Rag.resolve_session, Rag.new_session.
    destruct (sessionId req) as [sid|]; simpl in Hs; [rewrite Hs|];
      (destruct (userId req) as [user|]; simpl in Hu; [rewrite Hu|]);
      exec_red;
      (destruct (db_fault w AtCreateConnect) as [e|] eqn:Hc; exec_red;
       [right; exists e; split; reflexivity | left; split; reflexivity]).
  - intros owner. destruct req. reflexivity.
Qed.

Lemma no_owner_no_session_rejected_witness :
  JS.truthy_opt (sessionId Sample.anonymous) = false /\
  JS.truthy_opt (userId Sample.anonymous) = false /\
  run (Gemini.POST Sample.calm Sample.anonymous) Sample.one_session
  = (Return (ErrorResponse 500 #"An error occurred processing your request"
               (Some #"User ID is required for new sessions")),
     {| store := Sample.one_session;
        trace := [EvLog #"API Error:"
                        #"User ID is required for new sessions"] |}).
Proof.
  split; [reflexivity|]. split; [reflexivity|].
  apply (no_owner_no_session_rejected Sample.calm Sample.anonymous
           Sample.one_session); reflexivity.
Defined.

(* ================================================================== *)
(** * What a turn leaves in the two tables *)
(* ================================================================== *)

Lemma with_summary_titles (st : Store) (s sid : text) :
  map title (chat_sessions (with_summary st s sid)) = map title (chat_sessions st).
Proof.
  unfold with_summary. simpl. rewrite map_map. apply map_ext.
  intros r. unfold Db.set_summary. now destruct (JS.eqb (id r) sid).
Qed.

Lemma Prepared_tables (w : World) (req : Request) (P : text -> Prop)
    (st st1 : Store) :
  Prepared w req P st st1 ->
  chat_messages st1 = chat_messages st /\
  (chat_sessions st1 = chat_sessions st \/
   exists row, chat_sessions st1 = chat_sessions st ++ [row] /\
               P (title row) /\ summary row = None /\
               JS.truthy_opt (sessionId req) = false).
Proof.
  intros [|T user Hs Hu Hut HT]; simpl; split; auto.
  right. eexists. split; [reflexivity|]. simpl. auto.
Qed.

Lemma GeminiEnd_tables (w : World) (sid input answer : text) (p : Prompt)
    (fl : option Error) (st st' : Store) (tail : list Event) :
  GeminiEnd w sid input answer p fl st st' tail ->
  map title (chat_sessions st') = map title (chat_sessions st) /\
  exists added,
    chat_messages st' = chat_messages st ++ added /\
    (fl <> None -> added = []) /\
    (added = [] \/
     (exists u, added = [u] /\ message u = to_stored Human input /\
                session_id u = sid) \/
     (exists u a, added = [u; a] /\ message u = to_stored Human input /\
                  message a = to_stored AI answer /\
                  session_id u = sid /\ session_id a = sid /\ answer <> [])).
Proof.
  intros H; inversion H; subst;
    rewrite ?with_summary_titles; simpl; (split; [reflexivity|]).
  1-3: exists []; rewrite app_nil_r; repeat split; auto; congruence.
  - eexists. split; [reflexivity|]. split; [congruence|].
    right; left. eexists. repeat split.
  - eexists. rewrite <- app_assoc. split; [reflexivity|].
    split; [congruence|]. right; right. do 2 eexists. repeat split; auto.
  - eexists. rewrite <- app_assoc. split; [reflexivity|].
    split; [congruence|]. right; right. do 2 eexists. repeat split; auto.
Qed.

Lemma UserSaved_tables (w : World) (sid input : text) (st st2 : Store)
    (evs : list Event) (canSave : bool) :
  UserSaved w sid input st st2 evs canSave ->
  chat_sessions st2 = chat_sessions st /\
  ((canSave = false /\ st2 = st /\ db_fault w AtAddUser <> None) \/
   (canSave = true /\ db_fault w AtAddUser = None /\
    st2 = add_row st (row_of w st sid Human input))).
Proof.
  intros [Hf|e label Hf]; simpl; split; auto.
  left. repeat split. congruence.
Qed.

Lemma RagEnd_tables (w : World) (sid input answer : text) (p : Prompt)
    (hasErr canSave : bool) (fl : option Error) (st st' : Store)
    (tail : list Event) :
  RagEnd w sid input answer p hasErr canSave fl st st' tail ->
  map title (chat_sessions st') = map title (chat_sessions st) /\
  exists added,
    chat_messages st' = chat_messages st ++ added /\
    (fl <> None -> added = []) /\
    (added = [] \/
     exists a, added = [a] /\ message a = to_stored AI answer /\
               session_id a = sid /\ answer <> []).
Proof.
  intros H; inversion H; subst;
    rewrite ?with_summary_titles; simpl; (split; [reflexivity|]).
  1-4: exists []; rewrite app_nil_r; repeat split; auto; congruence.
  all: eexists; (split; [reflexivity|]); (split; [congruence|]);
    right; eexists; repeat split; auto.
Qed.

Lemma AgentEnd_tables (w : World) (sid : text)
    (call : Result (Stream AgentEvent)) (st st' : Store) (ds : list text)
    (tail : list Event) :
  AgentEnd w sid call st ds st' tail ->
  chat_sessions st' = chat_sessions st /\
  exists added,
    chat_messages st' = chat_messages st ++ added /\
    (added = [] \/
     exists a, added = [a] /\ message a = to_stored AI (List.concat ds) /\
               session_id a = sid /\ List.concat ds <> [] /\
               exists stream, call = Resolved stream /\ failure stream = None).
Proof.
  intros H; inversion H; subst; simpl; (split; [reflexivity|]).
  1-3, 5: exists []; rewrite app_nil_r; auto.
  eexists. split; [reflexivity|]. right. eexists. repeat split; eauto.
Qed.

Lemma new_chat_length : List.length #"New Chat" = 8.
Proof. vm_compute. reflexivity. Qed.

Lemma GeminiTitle_length (ms : list UIMessage) (T : text) :
  GeminiTitle ms T -> List.length T <= 50.
Proof.
  intros [->|(m & p0 & rest & txt & _ & _ & _ & _ & ->)].
  - rewrite new_chat_length. lia.
  - apply slice0_length.
Qed.

(** The title of the RAG route: the first text part of the first user
    message, cut at 50 and marked with an ellipsis when it was longer. *)
Lemma Rag_title_of_cases (ms : list UIMessage) :
  Rag.title_of ms = #"New Chat" \/
  exists m ps p txt,
    find is_user ms = Some m /\ ui_parts m = Some ps /\
    find is_text_part ps = Some p /\ part_text p = Some txt /\
    Rag.title_of ms
    = JS.slice0 50 txt ++ (if 50 <? List.length txt then #"..." else []).
Proof.
  unfold Rag.title_of.
  destruct (find is_user ms) as [m|] eqn:Hm; [|now left].
  destruct (ui_parts m) as [[|p0 ps]|] eqn:Hp; [now left| |now left].
  destruct (find is_text_part (p0 :: ps)) as [p|] eqn:Hf; [|now left].
  destruct (part_text p) as [txt|] eqn:Ht; [|now left].
  right. exists m, (p0 :: ps), p, txt. auto.
Qed.

Lemma Rag_title_of_length (ms : list UIMessage) :
  List.length (Rag.title_of ms) <= 53.
Proof.
  destruct (Rag_title_of_cases ms)
    as [->|(m & ps & p & txt & _ & _ & _ & _ & ->)].
  - rewrite new_chat_length. lia.
  - rewrite length_app. pose proof (slice0_length 50 txt).
    destruct (50 <? List.length txt).
    + assert (E : List.length #"..." = 3) by (vm_compute; reflexivity).
      rewrite E. lia.
    + cbn [List.length]. lia.
Qed.

(* ================================================================== *)
(** * The title of a session *)
(* ================================================================== *)

(** C9, as stated, fails in the RAG route: a first message of 51
    characters gives a stored title of 53 characters. *)
Lemma rag_title_exceeds_50 :
  map (fun row => List.length (title row))
      (chat_sessions
         (store (snd (run (Rag.POST Sample.calm Sample.long_hello)
                          Sample.empty_store))))
  = [53].
Proof. vm_compute. reflexivity. Qed.

Lemma Prepared_titles (w : World) (req : Request) (P : text -> Prop)
    (st st1 : Store) :
  Prepared w req P st st1 ->
  exists added,
    map title (chat_sessions st1)
    = map title (chat_sessions st) ++ map title added /\
    (added = [] \/
     exists row, added = [row] /\ JS.truthy_opt (sessionId req) = false /\
                 P (title row)).
Proof.
  intros H. apply Prepared_tables in H as [_ [E|(row & E & HP & _ & Hs)]].
  - exists []. rewrite E, app_nil_r. auto.
  - exists [row]. rewrite E, map_app. split; [reflexivity|].
    right. exists row. auto.
Qed.

(** C9 (amended). A turn changes no title of an existing session: the
    titles stored after a turn are the titles stored before it, followed by
    at most one title, that of the session the turn created, and only for
    a request without a session id.  In the Gemini route the new title is
    "New Chat" or the first 50 characters of the first part of the first
    user message, so at most 50 characters; in the RAG route it is
    "New Chat" or the first 50 characters of the first text part of the
    first user message followed by "..." when that text is longer than 50,
    so at most 53 characters; the agent route creates no session. *)
Theorem session_title_set_at_creation (route : Route) (w : World)
    (req : Request) (st : Store) :
  let st' := store (snd (run (POST_of route w req) st)) in
  exists added,
    map title (chat_sessions st')
    = map title (chat_sessions st) ++ map title added /\
    (added = [] \/
     exists row,
       added = [row] /\ JS.truthy_opt (sessionId req) = false /\
       match route with
       | GeminiRoute =>
         GeminiTitle (messages req) (title row) /\
         List.length (title row) <= 50
       | RagRoute =>
         title row = Rag.title_of (messages req) /\
         List.length (title row) <= 53 /\
         (title row = #"New Chat" \/
          exists m ps p txt,
            find is_user (messages req) = Some m /\ ui_parts m = Some ps /\
            find is_text_part ps = Some p /\ part_text p = Some txt /\
            title row
            = JS.slice0 50 txt
              ++ (if 50 <? List.length txt then #"..." else []))
       | AgentRoute => False
       end).
Proof.
  intros st'. subst st'. destruct route; unfold POST_of.
  - destruct (Gemini_POST_cases w req st)
      as [(resp & st1 & t1 & E & _ & Hp & _)
         | (sid & input & db & p & stream & st1 & t1 & st' & tail
            & E & Hp & _ & _ & _ & Hend)];
      rewrite E; cbn [snd store];
      apply Prepared_titles in Hp as (added & Et & Ha);
      exists added;
      [|apply GeminiEnd_tables in Hend as [-> _]];
      (split; [exact Et|]);
      (destruct Ha as [->|(row & -> & Hs & HT)]; [now left|]);
      right; exists row; repeat split; auto;
      eapply GeminiTitle_length; eauto.
  - assert (Hr : forall row, RagTitle (messages req) (title row) ->
        title row = Rag.title_of (messages req) /\
        List.length (title row) <= 53 /\
        (title row = #"New Chat" \/
         exists m ps p txt,
           find is_user (messages req) = Some m /\ ui_parts m = Some ps /\
           find is_text_part ps = Some p /\ part_text p = Some txt /\
           title row
           = JS.slice0 50 txt
             ++ (if 50 <? List.length txt then #"..." else []))).
    { unfold RagTitle. intros row ->. split; [reflexivity|].
      split; [apply Rag_title_of_length | apply Rag_title_of_cases]. }
    destruct (Rag_POST_cases w req st)
      as [(resp & st1 & t1 & E & _ & Hp & _)
         | (sid & input & stream & st1 & st2 & t1 & uev & canSave & st'
            & tail & E & Hp & _ & _ & _ & _ & _ & Hu & Hend)];
      rewrite E; cbn [snd store];
      apply Prepared_titles in Hp as (added & Et & Ha);
      exists added;
      [|apply RagEnd_tables in Hend as [-> _];
        apply UserSaved_tables in Hu as [-> _]];
      (split; [exact Et|]);
      (destruct Ha as [->|(row & -> & Hs & HT)]; [now left|]);
      right; exists row; repeat split; auto; apply Hr; exact HT.
  - exists []. rewrite app_nil_r. split; [|now left].
    destruct (Agent_POST_cases w req st)
      as [(resp & st1 & t1 & E & _ & [->|(input & _ & -> & _)] & _)
         | (input & ds & st' & tail & E & _ & _ & _ & Hend)];
      rewrite E; cbn [snd store]; try reflexivity.
    apply AgentEnd_tables in Hend as [-> _]. reflexivity.
Qed.

(* ================================================================== *)
(** * Facts about traces *)
(* ================================================================== *)

Lemma In_enqueue (x : Event) (ds : list text) :
  In x (map EvEnqueue ds) -> exists c, x = EvEnqueue c.
Proof. intros H. apply in_map_iff in H as [c [<- _]]. eauto. Qed.

Lemma enqueues_app (a b : list Event) :
  enqueues (a ++ b) = enqueues a ++ enqueues b.
Proof.
  induction a as [|x a IH]; simpl; [reflexivity|].
  destruct x; simpl; rewrite ?IH; reflexivity.
Qed.

Lemma enqueues_map (ds : list text) : enqueues (map EvEnqueue ds) = ds.
Proof. induction ds; simpl; congruence. Qed.

Lemma enqueues_prefix (t : list Event) :
  Forall (fun e => prefix_event e = true) t -> enqueues t = [].
Proof.
  induction 1 as [|x t Hx _ IH]; simpl; [reflexivity|].
  destruct x; simpl in *; try discriminate; exact IH.
Qed.

Lemma setup_is_prefix (t : list Event) :
  Forall (fun e => setup_event e = true) t ->
  Forall (fun e => prefix_event e = true) t.
Proof.
  apply Forall_impl. intros [] H; simpl in *; try reflexivity; discriminate.
Qed.

Lemma setup_not_open (t : list Event) :
  Forall (fun e => setup_event e = true) t ->
  Forall (fun e => is_open_event e = false) t.
Proof.
  apply Forall_impl. intros [] H; simpl in *; try reflexivity; discriminate.
Qed.

Lemma setup_not_post (t : list Event) :
  Forall (fun e => setup_event e = true) t ->
  Forall (fun e => is_post_invoke e = false) t.
Proof.
  apply Forall_impl. intros [] H; simpl in *; try reflexivity;
    try discriminate.
  now destruct p.
Qed.

Lemma setup_no_insert (t : list Event) (sid : text) (k : MsgKind) (c : text) :
  Forall (fun e => setup_event e = true) t ->
  ~ In (EvInsertMessage sid k c) t.
Proof.
  intros H Hin. rewrite Forall_forall in H. apply H in Hin. discriminate.
Qed.

Lemma rejected_is_prefix (w : World) (t : list Event) :
  Forall (rejected_open w) t -> Forall (fun e => prefix_event e = true) t.
Proof. apply Forall_impl. intros e [H _]. exact H. Qed.

Lemma rejected_not_opened (w : World) (t : list Event) (fl : option Error) :
  Forall (rejected_open w) t -> ~ opened w t fl.
Proof.
  intros H [(p & s & Hin & E & _) | (ms & s & Hin & _)];
    rewrite Forall_forall in H; apply H in Hin; destruct Hin as (_ & H1 & H2).
  - destruct (H1 p eq_refl) as [err E']. congruence.
  - exact (H2 ms eq_refl).
Qed.

Lemma prefix_no_error (t : list Event) (e : Error) :
  Forall (fun e => prefix_event e = true) t -> ~ In (EvError e) t.
Proof.
  intros H Hin. rewrite Forall_forall in H. apply H in Hin. discriminate.
Qed.

Lemma prefix_no_close (t : list Event) :
  Forall (fun e => prefix_event e = true) t -> ~ In EvClose t.
Proof.
  intros H Hin. rewrite Forall_forall in H. apply H in Hin. discriminate.
Qed.

Lemma prefix_no_ai_insert (t : list Event) (sid c : text) :
  Forall (fun e => prefix_event e = true) t ->
  ~ In (EvInsertMessage sid AI c) t.
Proof.
  intros H Hin. rewrite Forall_forall in H. apply H in Hin. discriminate.
Qed.

(** Where an event of a class can be in [a ++ b] when [a] holds none. *)
Lemma split_after (P : Event -> bool) (a b pre post : list Event) (x : Event) :
  Forall (fun e => P e = false) a -> P x = true ->
  pre ++ x :: post = a ++ b ->
  exists mid, pre = a ++ mid /\ b = mid ++ x :: post.
Proof.
  intros Ha Hx. revert pre. induction Ha as [|y a Hy _ IH]; intros pre E.
  - exists pre. auto.
  - destruct pre as [|z pre]; simpl in E.
    + injection E as -> _. congruence.
    + injection E as -> E. destruct (IH _ E) as (mid & -> & ->).
      exists mid. auto.
Qed.

Lemma enqueue_not_ai (ds : list text) :
  Forall (fun e => is_ai_insert e = false) (map EvEnqueue ds).
Proof. apply Forall_forall. intros x H. apply In_enqueue in H as [c ->]. reflexivity. Qed.

Lemma prefix_not_ai (t : list Event) :
  Forall (fun e => prefix_event e = true) t ->
  Forall (fun e => is_ai_insert e = false) t.
Proof.
  apply Forall_impl. intros [] H; simpl in *; try reflexivity.
  destruct k; try reflexivity; discriminate.
Qed.

(** An appended assistant turn of a streamed run sits in the tail. *)
Lemma ai_insert_in_tail (t0 tail pre post : list Event) (ds : list text)
    (sid c : text) :
  Forall (fun e => prefix_event e = true) t0 ->
  t0 ++ map EvEnqueue ds ++ tail = pre ++ EvInsertMessage sid AI c :: post ->
  exists mid,
    pre = t0 ++ map EvEnqueue ds ++ mid /\
    tail = mid ++ EvInsertMessage sid AI c :: post.
Proof.
  intros H0 E. symmetry in E.
  apply (split_after is_ai_insert) in E as (m1 & -> & E);
    [|now apply prefix_not_ai|reflexivity].
  symmetry in E.
  apply (split_after is_ai_insert) in E as (m2 & -> & E);
    [|apply enqueue_not_ai|reflexivity].
  exists m2. auto.
Qed.

Lemma cons_split (a x : Event) (rest mid post : list Event) :
  a :: rest = mid ++ x :: post ->
  (mid = [] /\ a = x /\ rest = post) \/
  (exists mid', mid = a :: mid' /\ rest = mid' ++ x :: post).
Proof.
  destruct mid as [|y mid]; simpl; intros E; injection E as -> ->.
  - now left.
  - right. eauto.
Qed.

Lemma nil_split (x : Event) (mid post : list Event) :
  [] = mid ++ x :: post -> False.
Proof. destruct mid; discriminate. Qed.

(** Finds the assistant turn in a tail that is given event by event. *)
Ltac find_ai_insert E :=
  repeat
    (let Hm := fresh "Hm" in
     let Hp := fresh "Hp" in
     apply cons_split in E;
     destruct E as [(Hm & E & Hp) | (? & Hm & E)];
     [ first [ discriminate E | injection E as <- <-; subst ] | subst ]);
  try (apply nil_split in E; contradiction).

Ltac in_cases H :=
  simpl in H;
  repeat (destruct H as [H|H]; [try discriminate H|]);
  try contradiction.

(** Unfolds the local definitions that an inversion leaves behind. *)
Ltac unfold_locals :=
  repeat match goal with x := _ |- _ => subst x end.

Lemma stored_type_ai (k : MsgKind) : stored_type k = #"ai" -> k = AI.
Proof.
  destruct k; intros E; try reflexivity;
    apply (f_equal (fun l => List.length l)) in E; vm_compute in E;
    discriminate.
Qed.

Lemma opened_app_l (w : World) (a b : list Event) (fl : option Error) :
  opened w a fl -> opened w (a ++ b) fl.
Proof.
  intros [(p & s & H & E & F) | (ms & s & H & E & F)]; [left|right];
    do 2 eexists; (split; [apply in_or_app; left; exact H|]); eauto.
Qed.

Lemma opened_model_stream (w : World) (t : list Event) (p : Prompt)
    (stream : Stream text) :
  chain_stream w p = Resolved stream ->
  opened w (t ++ [EvModelStream p]) (failure stream).
Proof.
  intros E. left. exists p, stream. split; [|auto].
  apply in_or_app. right. now left.
Qed.

(** Settles the facts about a tail that is given event by event. *)
Ltac tail_facts :=
  lazymatch goal with
       | |- forall mid sid' c post, _ = _ -> _ =>
         intros mid sid' c post E; find_ai_insert E;
         repeat split; auto; repeat constructor
       | |- forall e, In (EvError e) _ -> _ =>
         intros e0 Hin; in_cases Hin; congruence
       | |- _ = None -> _ =>
         intros Hfl;
         first [ discriminate Hfl
               | split; [simpl; tauto | intros e0 Hin; in_cases Hin] ]
       | |- Forall _ _ => repeat constructor
       | |- forall row, _ =>
         intros row Hin; simpl in Hin; rewrite ?in_app_iff in Hin;
         simpl in Hin;
         repeat (destruct Hin as [Hin|Hin]);
         first [ contradiction
               | left; exact Hin
               | subst row; right; do 2 eexists; simpl;
                 first [ split; [left; reflexivity | reflexivity]
                       | split; [right; left; reflexivity | reflexivity] ] ]
       end.

(** The end of a Gemini stream, read as a trace. *)
Lemma GeminiEnd_trace (w : World) (sid input answer : text) (p : Prompt)
    (fl : option Error) (st st' : Store) (tail : list Event) :
  GeminiEnd w sid input answer p fl st st' tail ->
  (forall mid sid' c post,
      tail = mid ++ EvInsertMessage sid' AI c :: post ->
      c <> [] /\ fl = None /\ enqueues post = [] /\
      Forall (fun e => is_open_event e = false) mid) /\
  (forall e, In (EvError e) tail -> fl = Some e) /\
  (fl = None -> In EvClose tail /\ forall e, ~ In (EvError e) tail) /\
  Forall (fun e => is_open_event e = false) tail /\
  (forall row, In row (chat_messages st') ->
     In row (chat_messages st) \/
     exists k c, In (EvInsertMessage (session_id row) k c) tail /\
                 message row = to_stored k c).
Proof.
  intros H; inversion H; subst; unfold_locals;
    (split; [|split; [|split; [|split]]]).
  all: tail_facts.
Qed.

Lemma RagEnd_trace (w : World) (sid input answer : text) (p : Prompt)
    (hasErr canSave : bool) (fl : option Error) (st st' : Store)
    (tail : list Event) :
  RagEnd w sid input answer p hasErr canSave fl st st' tail ->
  (forall mid sid' c post,
      tail = mid ++ EvInsertMessage sid' AI c :: post ->
      c <> [] /\ fl = None /\ enqueues post = [] /\
      Forall (fun e => is_open_event e = false) mid) /\
  (forall e, In (EvError e) tail -> fl = Some e) /\
  (fl = None -> In EvClose tail /\ forall e, ~ In (EvError e) tail) /\
  Forall (fun e => is_open_event e = false) tail /\
  (forall row, In row (chat_messages st') ->
     In row (chat_messages st) \/
     exists k c, In (EvInsertMessage (session_id row) k c) tail /\
                 message row = to_stored k c).
Proof.
  intros H; inversion H; subst; unfold_locals;
    (split; [|split; [|split; [|split]]]).
  all: tail_facts.
Qed.

Lemma UserSaved_trace (w : World) (sid input : text) (st st2 : Store)
    (evs : list Event) (canSave : bool) :
  UserSaved w sid input st st2 evs canSave ->
  Forall (fun e => prefix_event e = true) evs /\
  Forall (fun e => is_open_event e = false) evs /\
  Forall (fun e => is_post_invoke e = false) evs /\
  (forall row, In row (chat_messages st2) ->
     In row (chat_messages st) \/
     exists k c, In (EvInsertMessage (session_id row) k c) evs /\
                 message row = to_stored k c).
Proof.
  intros H; inversion H; subst; (split; [|split; [|split]]);
    try match goal with |- Forall _ _ => repeat constructor end.
  - intros row Hin. simpl in Hin. apply in_app_iff in Hin as [Hin|Hin];
      [now left|]. in_cases Hin. subst row. right. do 2 eexists. simpl.
    split; [left; reflexivity|reflexivity].
  - intros row Hin. now left.
Qed.

Lemma AgentEnd_trace (w : World) (sid : text)
    (call : Result (Stream AgentEvent)) (st st' : Store) (ds : list text)
    (tail : list Event) :
  AgentEnd w sid call st ds st' tail ->
  (forall mid sid' c post,
      tail = mid ++ EvInsertMessage sid' AI c :: post ->
      c <> [] /\
      (exists stream, call = Resolved stream /\ failure stream = None) /\
      enqueues post = [] /\
      Forall (fun e => is_open_event e = false) mid) /\
  (forall e, In (EvError e) tail ->
     call = Rejected e \/
     exists stream, call = Resolved stream /\ failure stream = Some e) /\
  ((exists stream, call = Resolved stream /\ failure stream = None) ->
   In EvClose tail /\ forall e, ~ In (EvError e) tail) /\
  Forall (fun e => is_open_event e = false) tail /\
  (forall row, In row (chat_messages st') ->
     In row (chat_messages st) \/
     exists k c, In (EvInsertMessage (session_id row) k c) tail /\
                 message row = to_stored k c).
Proof.
  intros H; inversion H; subst; unfold_locals;
    (split; [|split; [|split; [|split]]]).
  all: lazymatch goal with
       | |- forall mid sid' c post, _ = _ -> _ =>
         intros mid sid' c post E; find_ai_insert E;
         repeat split; eauto; repeat constructor
       | |- forall e, In (EvError e) _ -> _ =>
         intros e0 Hin; in_cases Hin;
         first [ injection Hin as <-; eauto | congruence ]
       | |- (exists _, _) -> _ =>
         intros (s0 & Hs0 & Hf0);
         first [ congruence
               | split; [simpl; tauto | intros e0 Hin; in_cases Hin] ]
       | |- _ => tail_facts
       end.
Qed.

(* ================================================================== *)
(** * When the assistant turn is saved *)
(* ================================================================== *)

(** A run that delivered no stream saved no assistant turn. *)
Lemma no_stream_no_answer (w : World) (t : list Event) :
  Forall (rejected_open w) t -> answer_saved_after_stream w t.
Proof.
  intros H pre sid c post E. exfalso.
  apply rejected_is_prefix in H.
  apply (prefix_no_ai_insert sid c H). rewrite E.
  apply in_or_app. right. now left.
Qed.

(** A streamed run, from what is known about its tail. *)
Lemma streamed_answer_saved (w : World) (t0 tail : list Event)
    (ds : list text) (Done : Prop) :
  Forall (fun e => prefix_event e = true) t0 ->
  (forall mid sid c post,
      tail = mid ++ EvInsertMessage sid AI c :: post ->
      c <> [] /\ Done /\ enqueues post = []) ->
  (Done -> opened w t0 None) ->
  (Done -> forall e, ~ In (EvError e) tail) ->
  answer_saved_after_stream w (t0 ++ map EvEnqueue ds ++ tail).
Proof.
  intros H0 H1 H2 H3 pre sid c post E.
  apply ai_insert_in_tail in E as (mid & -> & Et); [|exact H0].
  destruct (H1 _ _ _ _ Et) as (Hc & Hd & Hq).
  split; [exact Hc|]. split; [apply opened_app_l; auto|].
  split; [exact Hq|].
  intros e Hin. apply in_app_iff in Hin as [Hin|Hin];
    [exact (prefix_no_error e H0 Hin)|].
  apply in_app_iff in Hin as [Hin|Hin].
  - apply In_enqueue in Hin as [x Hx]. discriminate.
  - exact (H3 Hd e Hin).
Qed.

(** Saved assistant rows are not empty. *)
Lemma saved_answers_nonempty (w : World) (st : Store) (s' : State) :
  answer_saved_after_stream w (trace s') ->
  rows_are_recorded st s' ->
  forall row,
    In row (chat_messages (store s')) ->
    m_type (message row) = Some #"ai" ->
    In row (chat_messages st) \/
    exists c, c <> [] /\ m_content (message row) = Some c /\
              In (EvInsertMessage (session_id row) AI c) (trace s').
Proof.
  intros Ha Hr row Hin Hty.
  destruct (Hr row Hin) as [Hold | (k & c & Hev & Hm)]; [now left|].
  right. rewrite Hm in Hty. simpl in Hty. injection Hty as Hty.
  apply stored_type_ai in Hty. subst k.
  exists c. rewrite Hm. simpl. split; [|auto].
  apply in_split in Hev as (pre & post & E).
  exact (proj1 (Ha _ _ _ _ E)).
Qed.

Lemma Gemini_answer_saved (w : World) (req : Request) (st : Store) :
  let s' := snd (run (Gemini.POST w req) st) in
  answer_saved_after_stream w (trace s') /\ rows_are_recorded st s'.
Proof.
  intros s'. subst s'.
  destruct (Gemini_POST_cases w req st)
    as [(resp & st1 & t1 & E & _ & Hp & Ht)
       | (sid & input & db & p & stream & st1 & t1 & st' & tail
          & E & Hp & Ht & Hs & Hi & Hend)];
    rewrite E; cbn [snd store trace];
    apply Prepared_tables in Hp as [Hm _].
  - split; [now apply no_stream_no_answer|].
    intros row Hin. cbn [store] in Hin. rewrite Hm in Hin. now left.
  - apply GeminiEnd_trace in Hend as (T1 & T2 & T3 & _ & T5).
    assert (H0 : Forall (fun e => prefix_event e = true)
                        (t1 ++ [EvModelStream p])).
    { apply Forall_app. split; [now apply setup_is_prefix|].
      repeat constructor. }
    split.
    + apply streamed_answer_saved with (Done := failure stream = None); auto.
      * intros mid sid' c post Et.
        destruct (T1 _ _ _ _ Et) as (? & ? & ? & _). auto.
      * intros Hf. rewrite <- Hf. now apply opened_model_stream.
      * intros Hf. apply T3. exact Hf.
    + intros row Hin. cbn [store trace] in *.
      destruct (T5 row Hin) as [Hold | (k & c & Hev & Hmsg)].
      * left. now rewrite <- Hm.
      * right. exists k, c. split; [|exact Hmsg].
        apply in_or_app. right. apply in_or_app. now right.
Qed.

Lemma Rag_answer_saved (w : World) (req : Request) (st : Store) :
  let s' := snd (run (Rag.POST w req) st) in
  answer_saved_after_stream w (trace s') /\ rows_are_recorded st s'.
Proof.
  intros s'. subst s'.
  destruct (Rag_POST_cases w req st)
    as [(resp & st1 & t1 & E & _ & Hp & Ht)
       | (sid & input & stream & st1 & st2 & t1 & uev & canSave & st'
          & tail & E & Hp & Ht & _ & Hli & Hi & Hs & Hu & Hend)];
    rewrite E; cbn [snd store trace];
    apply Prepared_tables in Hp as [Hm _].
  - split; [now apply no_stream_no_answer|].
    intros row Hin. cbn [store] in Hin. rewrite Hm in Hin. now left.
  - apply RagEnd_trace in Hend as (T1 & T2 & T3 & _ & T5).
    apply UserSaved_trace in Hu as (U1 & _ & _ & U4).
    match goal with
    | |- context [(t1 ++ [EvModelStream ?q]) ++ uev] => set (p := q) in *
    end.
    assert (H0 : Forall (fun e => prefix_event e = true)
                        ((t1 ++ [EvModelStream p]) ++ uev)).
    { repeat (apply Forall_app; split); auto using setup_is_prefix;
        repeat constructor. }
    split.
    + apply streamed_answer_saved with (Done := failure stream = None); auto.
      * intros mid sid' c post Et.
        destruct (T1 _ _ _ _ Et) as (? & ? & ? & _). auto.
      * intros Hf. rewrite <- Hf. apply opened_app_l.
        now apply opened_model_stream.
      * intros Hf. apply T3. exact Hf.
    + intros row Hin. cbn [store trace] in *.
      destruct (T5 row Hin) as [Hold | (k & c & Hev & Hmsg)].
      * destruct (U4 row Hold) as [Hold' | (k & c & Hev & Hmsg)].
        -- left. now rewrite <- Hm.
        -- right. exists k, c. split; [|exact Hmsg].
           apply in_or_app. left. apply in_or_app. now right.
      * right. exists k, c. split; [|exact Hmsg].
        apply in_or_app. right. apply in_or_app. now right.
Qed.

Lemma Agent_answer_saved (w : World) (req : Request) (st : Store) :
  let s' := snd (run (Agent.POST w req) st) in
  answer_saved_after_stream w (trace s') /\ rows_are_recorded st s'.
Proof.
  intros s'. subst s'.
  destruct (Agent_POST_cases w req st)
    as [(resp & st1 & t1 & E & _ & Hst & Ht & Hno)
       | (input & ds & st' & tail & E & Hin & Hi & Hf & Hend)];
    rewrite E; cbn [snd store trace].
  - split; [now apply no_stream_no_answer|].
    intros row Hrow. cbn [store trace] in *.
    destruct Hst as [->|(input & _ & -> & Hev)]; [now left|].
    simpl in Hrow. apply in_app_iff in Hrow as [Hrow|Hrow]; [now left|].
    in_cases Hrow. subst row. right. do 2 eexists.
    split; [exact Hev|reflexivity].
  - apply AgentEnd_trace in Hend as (T1 & T2 & T3 & _ & T5).
    set (sid := agent_session w req) in *.
    set (st1 := add_row st (row_of w st sid Human input)) in *.
    set (hist := Db.loadAll st1 sid) in *.
    assert (H0 : Forall (fun e => prefix_event e = true)
                        ([EvInsertMessage sid Human input]
                           ++ [EvAgentStream hist])).
    { repeat constructor. }
    split.
    + apply streamed_answer_saved
        with (Done := exists stream, streamEvents w hist = Resolved stream
                                     /\ failure stream = None); auto.
      * intros mid sid' c post Et.
        destruct (T1 _ _ _ _ Et) as (? & ? & ? & _). auto.
      * intros (stream & Hc & Hfl). right. exists hist, stream.
        split; [|auto]. right. now left.
      * intros Hd. apply T3. exact Hd.
    + intros row Hrow. cbn [store trace] in *.
      destruct (T5 row Hrow) as [Hold | (k & c & Hev & Hmsg)].
      * subst st1. simpl in Hold.
        apply in_app_iff in Hold as [Hold|Hold]; [now left|].
        in_cases Hold. subst row. right. do 2 eexists.
        split; [|reflexivity]. left. reflexivity.
      * right. exists k, c. split; [|exact Hmsg].
        apply in_or_app. right. apply in_or_app. now right.
Qed.

(** C6. In the three routes an assistant turn is appended only after the
    model stream has run to completion and only with non-empty content:
    wherever the trace of a turn records the appending of an assistant
    turn, its content is not empty, the stream was opened before it and
    ended without error, no chunk is enqueued after it and the stream is
    never put in the error state; every row found in the store after the
    turn was there before or was written by an insert the trace records;
    so every assistant row the turn added has non-empty content. *)
Theorem assistant_turn_saved_only_after_stream (route : Route) (w : World)
    (req : Request) (st : Store) :
  let s' := snd (run (POST_of route w req) st) in
  answer_saved_after_stream w (trace s') /\
  rows_are_recorded st s' /\
  (forall row,
      In row (chat_messages (store s')) ->
      m_type (message row) = Some #"ai" ->
      In row (chat_messages st) \/
      exists c, c <> [] /\ m_content (message row) = Some c /\
                In (EvInsertMessage (session_id row) AI c) (trace s')).
Proof.
  intros s'.
  assert (H : answer_saved_after_stream w (trace s') /\
              rows_are_recorded st s').
  { subst s'. destruct route; unfold POST_of.
    - apply Gemini_answer_saved.
    - apply Rag_answer_saved.
    - apply Agent_answer_saved. }
  destruct H as [Ha Hr]. split; [exact Ha|]. split; [exact Hr|].
  now apply (saved_answers_nonempty (w := w)).
Qed.

(** In the calm sample the property is not vacuous: the answer is saved,
    after the two chunks were enqueued. *)
Example calm_turn_saves_answer :
  let s' := snd (run (Rag.POST Sample.calm Sample.next_turn)
                     Sample.one_session) in
  enqueues (trace s') = [#"Hi"; #" there"] /\
  In (EvInsertMessage #"s0" AI #"Hi there") (trace s') /\
  map (fun r => m_content (message r)) (Db.rows_of (store s') #"s0")
  = [Some #"Hello"; Some #"Hi, how can I help?"; Some #"What is RAG?";
     Some #"Hi there"].
Proof.
  vm_compute. split; [reflexivity|]. split; [|reflexivity].
  repeat (first [left; reflexivity | right]).
Qed.

(* ================================================================== *)
(** * A turn whose model call fails *)
(* ================================================================== *)

(** C1, as stated, fails in the Gemini route: the stream breaks after one
    chunk, the caller gets a stream in the error state, and the history of
    the session is what it was before: the user turn is not in it. *)
Lemma gemini_user_turn_lost_on_stream_error :
  let w := Sample.with_chain_stream Sample.calm
             (Resolved Sample.broken_stream) in
  let r := run (Gemini.POST w Sample.next_turn) Sample.one_session in
  fst r = Return (StreamResponse (Some #"s0")) /\
  In (EvError Sample.network_error) (trace (snd r)) /\
  store (snd r) = Sample.one_session /\
  map content (Db.loadAll (store (snd r)) #"s0")
  = [#"Hello"; #"Hi, how can I help?"].
Proof.
  vm_compute. split; [reflexivity|]. split; [|split; reflexivity].
  repeat (first [left; reflexivity | right]).
Qed.

(** The opening call of a streamed run is the only one in its trace. *)
Lemma open_event_unique (t1 rest : list Event) (o x : Event) :
  Forall (fun e => is_open_event e = false) t1 ->
  Forall (fun e => is_open_event e = false) rest ->
  is_open_event x = true ->
  In x ((t1 ++ [o]) ++ rest) -> x = o.
Proof.
  intros H1 H2 Hx Hin. rewrite Forall_forall in H1, H2.
  apply in_app_iff in Hin as [Hin|Hin].
  - apply in_app_iff in Hin as [Hin|Hin].
    + apply H1 in Hin. congruence.
    + in_cases Hin. auto.
  - apply H2 in Hin. congruence.
Qed.

Lemma enqueue_not_open (ds : list text) :
  Forall (fun e => is_open_event e = false) (map EvEnqueue ds).
Proof.
  apply Forall_forall. intros x H. apply In_enqueue in H as [c ->].
  reflexivity.
Qed.

Lemma error_in_tail (t0 tail : list Event) (ds : list text) (e : Error) :
  Forall (fun e => prefix_event e = true) t0 ->
  In (EvError e) (t0 ++ map EvEnqueue ds ++ tail) -> In (EvError e) tail.
Proof.
  intros H0 Hin. apply in_app_iff in Hin as [Hin|Hin];
    [exfalso; exact (prefix_no_error e H0 Hin)|].
  apply in_app_iff in Hin as [Hin|Hin]; [|exact Hin].
  apply In_enqueue in Hin as [x Hx]. discriminate.
Qed.

Lemma ai_insert_in_tail_In (t0 tail : list Event) (ds : list text)
    (sid c : text) :
  Forall (fun e => prefix_event e = true) t0 ->
  In (EvInsertMessage sid AI c) (t0 ++ map EvEnqueue ds ++ tail) ->
  In (EvInsertMessage sid AI c) tail.
Proof.
  intros H0 Hin. apply in_app_iff in Hin as [Hin|Hin];
    [exfalso; exact (prefix_no_ai_insert sid c H0 Hin)|].
  apply in_app_iff in Hin as [Hin|Hin]; [|exact Hin].
  apply In_enqueue in Hin as [x Hx]. discriminate.
Qed.

(** A streamed run fails only by its stream. *)
Lemma streamed_failure (w : World) (t1 uev tail : list Event)
    (ds : list text) (p : Prompt) (stream : Stream text) :
  Forall (fun e => setup_event e = true) t1 ->
  Forall (fun e => prefix_event e = true) uev ->
  Forall (fun e => is_open_event e = false) uev ->
  Forall (fun e => is_open_event e = false) tail ->
  chain_stream w p = Resolved stream ->
  (forall e, In (EvError e) tail -> failure stream = Some e) ->
  turn_failed w (((t1 ++ [EvModelStream p]) ++ uev)
                 ++ map EvEnqueue ds ++ tail) ->
  failure stream <> None.
Proof.
  intros H1 Hu Hu' Ht Hs T2 [(e & Hin) | (p' & e & Hin & Hr)].
  - apply error_in_tail in Hin.
    + rewrite (T2 e Hin). discriminate.
    + repeat (apply Forall_app; split); auto using setup_is_prefix;
        repeat constructor.
  - rewrite <- app_assoc in Hin.
    apply open_event_unique in Hin; auto using setup_not_open.
    + injection Hin as ->. congruence.
    + repeat (apply Forall_app; split); auto using enqueue_not_open.
Qed.

Lemma Gemini_failed_turn (w : World) (req : Request) (st : Store) :
  let s' := snd (run (Gemini.POST w req) st) in
  turn_failed w (trace s') ->
  (forall sid c, ~ In (EvInsertMessage sid AI c) (trace s')) /\
  chat_messages (store s') = chat_messages st.
Proof.
  intros s'. subst s'.
  destruct (Gemini_POST_cases w req st)
    as [(resp & st1 & t1 & E & _ & Hp & Ht)
       | (sid & input & db & p & stream & st1 & t1 & st' & tail
          & E & Hp & Ht & Hs & Hi & Hend)];
    rewrite E; cbn [snd store trace]; intros Hfail;
    apply Prepared_tables in Hp as [Hm _].
  - split; [|exact Hm]. intros sid c.
    apply prefix_no_ai_insert. exact (rejected_is_prefix Ht).
  - pose proof (GeminiEnd_tables Hend) as (_ & added & Em & Hadd & _).
    apply GeminiEnd_trace in Hend as (T1 & T2 & _ & T4 & _).
    assert (Hfl : failure stream <> None).
    { rewrite <- (app_nil_r (t1 ++ [EvModelStream p])) in Hfail.
      eapply streamed_failure with (uev := []); eauto. }
    split.
    + intros sid' c Hin. apply ai_insert_in_tail_In in Hin.
      * apply in_split in Hin as (mid & post & Et).
        destruct (T1 _ _ _ _ Et) as (_ & Hnone & _). contradiction.
      * apply Forall_app. split; [now apply setup_is_prefix|].
        repeat constructor.
    + rewrite Em, (Hadd Hfl), app_nil_r. exact Hm.
Qed.

Lemma RagEnd_failed (w : World) (sid input answer : text) (p : Prompt)
    (hasErr canSave : bool) (fl : option Error) (st st' : Store)
    (tail : list Event) :
  RagEnd w sid input answer p hasErr canSave fl st st' tail ->
  fl <> None -> exists e, In (EvError e) tail.
Proof.
  intros H Hfl; inversion H; subst; try contradiction.
  eexists. left. reflexivity.
Qed.

Lemma Rag_failed_turn (w : World) (req : Request) (st : Store) :
  let s' := snd (run (Rag.POST w req) st) in
  turn_failed w (trace s') ->
  (forall sid c, ~ In (EvInsertMessage sid AI c) (trace s')) /\
  (chat_messages (store s') = chat_messages st \/
   exists row input,
     chat_messages (store s') = chat_messages st ++ [row] /\
     Rag.last_input (messages req) = Some input /\
     message row = to_stored Human input) /\
  ((exists e, In (EvError e) (trace s')) ->
   db_fault w AtAddUser = None ->
   exists row input,
     chat_messages (store s') = chat_messages st ++ [row] /\
     Rag.last_input (messages req) = Some input /\
     message row = to_stored Human input) /\
  ((forall e, ~ In (EvError e) (trace s')) ->
   chat_messages (store s') = chat_messages st) /\
  (db_fault w AtAddUser <> None ->
   chat_messages (store s') = chat_messages st).
Proof.
  intros s'. subst s'.
  destruct (Rag_POST_cases w req st)
    as [(resp & st1 & t1 & E & _ & Hp & Ht)
       | (sid & input & stream & st1 & st2 & t1 & uev & canSave & st'
          & tail & E & Hp & Ht & _ & Hli & Hi & Hs & Hu & Hend)];
    rewrite E; cbn [snd store trace]; intros Hfail;
    apply Prepared_tables in Hp as [Hm _].
  - split; [|split; [now left|split; [|split; auto]]].
    + intros sid c. apply prefix_no_ai_insert. exact (rejected_is_prefix Ht).
    + intros (e & Hin) _. exfalso.
      apply rejected_is_prefix in Ht. exact (prefix_no_error e Ht Hin).
  - pose proof (RagEnd_tables Hend) as (_ & added & Em & Hadd & _).
    pose proof (RagEnd_failed Hend) as Herr.
    apply RagEnd_trace in Hend as (T1 & T2 & _ & T4 & _).
    pose proof (UserSaved_tables Hu) as (_ & Hcases).
    apply UserSaved_trace in Hu as (U1 & U2 & _ & _).
    assert (Hfl : failure stream <> None).
    { eapply streamed_failure; eauto. }
    rewrite Em, (Hadd Hfl), app_nil_r.
    split; [|split; [|split; [|split]]].
    + intros sid' c Hin. apply ai_insert_in_tail_In in Hin.
      * apply in_split in Hin as (mid & post & Et).
        destruct (T1 _ _ _ _ Et) as (_ & Hnone & _). contradiction.
      * repeat (apply Forall_app; split); auto using setup_is_prefix;
          repeat constructor.
    + destruct Hcases as [(_ & -> & _) | (_ & _ & ->)]; [now left|].
      right. do 2 eexists. simpl. rewrite Hm. repeat split. exact Hli.
    + intros _ Hok.
      destruct Hcases as [(_ & _ & Hno) | (_ & _ & ->)]; [contradiction|].
      do 2 eexists. simpl. rewrite Hm. repeat split. exact Hli.
    + intros Hnone. exfalso. destruct (Herr Hfl) as [e He].
      apply (Hnone e). apply in_or_app. right. apply in_or_app. now right.
    + intros Hbad.
      destruct Hcases as [(_ & -> & _) | (_ & Hok & _)];
        [exact Hm | contradiction].
Qed.

Lemma Agent_failed_turn (w : World) (req : Request) (st : Store) :
  let s' := snd (run (Agent.POST w req) st) in
  (forall sid c, In (EvInsertMessage sid AI c) (trace s') ->
                 forall e, ~ In (EvError e) (trace s')) /\
  ((exists e, In (EvError e) (trace s')) ->
   exists row input,
     chat_messages (store s') = chat_messages st ++ [row] /\
     Agent.input_content (messages req) = Some input /\
     message row = to_stored Human input /\
     session_id row = agent_session w req).
Proof.
  intros s'. subst s'.
  destruct (Agent_POST_cases w req st)
    as [(resp & st1 & t1 & E & _ & Hst & Ht & Hno)
       | (input & ds & st' & tail & E & Hin & Hi & Hf & Hend)];
    rewrite E; cbn [snd store trace].
  - apply rejected_is_prefix in Ht. split.
    + intros sid c Hai. exfalso. exact (prefix_no_ai_insert sid c Ht Hai).
    + intros (e & He). exfalso. exact (prefix_no_error e Ht He).
  - pose proof (AgentEnd_tables Hend) as (_ & added & Em & Hadd).
    apply AgentEnd_trace in Hend as (T1 & T2 & T3 & _ & _).
    set (sid := agent_session w req) in *.
    set (st1 := add_row st (row_of w st sid Human input)) in *.
    set (hist := Db.loadAll st1 sid) in *.
    assert (H0 : Forall (fun e => prefix_event e = true)
                        ([EvInsertMessage sid Human input]
                           ++ [EvAgentStream hist])).
    { repeat constructor. }
    split.
    + intros sid' c Hai e He.
      apply ai_insert_in_tail_In in Hai; [|exact H0].
      apply error_in_tail in He; [|exact H0].
      apply in_split in Hai as (mid & post & Et).
      destruct (T1 _ _ _ _ Et) as (_ & Hdone & _).
      exact (proj2 (T3 Hdone) e He).
    + intros (e & He). apply error_in_tail in He; [|exact H0].
      exists (row_of w st sid Human input), input.
      split; [|repeat split; auto].
      rewrite Em.
      destruct Hadd as [->|(a & -> & _ & _ & _ & stream & Hc & Hfl)].
      * now rewrite app_nil_r.
      * exfalso. refine (proj2 (T3 _) e He). eauto.
Qed.

Lemma Agent_no_model_stream (w : World) (req : Request) (st : Store)
    (p : Prompt) :
  ~ In (EvModelStream p) (trace (snd (run (Agent.POST w req) st))).
Proof.
  destruct (Agent_POST_cases w req st)
    as [(resp & st1 & t1 & E & _ & Hst & Ht & Hno)
       | (input & ds & st' & tail & E & Hin & Hi & Hf & Hend)];
    rewrite E; cbn [snd store trace]; intros H.
  - rewrite Forall_forall in Hno. apply Hno in H. discriminate.
  - apply AgentEnd_trace in Hend as (_ & _ & _ & T4 & _).
    apply in_app_iff in H as [H|H]; [in_cases H|].
    apply in_app_iff in H as [H|H].
    + apply In_enqueue in H as [c Hc]. discriminate.
    + rewrite Forall_forall in T4. apply T4 in H. discriminate.
Qed.

(** C1 (amended). When the model call of a turn fails (the stream is put
    in the error state, or the call that opens it is rejected) no assistant
    turn is recorded, in any of the three routes.  What is kept of the user
    turn depends on the route.  The Gemini route writes the user turn only
    together with the assistant turn, after the stream has completed, so a
    failed turn leaves the stored turns as they were.  The RAG route
    writes the user turn after the stream is opened and before it is read:
    a failed turn adds at most that one row; it adds it when the stream
    broke while being read and the write itself succeeded, and it leaves
    the stored turns as they were when the opening call was rejected (the
    stream is never put in the error state) or the write failed.  The
    agent route writes the user turn before the model is called: a turn
    whose stream fails has added exactly that row. *)
Theorem failed_exchange_saves_no_answer (route : Route) (w : World)
    (req : Request) (st : Store) :
  let s' := snd (run (POST_of route w req) st) in
  turn_failed w (trace s') ->
  (forall sid c, ~ In (EvInsertMessage sid AI c) (trace s')) /\
  match route with
  | GeminiRoute => chat_messages (store s') = chat_messages st
  | RagRoute =>
    (chat_messages (store s') = chat_messages st \/
     exists row input,
       chat_messages (store s') = chat_messages st ++ [row] /\
       Rag.last_input (messages req) = Some input /\
       message row = to_stored Human input) /\
    ((exists e, In (EvError e) (trace s')) ->
     db_fault w AtAddUser = None ->
     exists row input,
       chat_messages (store s') = chat_messages st ++ [row] /\
       Rag.last_input (messages req) = Some input /\
       message row = to_stored Human input) /\
    ((forall e, ~ In (EvError e) (trace s')) ->
     chat_messages (store s') = chat_messages st) /\
    (db_fault w AtAddUser <> None ->
     chat_messages (store s') = chat_messages st)
  | AgentRoute =>
    exists row input,
      chat_messages (store s') = chat_messages st ++ [row] /\
      Agent.input_content (messages req) = Some input /\
      message row = to_stored Human input /\
      session_id row = agent_session w req
  end.
Proof.
  intros s' Hfail. subst s'. destruct route; unfold POST_of in *.
  - now apply Gemini_failed_turn.
  - destruct (@Rag_failed_turn w req st Hfail) as (H1 & H2 & H3 & H4 & H5).
    auto.
  - assert (He : exists e,
               In (EvError e) (trace (snd (run (Agent.POST w req) st)))).
    { destruct Hfail as [He | (p & e & Hin & _)]; [exact He|].
      exfalso. exact (@Agent_no_model_stream w req st p Hin). }
    destruct (@Agent_failed_turn w req st) as (H1 & H2). split.
    + intros sid c Hai. destruct He as (e & He). exact (H1 sid c Hai e He).
    + exact (H2 He).
Qed.

Lemma failed_exchange_saves_no_answer_witness :
  let w := Sample.with_chain_stream Sample.calm
             (Resolved Sample.broken_stream) in
  let s' := snd (run (POST_of RagRoute w Sample.next_turn)
                     Sample.one_session) in
  turn_failed w (trace s') /\
  (forall sid c, ~ In (EvInsertMessage sid AI c) (trace s')) /\
  (exists row input,
      chat_messages (store s')
      = chat_messages Sample.one_session ++ [row] /\
      Rag.last_input (messages Sample.next_turn) = Some input /\
      message row = to_stored Human input).
Proof.
  intros w s'.
  assert (Hfail : turn_failed w (trace s')).
  { left. exists Sample.network_error. vm_compute.
    repeat (first [left; reflexivity | right]). }
  split; [exact Hfail|].
  pose proof (@failed_exchange_saves_no_answer RagRoute w Sample.next_turn
                Sample.one_session Hfail) as (H1 & _ & H3 & _).
  split; [exact H1|].
  apply H3; [|reflexivity].
  exists Sample.network_error. vm_compute.
  repeat (first [left; reflexivity | right]).
Defined.

(* ================================================================== *)
(** * The stream of a run *)
(* ================================================================== *)

Lemma model_stream_unique (t1 uev tail : list Event) (ds : list text)
    (p : Prompt) (x : Event) :
  Forall (fun e => setup_event e = true) t1 ->
  Forall (fun e => is_open_event e = false) uev ->
  Forall (fun e => is_open_event e = false) tail ->
  is_open_event x = true ->
  In x (((t1 ++ [EvModelStream p]) ++ uev) ++ map EvEnqueue ds ++ tail) ->
  x = EvModelStream p.
Proof.
  intros H1 Hu Ht Hx Hin. rewrite <- app_assoc in Hin.
  apply open_event_unique in Hin; auto using setup_not_open.
  repeat (apply Forall_app; split); auto using enqueue_not_open.
Qed.

Lemma opened_stream_completed (w : World) (t1 uev tail : list Event)
    (ds : list text) (p : Prompt) (stream : Stream text) :
  Forall (fun e => setup_event e = true) t1 ->
  Forall (fun e => is_open_event e = false) uev ->
  Forall (fun e => is_open_event e = false) tail ->
  chain_stream w p = Resolved stream ->
  opened w (((t1 ++ [EvModelStream p]) ++ uev) ++ map EvEnqueue ds ++ tail)
         None ->
  failure stream = None.
Proof.
  intros H1 Hu Ht Hs [(p' & s' & Hin & Hr & Hf) | (ms & s' & Hin & _)];
    apply model_stream_unique in Hin; auto.
  - injection Hin as ->. congruence.
  - discriminate.
Qed.

Lemma opened_run_completes (t0 tail : list Event) (ds : list text) :
  Forall (fun e => prefix_event e = true) t0 ->
  In EvClose tail -> (forall e, ~ In (EvError e) tail) ->
  In EvClose (t0 ++ map EvEnqueue ds ++ tail) /\
  forall e, ~ In (EvError e) (t0 ++ map EvEnqueue ds ++ tail).
Proof.
  intros H0 Hc He. split.
  - apply in_or_app. right. apply in_or_app. now right.
  - intros e Hin. apply error_in_tail in Hin; [|exact H0]. exact (He e Hin).
Qed.

(* ================================================================== *)
(** * Failures after the stream *)
(* ================================================================== *)

Lemma find_app_session (f : SessionRow -> bool) (a b : list SessionRow) :
  find f (a ++ b) = match find f a with Some r => Some r | None => find f b end.
Proof.
  induction a as [|x a IH]; simpl; [reflexivity|].
  destruct (f x); [reflexivity | exact IH].
Qed.

(** Resolving the session leaves every summary as it was: a session row
    that is created has no summary. *)
Lemma Prepared_summaries (w : World) (req : Request) (P : text -> Prop)
    (st st1 : Store) (sid : text) :
  Prepared w req P st st1 -> Db.summary_of st1 sid = Db.summary_of st sid.
Proof.
  intros H. apply Prepared_tables in H as [_ [E | (row & E & _ & Hs & _)]];
    unfold Db.summary_of; rewrite E; [reflexivity|].
  rewrite find_app_session.
  destruct (find _ (chat_sessions st)); [reflexivity|].
  simpl. destruct (JS.eqb (id row) sid); [now rewrite Hs | reflexivity].
Qed.

Lemma summary_of_sessions (st st' : Store) (sid : text) :
  chat_sessions st' = chat_sessions st ->
  Db.summary_of st' sid = Db.summary_of st sid.
Proof. intros E. unfold Db.summary_of. now rewrite E. Qed.

(** Events of a class that setup, the opening of the stream and the
    enqueued chunks do not contain are events of the tail. *)
Lemma class_in_tail (P : Event -> bool) (t0 tail : list Event)
    (ds : list text) (x : Event) :
  Forall (fun e => P e = false) t0 ->
  (forall c, P (EvEnqueue c) = false) ->
  P x = true ->
  In x (t0 ++ map EvEnqueue ds ++ tail) -> In x tail.
Proof.
  intros H0 Hq Hx Hin. rewrite Forall_forall in H0.
  apply in_app_iff in Hin as [Hin|Hin]; [apply H0 in Hin; congruence|].
  apply in_app_iff in Hin as [Hin|Hin]; [|exact Hin].
  apply In_enqueue in Hin as [c ->]. rewrite Hq in Hx. discriminate.
Qed.

Lemma setup_no_summary_event (t : list Event) :
  Forall (fun e => setup_event e = true) t ->
  Forall (fun e => is_summary_event e = false) t.
Proof.
  apply Forall_impl. intros [] H; simpl in *; try reflexivity;
    try discriminate.
  now destruct p.
Qed.

Lemma UserSaved_no_summary_event (w : World) (sid input : text)
    (st st2 : Store) (evs : list Event) (canSave : bool) :
  UserSaved w sid input st st2 evs canSave ->
  Forall (fun e => is_summary_event e = false) evs.
Proof. intros []; repeat constructor. Qed.

Ltac summarizer_case :=
  unfold summarizer_facts; split; [|split];
  [ intros p0 e0 Hin Hrej; in_cases Hin;
    try (injection Hin as <-);
    repeat match goal with
           | H : _ \/ _ |- _ => destruct H as [H | (? & H & ?)]
           end;
    try congruence;
    match goal with
    | H1 : chain_invoke _ ?q = Rejected ?a,
      H2 : chain_invoke _ ?q = Rejected ?b |- _ =>
      assert (a = b) by congruence; subst
    end;
    (split; [solve [eexists; simpl; eauto 8] | reflexivity])
  | intros mid sid0 c0 post E; find_ai_insert E;
    first [ solve [left; eexists; simpl; eauto 8]
          | solve [right; do 2 eexists; simpl; eauto 8] ]
  | intros Hno;
    first [ reflexivity | solve [exfalso; eapply Hno; simpl; eauto 8] ] ].

Lemma GeminiEnd_summarizer (w : World) (sid input answer : text)
    (p : Prompt) (fl : option Error) (st st' : Store) (tail : list Event) :
  GeminiEnd w sid input answer p fl st st' tail ->
  summarizer_facts w st st' tail.
Proof. intros H; inversion H; subst; unfold_locals; summarizer_case. Qed.

Lemma RagEnd_summarizer (w : World) (sid input answer : text) (p : Prompt)
    (hasErr canSave : bool) (fl : option Error) (st st' : Store)
    (tail : list Event) :
  RagEnd w sid input answer p hasErr canSave fl st st' tail ->
  summarizer_facts w st st' tail.
Proof. intros H; inversion H; subst; unfold_locals; summarizer_case. Qed.

(** A completed run of a summarizing route, seen from outside: the caller
    has the stream, closed and never in the error state; a rejected call
    of the summarizer is logged and leaves every summary as it was; after
    the assistant turn is appended, the summary of that session is written
    or a failure is logged; and without a write of the summary every
    summary is as it was. *)
Lemma completed_run_facts (w : World) (st st1 st2 st' : Store)
    (o : Outcome Response) (t0 tail : list Event) (ds : list text)
    (h : option text) :
  o = Return (StreamResponse h) ->
  Forall (fun e => prefix_event e = true) t0 ->
  Forall (fun e => is_summary_event e = false) t0 ->
  (forall sid, Db.summary_of st1 sid = Db.summary_of st sid) ->
  chat_sessions st2 = chat_sessions st1 ->
  In EvClose tail -> (forall e, ~ In (EvError e) tail) ->
  summarizer_facts w st2 st' tail ->
  let t := t0 ++ map EvEnqueue ds ++ tail in
  ((exists h', o = Return (StreamResponse h')) /\ In EvClose t /\
   (forall e, ~ In (EvError e) t)) /\
  (forall p e,
      In (EvModelInvoke p) t -> is_post_prompt p = true ->
      chain_invoke w p = Rejected e ->
      (exists label, In (EvLog label (error_message e)) t) /\
      forall sid, Db.summary_of st' sid = Db.summary_of st sid) /\
  (forall pre sid c post,
      t = pre ++ EvInsertMessage sid AI c :: post ->
      (exists s, In (EvUpdateSummary sid s) post) \/
      (exists label e, In (EvLog label (error_message e)) post)) /\
  ((forall sid s, ~ In (EvUpdateSummary sid s) t) ->
   forall sid, Db.summary_of st' sid = Db.summary_of st sid).
Proof.
  intros -> H0 H0s H1 H2 Hc He (S1 & S2 & S3) t. subst t.
  assert (Htail : forall x, In x tail -> In x (t0 ++ map EvEnqueue ds ++ tail)).
  { intros x Hx. apply in_or_app. right. apply in_or_app. now right. }
  split; [|split; [|split]].
  - split; [eauto|]. now apply opened_run_completes.
  - intros p e Hin Hpost Hrej.
    apply (class_in_tail is_summary_event) in Hin; auto.
    + destruct (S1 p e Hin Hrej) as ((label & Hlog) & Hs).
      split; [eauto|]. intros sid.
      rewrite (@summary_of_sessions _ _ sid Hs), (@summary_of_sessions _ _ sid H2).
      apply H1.
    + unfold is_summary_event. simpl. now rewrite Hpost.
  - intros pre sid c post E.
    apply ai_insert_in_tail in E as (mid & _ & E); [|exact H0].
    exact (S2 _ _ _ _ E).
  - intros Hno sid.
    assert (Hs : chat_sessions st' = chat_sessions st2).
    { apply S3. intros sid' s Hin. exact (Hno sid' s (Htail _ Hin)). }
    rewrite (@summary_of_sessions _ _ sid Hs), (@summary_of_sessions _ _ sid H2).
    apply H1.
Qed.

(* ================================================================== *)
(** * More on the history read route *)
(* ================================================================== *)

(** A history read without a session id, or with an empty one, is answered
    with status 400 before the store is contacted: no client is taken from
    the pool, nothing is logged, and the store is as it was. *)
Theorem history_read_needs_session_id (route : Route) (w : World)
    (sid : option text) (st : Store) :
  JS.truthy_opt sid = false ->
  run (GET_of route w sid) st
  = (Return (ErrorResponse 400 #"Session ID is required" None),
     {| store := st; trace := [] |}).
Proof.
  intros Hs. unfold run.
  destruct route; unfold GET_of, Gemini.GET, Rag.GET, Agent.GET,
    History.GET_with, try_catch;
    (destruct sid as [x|]; simpl in Hs; [rewrite Hs|]); reflexivity.
Qed.

Lemma history_read_needs_session_id_witness :
  run (GET_of GeminiRoute Sample.calm (Some [])) Sample.one_session
  = (Return (ErrorResponse 400 #"Session ID is required" None),
     {| store := Sample.one_session; trace := [] |}).
Proof.
  apply (@history_read_needs_session_id GeminiRoute Sample.calm (Some [])
           Sample.one_session).
  reflexivity.
Defined.

Lemma GET_with_run (w : World) (on_error : Error -> M Response)
    (sid : text) (st : Store) :
  JS.truthy sid = true ->
  run (History.GET_with w on_error (Some sid)) st
  = match db_fault w AtHistoryConnect with
    | Some e => on_error e {| store := st; trace := [] |}
    | None =>
      match db_fault w AtHistorySelect with
      | Some e =>
        on_error e {| store := st;
                      trace := [EvConnect AtHistoryConnect; EvRelease] |}
      | None =>
        (Return (HistoryResponse 200
                   (History.map_rows 0
                      (History.order_by_created_at (Db.rows_of st sid)))),
         {| store := st;
            trace := [EvConnect AtHistoryConnect; EvRelease] |})
      end
    end.
Proof.
  intros Ht. unfold run, History.GET_with, History.select_history.
  rewrite Ht. exec_red.
  destruct (db_fault w AtHistoryConnect); exec_red; [reflexivity|].
  destruct (db_fault w AtHistorySelect); exec_red; reflexivity.
Qed.

(** When the store fails a history read, the handler answers with status
    500 and leaves the store as it was.  A client that was taken from the
    pool is released before the answer is built: the trace is the taking
    and the release, if the connection was made, followed by the log of the
    error.  The Gemini route answers without details; the other two routes
    put the message of the error in the answer. *)
Theorem history_read_store_failure (route : Route) (w : World) (sid : text)
    (st : Store) (e : Error) :
  JS.truthy sid = true ->
  db_fault w AtHistoryConnect = Some e \/
  (db_fault w AtHistoryConnect = None /\ db_fault w AtHistorySelect = Some e) ->
  exists err label,
    run (GET_of route w (Some sid)) st
    = (Return (ErrorResponse 500 err (history_error_details route e)),
       {| store := st;
          trace :=
            (match db_fault w AtHistoryConnect with
             | Some _ => []
             | None => [EvConnect AtHistoryConnect; EvRelease]
             end) ++ [EvLog label (error_message e)] |}).
Proof.
  intros Ht Hf.
  destruct route; unfold GET_of, Gemini.GET, Rag.GET, Agent.GET;
    rewrite GET_with_run by exact Ht;
    (destruct Hf as [Hc | [Hc Hq]]; rewrite Hc; [|rewrite Hq]);
    exec_red; do 2 eexists; reflexivity.
Qed.

Lemma history_read_store_failure_witness :
  let w := {| db_fault := fun site =>
                match site with
                | AtHistorySelect => Some Sample.network_error
                | _ => None
                end;
              returning_id := returning_id Sample.calm;
              now := now Sample.calm;
              date_now := date_now Sample.calm;
              encode := encode Sample.calm;
              chain_stream := chain_stream Sample.calm;
              chain_invoke := chain_invoke Sample.calm;
              streamEvents := streamEvents Sample.calm;
              similaritySearchWithScore := similaritySearchWithScore Sample.calm;
              toUpperCase := toUpperCase Sample.calm |} in
  exists err label,
    run (GET_of RagRoute w (Some #"s0")) Sample.one_session
    = (Return (ErrorResponse 500 err
                 (Some (error_message Sample.network_error))),
       {| store := Sample.one_session;
          trace := [EvConnect AtHistoryConnect; EvRelease;
                    EvLog label (error_message Sample.network_error)] |}).
Proof.
  intros w.
  apply (@history_read_store_failure RagRoute w #"s0" Sample.one_session
           Sample.network_error).
  - vm_compute. reflexivity.
  - right. split; reflexivity.
Defined.

(** A history read never writes and never keeps a client: whatever the
    session id and whatever the store answers, the store after the read is
    the store before it, and the trace holds as many releases as
    connections, at most one of each. *)
Theorem history_read_is_read_only (route : Route) (w : World)
    (sid : option text) (st : Store) :
  let s' := snd (run (GET_of route w sid) st) in
  store s' = st /\
  connects (trace s') = releases (trace s') /\
  connects (trace s') <= 1.
Proof.
  intros s'. subst s'.
  destruct (JS.truthy_opt sid) eqn:Hs.
  - destruct sid as [x|]; [|discriminate]. simpl in Hs.
    destruct route; unfold GET_of, Gemini.GET, Rag.GET, Agent.GET;
      rewrite GET_with_run by exact Hs;
      destruct (db_fault w AtHistoryConnect);
      [| destruct (db_fault w AtHistorySelect) | | destruct (db_fault w AtHistorySelect) | | destruct (db_fault w AtHistorySelect)];
      exec_red; simpl; auto.
  - unfold run.
    destruct route; unfold GET_of, Gemini.GET, Rag.GET, Agent.GET,
      History.GET_with, try_catch;
      (destruct sid as [x|]; simpl in Hs; [rewrite Hs|]); simpl; auto.
Qed.

Lemma map_rows_ids (rows : list MessageRow) (i : nat) :
  map h_id (History.map_rows i rows)
  = map (fun k => #"history-" ++ JS.of_nat k) (seq i (List.length rows)).
Proof.
  revert i; induction rows as [|r rows IH]; intros i; simpl;
    [reflexivity|]. now rewrite IH.
Qed.

(** A successful history read numbers its messages by position: the ids
    are "history-0", "history-1", ... in the order returned, one per row
    of the message table that carries the session id, and the contents
    returned are the contents of those rows, none lost and none repeated:
    a text is among the returned contents exactly when a stored row of the
    session has it as content. *)
Theorem history_ids_are_positions (route : Route) (w : World) (sid : text)
    (st : Store) :
  JS.truthy sid = true ->
  db_fault w AtHistoryConnect = None ->
  db_fault w AtHistorySelect = None ->
  let stored :=
    filter (fun r => JS.eqb (session_id r) sid) (chat_messages st) in
  exists msgs,
    fst (run (GET_of route w (Some sid)) st)
    = Return (HistoryResponse 200 msgs) /\
    map h_id msgs
    = map (fun k => #"history-" ++ JS.of_nat k)
          (seq 0 (List.length stored)) /\
    Permutation (map h_content msgs)
                (map (fun r => History.content_of (message r)) stored) /\
    (forall c,
        In c (map h_content msgs) <->
        exists r, In r (chat_messages st) /\ session_id r = sid /\
                  History.content_of (message r) = c).
Proof.
  intros Ht Hc Hq stored.
  change stored with (Db.rows_of st sid). clear stored.
  exists (History.map_rows 0
            (History.order_by_created_at (Db.rows_of st sid))).
  assert (Hp : Permutation
                 (map h_content
                      (History.map_rows 0
                         (History.order_by_created_at (Db.rows_of st sid))))
                 (map (fun r => History.content_of (message r))
                      (Db.rows_of st sid))).
  { rewrite map_rows_contents. apply Permutation_map. symmetry.
    apply order_perm. }
  split; [|split; [|split]].
  - destruct route; unfold GET_of, Gemini.GET, Rag.GET, Agent.GET;
      rewrite GET_with_run by exact Ht; rewrite Hc, Hq; reflexivity.
  - rewrite map_rows_ids. do 2 f_equal.
    apply Permutation_length. symmetry. apply order_perm.
  - exact Hp.
  - intros c. split.
    + intros Hin. eapply Permutation_in in Hin; [|exact Hp].
      apply in_map_iff in Hin as (r & <- & Hr).
      apply rows_of_In in Hr as [Hr Hs]. exists r. auto.
    + intros (r & Hr & Hs & <-).
      eapply Permutation_in; [symmetry; exact Hp|].
      apply in_map_iff. exists r. split; [reflexivity|].
      unfold Db.rows_of. apply filter_In. split; [exact Hr|].
      subst sid. apply eqb_refl.
Qed.

Lemma history_ids_are_positions_witness :
  let stored :=
    filter (fun r => JS.eqb (session_id r) #"s0")
           (chat_messages Sample.one_session) in
  exists msgs,
    fst (run (GET_of AgentRoute Sample.calm (Some #"s0")) Sample.one_session)
    = Return (HistoryResponse 200 msgs) /\
    map h_id msgs
    = map (fun k => #"history-" ++ JS.of_nat k)
          (seq 0 (List.length stored)) /\
    Permutation (map h_content msgs)
                (map (fun r => History.content_of (message r)) stored) /\
    (forall c,
        In c (map h_content msgs) <->
        exists r, In r (chat_messages Sample.one_session) /\
                  session_id r = #"s0" /\
                  History.content_of (message r) = c).
Proof.
  apply (@history_ids_are_positions AgentRoute Sample.calm #"s0"
           Sample.one_session); vm_compute; reflexivity.
Defined.

(* ================================================================== *)
(** * More on the token counter and the message mapping *)
(* ================================================================== *)

(** The token count of a sequence of messages is the sum of the counts of
    its parts: counting a concatenation gives the sum of the two counts,
    so the count never decreases when messages are added. *)
Theorem tiktokenCounter_additive (w : World) (a b : list BaseMessage) :
  Tokens.tiktokenCounter w (a ++ b)
  = (Tokens.tiktokenCounter w a + Tokens.tiktokenCounter w b)%N /\
  (Tokens.tiktokenCounter w a <= Tokens.tiktokenCounter w (a ++ b))%N.
Proof.
  rewrite !tiktokenCounter_total, total_cost_app. split; lia.
Qed.

(** The token count does not depend on the order of the messages. *)
Theorem tiktokenCounter_order_free (w : World) (a b : list BaseMessage) :
  Permutation a b ->
  Tokens.tiktokenCounter w a = Tokens.tiktokenCounter w b.
Proof.
  intros H. rewrite !tiktokenCounter_total.
  induction H; simpl; lia.
Qed.

Lemma tiktokenCounter_order_free_witness :
  let h := {| ref := 0; kind := Human; content := #"Hello" |} in
  let a := {| ref := 1; kind := AI; content := #"Hi there" |} in
  Tokens.tiktokenCounter Sample.calm [h; a]
  = Tokens.tiktokenCounter Sample.calm [a; h].
Proof.
  intros h a.
  apply (@tiktokenCounter_order_free Sample.calm [h; a] [a; h]).
  apply perm_swap.
Defined.

Lemma kind_of_role_cases (role : text) :
  (role = #"assistant" /\ Gemini.kind_of_role role = AI) \/
  (role <> #"assistant" /\ Gemini.kind_of_role role = Human).
Proof.
  unfold Gemini.kind_of_role.
  destruct (JS.eqb role #"user") eqn:Eu.
  - right. apply eqb_eq in Eu. subst role. split; [|reflexivity].
    intros E. apply (f_equal (fun l => List.length l)) in E.
    vm_compute in E. discriminate.
  - destruct (JS.eqb role #"assistant") eqn:Ea.
    + left. apply eqb_eq in Ea. auto.
    + right. split; [|reflexivity]. intros ->. rewrite eqb_refl in Ea.
      discriminate.
Qed.

(** The mapping of the request's messages keeps their number and order and
    produces only human and assistant messages: a message of role
    "assistant" becomes an assistant message, and a message of any other
    role (user, system, data, ...) becomes a human message; the content is
    the text of its first text part, or empty. *)
Theorem mapped_messages_are_human_or_ai (base : nat) (ms : list UIMessage) :
  let mapped := Gemini.mapUIMessagesToLangChainMessages base ms in
  List.length mapped = List.length ms /\
  Forall (fun m => kind m = Human \/ kind m = AI) mapped /\
  forall i msg,
    nth_error ms i = Some msg ->
    exists m,
      nth_error mapped i = Some m /\
      content m = Gemini.text_of_parts (ui_parts msg) /\
      (ui_role msg = #"assistant" -> kind m = AI) /\
      (ui_role msg <> #"assistant" -> kind m = Human).
Proof.
  revert base. induction ms as [|x ms IH]; intros base; simpl.
  - split; [reflexivity|]. split; [constructor|].
    intros [|i] msg H; discriminate.
  - destruct (IH (S base)) as (Hl & Hk & Hn).
    split; [now rewrite Hl|]. split.
    + constructor; [|exact Hk]. simpl.
      destruct (kind_of_role_cases (ui_role x)) as [[_ ->] | [_ ->]]; auto.
    + intros [|i] msg H; simpl in *.
      * injection H as <-. eexists. split; [reflexivity|]. simpl.
        split; [reflexivity|].
        destruct (kind_of_role_cases (ui_role x)) as [[E ->] | [E ->]];
          split; intros; congruence.
      * exact (Hn i msg H).
Qed.

(* ================================================================== *)
(** * More on the creation of a session *)
(* ================================================================== *)

Lemma first_part_title_pure (m : option UIMessage) (s : State) :
  (exists T, Gemini.first_part_title m s = (Return T, s) /\
             forall ms, find is_user ms = m -> GeminiTitle ms T) \/
  (exists e, Gemini.first_part_title m s = (Throw e, s)).
Proof.
  unfold Gemini.first_part_title, GeminiTitle.
  destruct m as [m|]; [|left; eexists; split; [reflexivity|now left]].
  destruct (ui_parts m) as [[|p0 rest]|] eqn:Hp;
    try (left; eexists; split; [reflexivity|now left]).
  destruct (is_text_part p0) eqn:Ht;
    [|left; eexists; split; [reflexivity|now left]].
  destruct (part_text p0) as [t|] eqn:Hx.
  - left. eexists. split; [reflexivity|]. intros ms Hf. right.
    exists m, p0, rest, t. auto.
  - right. eexists. reflexivity.
Qed.

(** [createNewSession] gives back the client it takes.  If the pool
    refuses the connection, the error is thrown and nothing else happens.
    Otherwise the trace is the connection, then events among which no
    client is taken or released, then the release, whether the session is
    inserted or the function throws.  When it returns, the id is the one
    the insert returned and the store has one more session, owned by the
    user, with a title of the first user message; when it throws, the store
    is as it was and the error was logged. *)
Theorem createNewSession_releases_client (w : World) (user : text)
    (ms : list UIMessage) (s : State) :
  let r := Gemini.createNewSession w user ms s in
  (forall e, db_fault w AtCreateConnect = Some e -> r = (Throw e, s)) /\
  (db_fault w AtCreateConnect = None ->
   exists mid,
     trace (snd r)
     = trace s ++ EvConnect AtCreateConnect :: mid ++ [EvRelease] /\
     connects mid = 0 /\ releases mid = 0 /\
     match fst r with
     | Return sid =>
       sid = returning_id w (store s) /\
       exists T, store (snd r) = with_session w (store s) T user /\
                 GeminiTitle ms T
     | Throw e =>
       store (snd r) = store s /\
       exists label, In (EvLog label (error_message e)) mid
     end).
Proof.
  intros r. subst r. unfold Gemini.createNewSession. split.
  - intros e He. exec_red. rewrite He. reflexivity.
  - intros Hc. exec_red. rewrite Hc. exec_red.
    destruct (first_part_title_pure (find is_user ms)
                {| store := store s;
                   trace := trace s ++ [EvConnect AtCreateConnect] |})
      as [(T & E & HT) | (e & E)]; rewrite E; exec_red.
    + destruct (db_fault w AtCreateInsert) as [e|] eqn:Hi; exec_red.
      * eexists [EvLog _ _]. simpl. rewrite <- !app_assoc. simpl.
        repeat split; eauto.
      * eexists [EvInsertSession _ _]. simpl. rewrite <- !app_assoc. simpl.
        repeat split. exists T. split; [reflexivity | now apply HT].
    + eexists [EvLog _ _]. simpl. rewrite <- !app_assoc. simpl.
      repeat split; eauto.
Qed.

(** In the Gemini route, a request for a new session whose first user
    message starts with a text part that has no text is answered with
    status 500: the title cannot be computed, no session is inserted, the
    store is as it was, and the client taken for the insert is released.
    (The RAG route gives such a session the title "New Chat".) *)
Theorem gemini_textless_first_part_is_rejected (w : World) (req : Request)
    (st : Store) (user : text) (m : UIMessage) (p0 : UIPart)
    (rest : list UIPart) :
  JS.truthy_opt (sessionId req) = false ->
  userId req = Some user -> JS.truthy user = true ->
  find is_user (messages req) = Some m ->
  ui_parts m = Some (p0 :: rest) ->
  is_text_part p0 = true -> part_text p0 = None ->
  let r := run (Gemini.POST w req) st in
  (exists details,
      fst r = Return (ErrorResponse 500
                        #"An error occurred processing your request"
                        (Some details))) /\
  store (snd r) = st /\
  connects (trace (snd r)) = releases (trace (snd r)) /\
  (forall T u, ~ In (EvInsertSession T u) (trace (snd r))) /\
  Rag.title_of (messages req) = #"New Chat".
Proof.
  intros Hs Hu Hut Hf Hp Ht Hx r. subst r.
  assert (E : Gemini.resolve_session w req
              = Gemini.createNewSession w user (messages req)).
  { unfold Gemini.resolve_session.
    destruct (sessionId req) as [sid|]; simpl in Hs;
      rewrite ?Hs, Hu, Hut; reflexivity. }
  unfold run, Gemini.POST. rewrite E. unfold Gemini.createNewSession.
  unfold Gemini.first_part_title. rewrite Hf, Hp, Ht, Hx.
  split; [|split; [|split; [|split]]].
  5: { unfold Rag.title_of. rewrite Hf, Hp. cbn [find]. rewrite Ht, Hx.
       reflexivity. }
  all: exec_red; destruct (db_fault w AtCreateConnect); exec_red; simpl;
    eauto.
  all: intros T u Hin; in_cases Hin.
Qed.

Lemma gemini_textless_first_part_is_rejected_witness :
  let r := run (Gemini.POST Sample.calm Sample.textless_new)
               Sample.empty_store in
  (exists details,
      fst r = Return (ErrorResponse 500
                        #"An error occurred processing your request"
                        (Some details))) /\
  store (snd r) = Sample.empty_store /\
  connects (trace (snd r)) = releases (trace (snd r)) /\
  (forall T u, ~ In (EvInsertSession T u) (trace (snd r))) /\
  Rag.title_of (messages Sample.textless_new) = #"New Chat".
Proof.
  apply (@gemini_textless_first_part_is_rejected
           Sample.calm Sample.textless_new Sample.empty_store #"u1"
           Sample.textless {| part_type := #"text"; part_text := None |} []);
    vm_compute; reflexivity.
Defined.

(* ================================================================== *)
(** * More on the stream loops *)
(* ================================================================== *)

Lemma starts_with_app (p s c : text) :
  JS.starts_with p s = true -> JS.starts_with p (s ++ c) = true.
Proof.
  revert s; induction p as [|x p IH]; intros s H; [reflexivity|].
  destruct s as [|y s]; simpl in *; [discriminate|].
  apply andb_true_iff in H as [H1 H2]. rewrite H1. simpl. now apply IH.
Qed.

Lemma includes_app (s c sub : text) :
  JS.includes s sub = true -> JS.includes (s ++ c) sub = true.
Proof.
  induction s as [|y s IH]; intros H.
  - simpl in H. rewrite orb_false_r in H.
    destruct sub; [|discriminate]. destruct c; reflexivity.
  - cbn [JS.includes] in H. apply orb_true_iff in H as [H|H].
    + change ((y :: s) ++ c) with (y :: (s ++ c)). cbn [JS.includes].
      change (y :: s ++ c) with ((y :: s) ++ c).
      now rewrite (starts_with_app _ _ c H).
    + change ((y :: s) ++ c) with (y :: (s ++ c)). cbn [JS.includes].
      rewrite (IH H). apply orb_true_r.
Qed.

Lemma friendly_has_mark :
  JS.includes Rag.friendlyMessage Rag.SEARCH_ERROR_MARK = true.
Proof. vm_compute. reflexivity. Qed.

(** Once the loop has seen the marker, every further chunk is answered
    with the friendly message again. *)
Lemma rag_loop_after_mark (cs : list text) :
  rag_loop cs (Rag.friendlyMessage, true)
  = ((Rag.friendlyMessage, true),
     repeat Rag.friendlyMessage (List.length cs)).
Proof.
  induction cs as [|c cs IH]; [reflexivity|].
  cbn [rag_loop fst snd].
  rewrite (includes_app _ c _ friendly_has_mark), orb_true_r, IH.
  reflexivity.
Qed.

Lemma rag_loop_length (cs : list text) (vars : text * bool) :
  List.length (snd (rag_loop cs vars)) = List.length cs.
Proof.
  revert vars; induction cs as [|c cs IH]; intros vars; [reflexivity|].
  cbn [rag_loop].
  destruct (JS.includes c Rag.SEARCH_ERROR_MARK
            || JS.includes (fst vars ++ c) Rag.SEARCH_ERROR_MARK);
    simpl; now rewrite IH.
Qed.

Lemma rag_loop_mark (pre post : list text) (c : text) (vars : text * bool) :
  JS.includes c Rag.SEARCH_ERROR_MARK = true ->
  exists ds,
    List.length ds = List.length pre /\
    rag_loop (pre ++ c :: post) vars
    = ((Rag.friendlyMessage, true),
       ds ++ Rag.friendlyMessage
          :: repeat Rag.friendlyMessage (List.length post)).
Proof.
  intros Hc. revert vars; induction pre as [|x pre IH]; intros vars.
  - exists []. split; [reflexivity|]. cbn [app rag_loop].
    rewrite Hc. cbn [orb]. now rewrite rag_loop_after_mark.
  - cbn [app rag_loop].
    destruct (JS.includes x Rag.SEARCH_ERROR_MARK
              || JS.includes (fst vars ++ x) Rag.SEARCH_ERROR_MARK).
    + destruct (IH (Rag.friendlyMessage, true)) as (ds & Hl & E).
      exists (Rag.friendlyMessage :: ds). rewrite E. simpl.
      split; [now rewrite Hl | reflexivity].
    + destruct (IH (fst vars ++ x, snd vars)) as (ds & Hl & E).
      exists (x :: ds). rewrite E. simpl.
      split; [now rewrite Hl | reflexivity].
Qed.

(** When a chunk of the model's answer contains the marker of a failed
    document search, the RAG stream loop hands the caller the friendly
    message instead of that chunk and again for every chunk after it; the
    loop ends with the friendly message as the whole answer and with the
    search-error flag set.  The store is not touched. *)
Theorem rag_marker_replaces_answer (pre post : list text) (c : text)
    (s : State) :
  JS.includes c Rag.SEARCH_ERROR_MARK = true ->
  exists ds,
    List.length ds = List.length pre /\
    for_each (pre ++ c :: post) Rag.on_chunk ([], false) s
    = (Return (Rag.friendlyMessage, true),
       {| store := store s;
          trace := trace s
                   ++ map EvEnqueue
                        (ds ++ repeat Rag.friendlyMessage
                                      (S (List.length post))) |}).
Proof.
  intros Hc. destruct s as [st t].
  destruct (@rag_loop_mark pre post c ([], false) Hc) as (ds & Hl & E).
  exists ds. split; [exact Hl|].
  rewrite rag_loop_run, E. reflexivity.
Qed.

Lemma rag_marker_replaces_answer_witness :
  exists ds,
    List.length ds = 1 /\
    for_each ([#"Sorry: "] ++ Rag.SEARCH_UNAVAILABLE :: [#" (end)"])
             Rag.on_chunk ([], false)
             {| store := Sample.empty_store; trace := [] |}
    = (Return (Rag.friendlyMessage, true),
       {| store := Sample.empty_store;
          trace := [] ++ map EvEnqueue
                           (ds ++ repeat Rag.friendlyMessage 2) |}).
Proof.
  apply (@rag_marker_replaces_answer [#"Sorry: "] [#" (end)"]
           Rag.SEARCH_UNAVAILABLE
           {| store := Sample.empty_store; trace := [] |}).
  vm_compute. reflexivity.
Defined.

Lemma rag_loop_clean (cs : list text) (acc : text) :
  snd (fst (rag_loop cs (acc, false))) = false ->
  fst (fst (rag_loop cs (acc, false)))
  = acc ++ List.concat (snd (rag_loop cs (acc, false))).
Proof.
  revert acc; induction cs as [|c cs IH]; intros acc; cbn [rag_loop fst snd].
  - intros _. simpl. now rewrite app_nil_r.
  - destruct (JS.includes c Rag.SEARCH_ERROR_MARK
              || JS.includes (acc ++ c) Rag.SEARCH_ERROR_MARK).
    + rewrite rag_loop_after_mark. discriminate.
    + cbn [fst snd]. intros H. etransitivity; [exact (IH _ H)|]. simpl.
      now rewrite app_assoc.
Qed.

Lemma GeminiEnd_answer (w : World) (sid input answer : text) (p : Prompt)
    (fl : option Error) (st st' : Store) (tail : list Event) :
  GeminiEnd w sid input answer p fl st st' tail ->
  enqueues tail = [] /\
  forall sid' c, In (EvInsertMessage sid' AI c) tail -> c = answer.
Proof.
  intros H; inversion H; subst; unfold_locals; (split; [reflexivity|]);
    intros sid' c Hin; in_cases Hin; congruence.
Qed.

Lemma RagEnd_answer (w : World) (sid input answer : text) (p : Prompt)
    (hasErr canSave : bool) (fl : option Error) (st st' : Store)
    (tail : list Event) :
  RagEnd w sid input answer p hasErr canSave fl st st' tail ->
  enqueues tail = [] /\
  (forall sid' c, In (EvInsertMessage sid' AI c) tail ->
                  c = answer /\ hasErr = false) /\
  (hasErr = true ->
   st' = st /\ forall sid' x, ~ In (EvUpdateSummary sid' x) tail).
Proof.
  intros H; inversion H; subst; unfold_locals;
    (split; [reflexivity|]); (split; [|try discriminate]);
    try (intros sid' c Hin; in_cases Hin; split; congruence);
    intros _; (split; [reflexivity|]); intros sid' x Hin; in_cases Hin.
Qed.

Lemma AgentEnd_answer (w : World) (sid : text)
    (call : Result (Stream AgentEvent)) (st st' : Store) (ds : list text)
    (tail : list Event) :
  AgentEnd w sid call st ds st' tail ->
  enqueues tail = [] /\
  forall sid' c, In (EvInsertMessage sid' AI c) tail -> c = List.concat ds.
Proof.
  intros H; inversion H; subst; unfold_locals; (split; [reflexivity|]);
    intros sid' c Hin; in_cases Hin; congruence.
Qed.

Lemma enqueues_streamed (t0 tail : list Event) (ds : list text) :
  Forall (fun e => prefix_event e = true) t0 ->
  enqueues tail = [] ->
  enqueues (t0 ++ map EvEnqueue ds ++ tail) = ds.
Proof.
  intros H0 Ht.
  rewrite !enqueues_app, enqueues_map, Ht, (enqueues_prefix H0), app_nil_r.
  reflexivity.
Qed.

(** What is stored is what was delivered: in each of the three routes, the
    content of an assistant turn that a run appends to the history is the
    concatenation, in order, of the chunks the run handed to the caller. *)
Theorem saved_answer_is_what_was_delivered (route : Route) (w : World)
    (req : Request) (st : Store) (sid c : text) :
  let t := trace (snd (run (POST_of route w req) st)) in
  In (EvInsertMessage sid AI c) t ->
  c = List.concat (enqueues t).
Proof.
  intros t. subst t. destruct route; unfold POST_of.
  - destruct (Gemini_POST_cases w req st)
      as [(resp & st1 & t1 & E & _ & Hp & Ht)
         | (sid0 & input & db & p & stream & st1 & t1 & st' & tail
            & E & Hp & Ht & Hs & Hi & Hend)];
      rewrite E; cbn [snd trace]; intros Hin.
    + exfalso. apply rejected_is_prefix in Ht.
      exact (prefix_no_ai_insert sid c Ht Hin).
    + apply GeminiEnd_answer in Hend as (Hq & Ha).
      assert (H0 : Forall (fun e => prefix_event e = true)
                          (t1 ++ [EvModelStream p])).
      { apply Forall_app. split; [now apply setup_is_prefix|].
        repeat constructor. }
      rewrite (@enqueues_streamed _ _ _ H0 Hq).
      apply ai_insert_in_tail_In in Hin; [|exact H0]. exact (Ha _ _ Hin).
  - destruct (Rag_POST_cases w req st)
      as [(resp & st1 & t1 & E & _ & Hp & Ht)
         | (sid0 & input & stream & st1 & st2 & t1 & uev & canSave & st'
            & tail & E & Hp & Ht & _ & Hli & Hi & Hs & Hu & Hend)];
      rewrite E; cbn [snd trace]; intros Hin.
    + exfalso. apply rejected_is_prefix in Ht.
      exact (prefix_no_ai_insert sid c Ht Hin).
    + apply RagEnd_answer in Hend as (Hq & Ha & _).
      apply UserSaved_trace in Hu as (U1 & _).
      assert (H0 : Forall (fun e => prefix_event e = true)
                          ((t1 ++ [EvModelStream
                             (RagPrompt
                                (JS.join nl
                                   (filter JS.truthy
                                      [Db.summary_of st1 sid0;
                                       rag_overflow_summary w
                                         (rag_overflow w req
                                            (Db.loadAll st1 sid0))]))
                                (rag_context w input)
                                (rag_window w req input (Db.loadAll st1 sid0))
                                input)]) ++ uev)).
      { repeat (apply Forall_app; split); auto using setup_is_prefix;
          repeat constructor. }
      rewrite (@enqueues_streamed _ _ _ H0 Hq).
      apply ai_insert_in_tail_In in Hin; [|exact H0].
      destruct (Ha _ _ Hin) as [-> Hflag].
      exact (@rag_loop_clean _ _ Hflag).
  - destruct (Agent_POST_cases w req st)
      as [(resp & st1 & t1 & E & _ & Hst & Ht & Hno)
         | (input & ds & st' & tail & E & Hin0 & Hi & Hf & Hend)];
      rewrite E; cbn [snd trace]; intros Hin.
    + exfalso. apply rejected_is_prefix in Ht.
      exact (prefix_no_ai_insert sid c Ht Hin).
    + apply AgentEnd_answer in Hend as (Hq & Ha).
      assert (H0 : Forall (fun e => prefix_event e = true)
                     ([EvInsertMessage (agent_session w req) Human input]
                      ++ [EvAgentStream
                            (Db.loadAll
                               (add_row st
                                  (row_of w st (agent_session w req)
                                          Human input))
                               (agent_session w req))])).
      { repeat constructor. }
      rewrite (@enqueues_streamed _ _ _ H0 Hq).
      apply ai_insert_in_tail_In in Hin; [|exact H0]. exact (Ha _ _ Hin).
Qed.

Lemma saved_answer_is_what_was_delivered_witness :
  let t := trace (snd (run (POST_of AgentRoute Sample.calm Sample.next_turn)
                           Sample.one_session)) in
  In (EvInsertMessage #"s0" AI #"Hi") t /\
  #"Hi" = List.concat (enqueues t).
Proof.
  intros t.
  assert (Hin : In (EvInsertMessage #"s0" AI #"Hi") t).
  { vm_compute. repeat (first [left; reflexivity | right]). }
  split; [exact Hin|].
  exact (@saved_answer_is_what_was_delivered AgentRoute Sample.calm
           Sample.next_turn Sample.one_session #"s0" #"Hi" Hin).
Defined.

(** In the RAG route, an answer in which the model repeats the marker of a
    failed document search is not kept: if a chunk of the stream that the
    model call resolved to contains the marker, the run appends no
    assistant turn and does not write the summary, and the caller is handed
    the friendly message. *)
Theorem rag_search_error_reply_not_saved (w : World) (req : Request)
    (st : Store) (p : Prompt) (stream : Stream text) (c : text) :
  let s' := snd (run (Rag.POST w req) st) in
  In (EvModelStream p) (trace s') ->
  chain_stream w p = Resolved stream ->
  In c (chunks stream) ->
  JS.includes c Rag.SEARCH_ERROR_MARK = true ->
  (forall sid a, ~ In (EvInsertMessage sid AI a) (trace s')) /\
  (forall sid x, ~ In (EvUpdateSummary sid x) (trace s')) /\
  In Rag.friendlyMessage (enqueues (trace s')).
Proof.
  intros s'. subst s'.
  destruct (Rag_POST_cases w req st)
    as [(resp & st1 & t1 & E & _ & Hp & Ht)
       | (sid0 & input & stream0 & st1 & st2 & t1 & uev & canSave & st'
          & tail & E & Hp & Ht & _ & Hli & Hi & Hs & Hu & Hend)];
    rewrite E; cbn [snd trace]; intros Hin Hres Hc Hmark.
  - exfalso. rewrite Forall_forall in Ht. apply Ht in Hin.
    destruct Hin as (_ & H1 & _). destruct (H1 p eq_refl) as [e He].
    congruence.
  - pose proof (RagEnd_trace Hend) as (_ & _ & _ & T4 & _).
    pose proof (UserSaved_no_summary_event Hu) as U3.
    pose proof (UserSaved_trace Hu) as (U1 & U2 & _ & _).
    apply model_stream_unique in Hin; auto.
    assert (Hs' : chain_stream w p = Resolved stream0)
      by (injection Hin as ->; exact Hs).
    rewrite Hs' in Hres. injection Hres as <-.
    apply in_split in Hc as (pre & post & Ecs).
    destruct (@rag_loop_mark pre post c ([], false) Hmark) as (ds & Hl & El).
    rewrite <- Ecs in El.
    apply RagEnd_answer in Hend as (Hq & Ha & Hflag).
    rewrite El in *. cbn [fst snd] in *.
    destruct (Hflag eq_refl) as (_ & Hnou).
    match goal with
    | |- context [(?a ++ uev) ++ map EvEnqueue ?d ++ tail] =>
      assert (H0 : Forall (fun e => prefix_event e = true) (a ++ uev))
        by (repeat (apply Forall_app; split); auto using setup_is_prefix;
            repeat constructor);
      assert (H1 : Forall (fun e => is_summary_event e = false) (a ++ uev))
        by (repeat (apply Forall_app; split);
            auto using setup_no_summary_event; repeat constructor)
    end.
    split; [|split].
    + intros sid a Hi'. apply ai_insert_in_tail_In in Hi'; [|exact H0].
      destruct (Ha _ _ Hi') as [_ Hf]. discriminate.
    + intros sid x Hi'.
      apply (class_in_tail is_summary_event) in Hi'; auto.
      exact (Hnou _ _ Hi').
    + rewrite (@enqueues_streamed _ _ _ H0 Hq).
      apply in_or_app. right. now left.
Qed.

Lemma rag_search_error_reply_not_saved_witness :
  let w := Sample.echoing in
  let s' := snd (run (Rag.POST w Sample.next_turn) Sample.one_session) in
  (exists p, In (EvModelStream p) (trace s')) /\
  (forall sid a, ~ In (EvInsertMessage sid AI a) (trace s')) /\
  In Rag.friendlyMessage (enqueues (trace s')).
Proof.
  intros w s'.
  assert (Hin : exists p, In (EvModelStream p) (trace s') /\
                          chain_stream w p
                          = Resolved {| chunks := [#"Sorry: ";
                                                   Rag.SEARCH_UNAVAILABLE;
                                                   #" (end)"];
                                        failure := None |}).
  { vm_compute. eexists. split; [|reflexivity].
    repeat (first [left; reflexivity | right]). }
  destruct Hin as (p & Hin & Hres).
  destruct (@rag_search_error_reply_not_saved
              w Sample.next_turn Sample.one_session p _
              Rag.SEARCH_UNAVAILABLE Hin Hres)
    as (Hno & _ & Hfr).
  - right. left. reflexivity.
  - vm_compute. reflexivity.
  - split; [eauto|]. split; [exact Hno | exact Hfr].
Defined.

(* ================================================================== *)
(** * More on the RAG route *)
(* ================================================================== *)

Lemma lit_app_nonempty (a b : text) : a <> [] -> a ++ b <> [].
Proof. destruct a; [congruence | discriminate]. Qed.

Lemma join_nonempty (sep p : text) (rest : list text) :
  p <> [] -> JS.join sep (p :: rest) <> [].
Proof.
  intros Hp. destruct rest; simpl; [exact Hp | now apply lit_app_nonempty].
Qed.

Lemma rag_context_nonempty (w : World) (input : text) :
  rag_context w input <> [].
Proof.
  unfold rag_context.
  destruct (similaritySearchWithScore w input 3) as [[|d ds]|e].
  - apply lit_app_nonempty. intros E.
    apply (f_equal (fun l => List.length l)) in E. vm_compute in E.
    discriminate.
  - cbn [map]. apply join_nonempty. unfold Rag.format_document.
    apply lit_app_nonempty. intros E.
    apply (f_equal (fun l => List.length l)) in E. vm_compute in E.
    discriminate.
  - intros E. apply (f_equal (fun l => List.length l)) in E.
    vm_compute in E. discriminate.
Qed.

(** The context slot of the RAG prompt is never empty and filling it never
    fails: whatever the search answers (documents, nothing, or an error of
    any kind), the step returns a non-empty text, leaves the store as it
    was, and adds to the trace only the search and log entries. *)
Theorem document_context_never_empty (w : World) (input : text) (s : State) :
  exists c evs,
    Rag.document_context w input s
    = (Return c, {| store := store s; trace := trace s ++ evs |}) /\
    c <> [] /\
    Forall (fun e => quiet_event e = true) evs.
Proof.
  destruct s as [st t].
  destruct (Rag_document_context_run w input st t) as (evs & E & Hev).
  exists (rag_context w input), evs.
  split; [exact E|]. split; [apply rag_context_nonempty | exact Hev].
Qed.

(** The RAG route creates the session before it looks at the input: a
    request for a new session with a valid owner but without a usable last
    user text leaves, when the store answers, the inserted session row
    behind, with the title computed from the first user message.  The
    reply is status 400 when the rows already stored under the new id (if
    there are any) can be read back, and the logged status 500 of the
    route when one of them cannot.  No turn is written and neither the
    model nor the search is called. *)
Theorem rag_rejected_input_leaves_session (w : World) (req : Request)
    (st : Store) (user : text) :
  JS.truthy_opt (sessionId req) = false ->
  userId req = Some user -> JS.truthy user = true ->
  JS.truthy_opt (Rag.last_input (messages req)) = false ->
  (forall site, db_fault w site = None) ->
  let st1 := with_session w st (Rag.title_of (messages req)) user in
  let t1 := [EvConnect AtCreateConnect;
             EvInsertSession (Rag.title_of (messages req)) user;
             EvRelease;
             EvConnect AtSummaryConnect; EvRelease] in
  run (Rag.POST w req) st
  = match Db.first_unreadable (Db.rows_of st1 (returning_id w st)) with
    | None =>
      (Return (PlainResponse 400 #"No valid user input found."),
       {| store := st1; trace := t1 |})
    | Some e =>
      (Return (ErrorResponse 500 #"An error occurred"
                             (Some (error_message e))),
       {| store := st1;
          trace := t1 ++ [EvLog #"API Error:" (error_message e)] |})
    end.
Proof.
  intros Hs Hu Hut Hin Hdb st1 t1. subst st1 t1.
  assert (E : Rag.resolve_session w req = Rag.new_session w req).
  { unfold Rag.resolve_session.
    destruct (sessionId req) as [sid|]; simpl in Hs; rewrite ?Hs;
      reflexivity. }
  set (o := Db.first_unreadable _).
  unfold run, Rag.POST. rewrite E.
  unfold Rag.new_session, Rag.converse, Rag.load_summary, Db.getMessages.
  rewrite Hu, Hut. exec_red. rewrite !Hdb. exec_red.
  match goal with
  | |- context [Db.first_unreadable ?rows] =>
    change (Db.first_unreadable rows) with o
  end.
  clearbody o. destruct o as [e|].
  - exec_red. reflexivity.
  - exec_red.
    destruct (Rag.last_input (messages req)) as [input|]; simpl in Hin.
    + rewrite Hin. reflexivity.
    + reflexivity.
Qed.

Lemma rag_rejected_input_leaves_session_witness :
  run (Rag.POST Sample.calm Sample.empty_new) Sample.empty_store
  = (Return (PlainResponse 400 #"No valid user input found."),
     {| store := with_session Sample.calm Sample.empty_store
                              (Rag.title_of (messages Sample.empty_new))
                              #"u1";
        trace := [EvConnect AtCreateConnect;
                  EvInsertSession (Rag.title_of (messages Sample.empty_new))
                                  #"u1";
                  EvRelease;
                  EvConnect AtSummaryConnect; EvRelease] |}).
Proof.
  apply (@rag_rejected_input_leaves_session Sample.calm Sample.empty_new
           Sample.empty_store #"u1");
    vm_compute; reflexivity.
Defined.

(* ================================================================== *)
(** * More on the summary of a session *)
(* ================================================================== *)

Lemma set_summary_id (u sid : text) (r : SessionRow) :
  id (Db.set_summary u sid r) = id r.
Proof. unfold Db.set_summary. destruct (JS.eqb (id r) sid); reflexivity. Qed.

Lemma summary_of_other (st : Store) (u sid sid' : text) :
  sid' <> sid ->
  Db.summary_of (with_summary st u sid) sid' = Db.summary_of st sid'.
Proof.
  intros Hne. unfold Db.summary_of, with_summary. cbn [chat_sessions].
  induction (chat_sessions st) as [|r rows IH]; [reflexivity|].
  cbn [map find]. rewrite set_summary_id.
  destruct (JS.eqb (id r) sid') eqn:E2; [|exact IH].
  unfold Db.set_summary.
  destruct (JS.eqb (id r) sid) eqn:E1; [|reflexivity].
  apply eqb_eq in E1. apply eqb_eq in E2. congruence.
Qed.

Lemma summary_of_updated (st : Store) (u sid : text) :
  (exists r, In r (chat_sessions st) /\ id r = sid) ->
  Db.summary_of (with_summary st u sid) sid = u.
Proof.
  intros (r0 & Hin & Hid). unfold Db.summary_of, with_summary.
  cbn [chat_sessions].
  induction (chat_sessions st) as [|r rows IH]; [contradiction|].
  cbn [map find]. rewrite set_summary_id.
  destruct (JS.eqb (id r) sid) eqn:E1.
  - unfold Db.set_summary. rewrite E1. reflexivity.
  - apply IH. destruct Hin as [->|Hin]; [|exact Hin].
    subst sid. rewrite eqb_refl in E1. discriminate.
Qed.

(** [updateSessionSummary] is best effort and touches one session only.
    It always returns normally and never changes the stored turns, the
    summary of any other session, or the ids, titles and owners of the
    sessions.  Its result does not depend on the old summary it is given.
    If the summarizer answers and the store accepts the write, the summary
    of the session, if the session exists, reads back as the summarizer's
    answer; otherwise the store is as it was and the error is logged. *)
Theorem updateSessionSummary_is_best_effort (w : World)
    (sid oldSummary allHistory : text) (s : State) :
  let r := Gemini.updateSessionSummary w sid oldSummary allHistory s in
  fst r = Return tt /\
  chat_messages (store (snd r)) = chat_messages (store s) /\
  map (fun x => (id x, title x, user_id x)) (chat_sessions (store (snd r)))
  = map (fun x => (id x, title x, user_id x)) (chat_sessions (store s)) /\
  (forall sid', sid' <> sid ->
     Db.summary_of (store (snd r)) sid' = Db.summary_of (store s) sid') /\
  (forall other,
     Gemini.updateSessionSummary w sid other allHistory s = r) /\
  match chain_invoke w (SessionSummaryPrompt allHistory),
        db_fault w AtUpdateSummary with
  | Resolved u, None =>
    (exists x, In x (chat_sessions (store s)) /\ id x = sid) ->
    Db.summary_of (store (snd r)) sid = u
  | Rejected e, _ | Resolved _, Some e =>
    store (snd r) = store s /\
    exists label,
      trace (snd r)
      = trace s ++ [EvModelInvoke (SessionSummaryPrompt allHistory);
                    EvLog label (error_message e)]
  end.
Proof.
  intros r. subst r. unfold Gemini.updateSessionSummary. exec_red.
  destruct (chain_invoke w (SessionSummaryPrompt allHistory)) as [u|e];
    exec_red.
  - destruct (db_fault w AtUpdateSummary) as [e|]; exec_red.
    + repeat split; auto. eexists. rewrite <- app_assoc. reflexivity.
    + cbn [fst snd store trace chat_sessions chat_messages].
      split; [reflexivity|]. split; [reflexivity|]. split.
      { rewrite map_map. apply map_ext. intros x. unfold Db.set_summary.
        destruct (JS.eqb (id x) sid); reflexivity. }
      split; [intros sid' Hne; now apply (summary_of_other (store s))|].
      split; [reflexivity|].
      intros Hex. now apply (summary_of_updated (store s)).
  - repeat split; auto. eexists. rewrite <- app_assoc. reflexivity.
Qed.

(* ================================================================== *)
(** * More on the agent route *)
(* ================================================================== *)

Lemma map_rows_In (rows : list MessageRow) (i : nat) (row : MessageRow) :
  In row rows ->
  exists m,
    In m (History.map_rows i rows) /\
    h_role m = History.role_of (m_type (message row)) /\
    h_content m = History.content_of (message row).
Proof.
  revert i; induction rows as [|r rows IH]; intros i; [contradiction|].
  intros [->|Hin]; simpl.
  - eexists. split; [left; reflexivity|]. split; reflexivity.
  - destruct (IH (S i) Hin) as (m & Hm & Hr). exists m. auto.
Qed.

Lemma agent_session_truthy (w : World) (req : Request) :
  JS.truthy (agent_session w req) = true.
Proof.
  assert (H : JS.truthy (#"session-" ++ date_now w) = true).
  { destruct (#"session-") eqn:E; [|reflexivity].
    apply (f_equal (fun l => List.length l)) in E. vm_compute in E.
    discriminate. }
  unfold agent_session, JS.or_else.
  destruct (sessionId req) as [sid|]; [|exact H].
  destruct (JS.truthy sid) eqn:Hs; [exact Hs | exact H].
Qed.

Lemma human_is_user : History.role_of (Some #"human") = #"user".
Proof. vm_compute. reflexivity. Qed.

(** A turn posted to the agent route can be read back: when the request
    has an input, the store answers and the rows already stored under the
    session can be read back, the response is a stream whose
    session header names a session under which the history read returns,
    with status 200, a message of role "user" whose content is that input,
    whatever the agent's stream does afterwards. *)
Theorem agent_turn_is_readable (w : World) (req : Request) (st : Store)
    (input : text) :
  Agent.input_content (messages req) = Some input ->
  JS.truthy input = true ->
  db_fault w AtAddUser = None ->
  db_fault w AtGetMessages = None ->
  db_fault w AtHistoryConnect = None ->
  db_fault w AtHistorySelect = None ->
  (forall row, In row (chat_messages st) ->
               session_id row = agent_session w req ->
               Db.unreadable (message row) = None) ->
  let r := run (Agent.POST w req) st in
  exists sid msgs m,
    fst r = Return (StreamResponse (Some sid)) /\
    fst (run (Agent.GET w (Some sid)) (store (snd r)))
    = Return (HistoryResponse 200 msgs) /\
    In m msgs /\ h_role m = #"user" /\ h_content m = input.
Proof.
  intros Hin Ht E1 E2 Hc Hq Hread r. subst r.
  set (sid := agent_session w req).
  assert (Hrun : exists st' t',
             run (Agent.POST w req) st
             = (Return (StreamResponse (Some sid)),
                {| store := st'; trace := t' |}) /\
             exists added,
               chat_messages st'
               = chat_messages (add_row st (row_of w st sid Human input))
                 ++ added).
  { unfold run, Agent.POST. fold (agent_session w req). fold sid.
    rewrite Hin, Ht. cbn [negb]. exec_red. rewrite E1. exec_red.
    unfold Db.getMessages. exec_red. rewrite E2. exec_red.
    match goal with
    | |- context [Db.first_unreadable ?rows] =>
      change (Db.first_unreadable rows)
        with (Db.first_unreadable
                (Db.rows_of (add_row st (row_of w st sid Human input)) sid))
    end.
    rewrite (@readable_after_write w st sid sid Human input)
      by (discriminate || exact Hread).
    exec_red.
    match goal with
    | |- context [Agent.start w sid ?h {| store := ?s1; trace := ?t |}] =>
      destruct (Agent_start_cases w sid h s1 t)
        as (ds & st' & tail & Es & Hend); rewrite Es
    end; exec_red.
    do 2 eexists. split; [reflexivity|].
    apply AgentEnd_tables in Hend as (_ & added & Ea & _).
    exists added. exact Ea. }
  destruct Hrun as (st' & t' & E & added & Ea). rewrite E.
  cbn [fst snd store].
  assert (Hrow : In (row_of w st sid Human input) (Db.rows_of st' sid)).
  { unfold Db.rows_of. apply filter_In. split.
    - rewrite Ea. apply in_or_app. left. simpl. apply in_or_app. right.
      now left.
    - simpl. apply eqb_refl. }
  eapply Permutation_in in Hrow; [|apply order_perm].
  destruct (@map_rows_In _ 0 _ Hrow) as (m & Hm & Hr & Hcn).
  exists sid, (History.map_rows 0
                 (History.order_by_created_at (Db.rows_of st' sid))), m.
  split; [reflexivity|]. split.
  - unfold Agent.GET. rewrite GET_with_run by apply agent_session_truthy.
    rewrite Hc, Hq. reflexivity.
  - split; [exact Hm|]. split.
    + rewrite Hr. apply human_is_user.
    + rewrite Hcn. unfold History.content_of, History.first_truthy.
      simpl. now rewrite Ht.
Qed.

Lemma agent_turn_is_readable_witness :
  let r := run (Agent.POST Sample.calm Sample.next_turn)
               Sample.one_session in
  exists sid msgs m,
    fst r = Return (StreamResponse (Some sid)) /\
    fst (run (Agent.GET Sample.calm (Some sid)) (store (snd r)))
    = Return (HistoryResponse 200 msgs) /\
    In m msgs /\ h_role m = #"user" /\ h_content m = #"What is RAG?".
Proof.
  apply (@agent_turn_is_readable Sample.calm Sample.next_turn
           Sample.one_session #"What is RAG?");
    try (vm_compute; reflexivity).
  intros row [<-|[<-|[]]] _; vm_compute; reflexivity.
Defined.

(* ================================================================== *)
(** * The product tool *)
(* ================================================================== *)

Lemma table_rows_pure (data : list Tools.Product) (s : State) :
  (exists rows, Tools.table_rows data s = (Return rows, s)) \/
  Tools.table_rows data s
  = (Throw (JsError
              #"Cannot read properties of null (reading 'toLocaleString')"),
     s).
Proof.
  induction data as [|p data IH]; [left; eexists; reflexivity|].
  cbn [Tools.table_rows]. unfold Tools.table_row.
  destruct (Tools.p_price_locale p); unfold bind, ret, throw;
    cbv beta iota; [|right; reflexivity].
  destruct IH as [(rows & E) | E]; rewrite E; [left; eexists|right];
    reflexivity.
Qed.

Lemma null_price_is_no_connection_failure :
  Tools.is_connection_failure
    #"Cannot read properties of null (reading 'toLocaleString')" = false.
Proof. vm_compute. reflexivity. Qed.

Lemma literal_prefix_nonempty (a b : text) :
  List.length a <> 0 -> a ++ b <> [].
Proof. destruct a; [contradiction | discriminate]. Qed.

Ltac nonempty_literal :=
  apply literal_prefix_nonempty; vm_compute; discriminate.

(** The product tool passes on connection failures and nothing else.  If
    the query fails with a message that is the connection sentinel or
    names a connection, the network or a timeout, the tool throws the
    sentinel error; if it fails with any other message, the tool returns a
    text that reports the message; and if the query answers, the tool
    returns a non-empty text, also when a price cannot be rendered.  The
    store is never touched. *)
Theorem product_tool_passes_on_only_connection_failures
    (select_products : text -> Result Tools.Reply) (productName : text)
    (s : State) :
  let r := Tools.getProductInfoTool select_products productName s in
  store (snd r) = store s /\
  match Tools.failure_message select_products productName with
  | Some m =>
    if Tools.is_connection_failure m
    then fst r = Throw (JsError Tools.DATABASE_CONNECTION_ERROR)
    else fst r = Return (#"เกิดข้อผิดพลาดในการดึงข้อมูลสินค้า: " ++ m)
  | None => exists answer, fst r = Return answer /\ answer <> []
  end.
Proof.
  intros r. subst r.
  unfold Tools.getProductInfoTool, Tools.failure_message,
    Tools.is_connection_failure.
  destruct (select_products productName) as [[[[|p [|q data]]|]|m]|e];
    exec_red.
  - split; [reflexivity|]. eexists. split; [reflexivity|nonempty_literal].
  - split; [reflexivity|]. eexists. split; [reflexivity|nonempty_literal].
  - match goal with
    | |- context [Tools.table_rows ?d ?s0] =>
      destruct (table_rows_pure d s0) as [(rows & ->) | ->]
    end; exec_red.
    + split; [reflexivity|]. eexists. split; [reflexivity|nonempty_literal].
    + pose proof null_price_is_no_connection_failure as Hn.
      unfold Tools.is_connection_failure in Hn. cbn [error_message].
      rewrite Hn. exec_red.
      split; [reflexivity|]. eexists. split; [reflexivity|nonempty_literal].
  - split; [reflexivity|]. eexists. split; [reflexivity|nonempty_literal].
  - destruct (Tools.is_connection_message m) eqn:Hm; exec_red;
      cbn [error_message]; rewrite ?Hm, ?eqb_refl, ?orb_true_r, ?orb_false_r;
      cbn [orb]; exec_red.
    + split; reflexivity.
    + destruct (JS.eqb m Tools.DATABASE_CONNECTION_ERROR); exec_red;
        split; reflexivity.
  - destruct e as [m]. cbn [error_message].
    destruct (JS.eqb m Tools.DATABASE_CONNECTION_ERROR
              || Tools.is_connection_message m); exec_red;
      split; reflexivity.
Qed.

(* ================================================================== *)
(** * The session of the turns a run writes *)
(* ================================================================== *)

Lemma added_rows_session (old added : list MessageRow) (sid : text)
    (row : MessageRow) :
  Forall (fun r => session_id r = sid) added ->
  In row (old ++ added) -> ~ In row old -> session_id row = sid.
Proof.
  intros Hall Hin Hnew. apply in_app_iff in Hin as [Hin|Hin];
    [contradiction|].
  rewrite Forall_forall in Hall. exact (Hall _ Hin).
Qed.

(** Every turn that a streamed run writes is filed under the session that
    the response announces: in each of the three routes, if the handler
    answers with a stream, each row of the stored turns that was not there
    before carries the session id of the [x-session-id] header; the RAG
    route sends no header exactly when that id is the empty string. *)
Theorem written_turns_carry_announced_session (route : Route) (w : World)
    (req : Request) (st : Store) (h : option text) (row : MessageRow) :
  let r := run (POST_of route w req) st in
  fst r = Return (StreamResponse h) ->
  In row (chat_messages (store (snd r))) ->
  ~ In row (chat_messages st) ->
  session_id row = match h with Some sid => sid | None => [] end.
Proof.
  intros r. subst r. destruct route; unfold POST_of.
  - destruct (Gemini_POST_cases w req st)
      as [(resp & st1 & t1 & E & Hns & Hp & Ht)
         | (sid0 & input & db & p & stream & st1 & t1 & st' & tail
            & E & Hp & Ht & Hs & Hi & Hend)];
      rewrite E; cbn [fst snd store]; intros Hr Hin Hnew.
    + injection Hr as ->. contradiction.
    + injection Hr as <-.
      apply Prepared_tables in Hp as [Hm _].
      apply GeminiEnd_tables in Hend as (_ & added & Ea & _ & Hadd).
      rewrite Ea, Hm in Hin.
      refine (@added_rows_session _ _ _ _ _ Hin Hnew).
      destruct Hadd as [-> | [(u & -> & _ & Hu) | (u & a & -> & _ & _ & Hu & Ha2 & _)]];
        repeat constructor; auto.
  - destruct (Rag_POST_cases w req st)
      as [(resp & st1 & t1 & E & Hns & Hp & Ht)
         | (sid0 & input & stream & st1 & st2 & t1 & uev & canSave & st'
            & tail & E & Hp & Ht & _ & Hli & Hi & Hs & Hu & Hend)];
      rewrite E; cbn [fst snd store]; intros Hr Hin Hnew.
    + injection Hr as ->. contradiction.
    + injection Hr as <-.
      assert (Hh : (if JS.truthy sid0 then Some sid0 else None)
                   = Some sid0 \/
                   ((if JS.truthy sid0 then Some sid0 else None) = None
                    /\ sid0 = [])).
      { destruct sid0; [right; auto | left; reflexivity]. }
      assert (Hrow : session_id row = sid0).
      { apply Prepared_tables in Hp as [Hm _].
        apply UserSaved_tables in Hu as (_ & Hcases).
        apply RagEnd_tables in Hend as (_ & added & Ea & _ & Hadd).
        rewrite Ea in Hin.
        assert (Hall : Forall (fun r => session_id r = sid0) added).
        { destruct Hadd as [-> | (a & -> & _ & Ha & _)];
            repeat constructor; auto. }
        destruct Hcases as [(_ & -> & _) | (_ & _ & ->)].
        - rewrite Hm in Hin.
          exact (@added_rows_session _ _ _ _ Hall Hin Hnew).
        - cbn [add_row chat_messages] in Hin. rewrite Hm in Hin.
          rewrite <- app_assoc in Hin.
          refine (@added_rows_session _ _ _ _ _ Hin Hnew).
          apply Forall_app. split; [repeat constructor | exact Hall]. }
      destruct Hh as [-> | [-> Hnil]]; congruence.
  - destruct (Agent_POST_cases w req st)
      as [(resp & st1 & t1 & E & Hns & Hst & Ht & Hno)
         | (input & ds & st' & tail & E & Hin0 & Hi & Hf & Hend)];
      rewrite E; cbn [fst snd store]; intros Hr Hin Hnew.
    + injection Hr as ->. contradiction.
    + injection Hr as <-.
      apply AgentEnd_tables in Hend as (_ & added & Ea & Hadd).
      rewrite Ea in Hin. cbn [add_row chat_messages] in Hin.
      rewrite <- app_assoc in Hin.
      refine (@added_rows_session _ _ _ _ _ Hin Hnew).
      apply Forall_app. split; [repeat constructor|].
      destruct Hadd as [-> | (a & -> & _ & Ha & _)]; repeat constructor; auto.
Qed.

Lemma written_turns_carry_announced_session_witness :
  let r := run (POST_of GeminiRoute Sample.calm Sample.next_turn)
               Sample.one_session in
  let row := {| session_id := #"s0"; message := to_stored AI #"Hi there";
                created_at := 103 |} in
  fst r = Return (StreamResponse (Some #"s0")) /\
  In row (chat_messages (store (snd r))) /\
  session_id row = #"s0".
Proof.
  intros r row.
  assert (Hr : fst r = Return (StreamResponse (Some #"s0")))
    by (vm_compute; reflexivity).
  assert (Hin : In row (chat_messages (store (snd r)))).
  { vm_compute. repeat (first [left; reflexivity | right]). }
  assert (Hnew : ~ In row (chat_messages Sample.one_session)).
  { intros H. vm_compute in H.
    repeat (destruct H as [H|H]; [discriminate H|]). exact H. }
  split; [exact Hr|]. split; [exact Hin|].
  exact (@written_turns_carry_announced_session GeminiRoute Sample.calm
           Sample.next_turn Sample.one_session (Some #"s0") row Hr Hin Hnew).
Defined.

(* ================================================================== *)
(** * What the model is asked *)
(* ================================================================== *)

Lemma is_human_of_role (role : text) :
  kind_eqb (Gemini.kind_of_role role) Human
  = negb (JS.eqb role #"assistant").
Proof.
  destruct (kind_of_role_cases role) as [[-> ->] | [Hne ->]].
  - now rewrite eqb_refl.
  - apply eqb_neq in Hne. now rewrite Hne.
Qed.

Lemma find_last_mapped (base : nat) (ms : list UIMessage) :
  match JS.find_last is_not_assistant ms with
  | Some u =>
    exists r,
      JS.find_last is_human (Gemini.mapUIMessagesToLangChainMessages base ms)
      = Some {| ref := r; kind := Human;
                content := Gemini.text_of_parts (ui_parts u) |}
  | None =>
    JS.find_last is_human (Gemini.mapUIMessagesToLangChainMessages base ms)
    = None
  end.
Proof.
  revert base; induction ms as [|x ms IH]; intros base; [reflexivity|].
  cbn [JS.find_last Gemini.mapUIMessagesToLangChainMessages].
  specialize (IH (S base)).
  destruct (JS.find_last is_not_assistant ms) as [u|].
  - destruct IH as [r ->]. eauto.
  - rewrite IH. unfold is_human at 1. cbn [kind].
    rewrite is_human_of_role. unfold is_not_assistant.
    destruct (kind_of_role_cases (ui_role x)) as [[E _] | [E Hk]].
    + rewrite E, eqb_refl. reflexivity.
    + apply eqb_neq in E. rewrite E. cbn [negb]. rewrite Hk. eauto.
Qed.

Lemma find_last_last (db : list BaseMessage) (m : BaseMessage) :
  is_human m = true -> JS.find_last is_human (db ++ [m]) = Some m.
Proof.
  intros Hm. induction db as [|x db IH]; simpl; [now rewrite Hm|].
  now rewrite IH.
Qed.

Lemma lastIndexOf_last (db : list BaseMessage) (m : BaseMessage) :
  Gemini.lastIndexOf (db ++ [m]) m = Some (List.length db).
Proof.
  induction db as [|x db IH]; simpl; [now rewrite Nat.eqb_refl|].
  now rewrite IH.
Qed.

Lemma slice_before_last_last (db : list BaseMessage) (m : BaseMessage) :
  Gemini.slice_before_last (db ++ [m]) m = db.
Proof.
  unfold Gemini.slice_before_last. rewrite lastIndexOf_last.
  rewrite firstn_app, firstn_all, Nat.sub_diag. simpl. apply app_nil_r.
Qed.

(** What the Gemini route asks the model in an existing session.  When the
    store answers, the stored turns of the session can be read back, and
    the request holds a message of a role other than
    "assistant" whose first text part is not empty, the first thing the
    handler does that can be observed is the call of the model, with the
    text of the last such message as input, the persisted summary of the
    session in the system instruction, and a history that is computed
    from the stored turns of the session alone: the messages of the
    request, the current input included, are not part of it. *)
Theorem gemini_prompt_of_existing_session (w : World) (req : Request)
    (st : Store) (sid : text) (u : UIMessage) :
  sessionId req = Some sid -> JS.truthy sid = true ->
  db_fault w AtSummarySelect = None ->
  db_fault w AtGetMessages = None ->
  (forall row, In row (chat_messages st) -> session_id row = sid ->
               Db.unreadable (message row) = None) ->
  JS.find_last is_not_assistant (messages req) = Some u ->
  JS.truthy (Gemini.text_of_parts (ui_parts u)) = true ->
  exists rest,
    trace (snd (run (Gemini.POST w req) st))
    = EvModelStream
        (ChatPrompt (Gemini.systemInstruction (Db.summary_of st sid))
                    (Gemini.recent_window w (Db.loadAll st sid))
                    (Gemini.text_of_parts (ui_parts u)))
      :: rest.
Proof.
  intros Hsid Ht Hq Hg Hread Hu Hin.
  assert (Hr : Db.first_unreadable (Db.rows_of st sid) = None).
  { apply first_unreadable_none. intros row Hrow.
    apply rows_of_In in Hrow as [H1 H2]. now apply Hread. }
  unfold run, Gemini.POST, Gemini.resolve_session. rewrite Hsid. cbn [JS.truthy_opt].
  rewrite Ht. cbn [negb]. exec_red. rewrite Ht. cbn [negb].
  unfold Gemini.converse, Db.getMessages. exec_red. rewrite Hq. exec_red.
  rewrite Hg. exec_red.
  match goal with
  | |- context [Db.first_unreadable ?rows] =>
    change (Db.first_unreadable rows)
      with (Db.first_unreadable (Db.rows_of st sid))
  end.
  rewrite Hr. exec_red.
  pose proof (find_last_mapped (List.length (Db.loadAll st sid))
                               (messages req)) as Hm.
  rewrite Hu in Hm. destruct Hm as [r Hm]. rewrite Hm.
  rewrite find_last_last by reflexivity.
  cbn [content]. rewrite Hin. cbn [negb].
  rewrite slice_before_last_last. exec_red.
  match goal with
  | |- context [chain_stream w ?p] =>
    destruct (chain_stream w p) as [stream|e]
  end; exec_red.
  - match goal with
    | |- context [Gemini.start w ?a ?b ?c ?d ?e0 {| store := ?s1; trace := ?t |}] =>
      destruct (Gemini_start_cases w a b c d e0 s1 t)
        as (st' & tail & Es & _); rewrite Es
    end.
    exec_red. eexists. reflexivity.
  - eexists. reflexivity.
Qed.

Lemma gemini_prompt_of_existing_session_witness :
  exists rest,
    trace (snd (run (Gemini.POST Sample.calm Sample.next_turn)
                    Sample.one_session))
    = EvModelStream
        (ChatPrompt (Gemini.systemInstruction #"greeting")
                    (Gemini.recent_window Sample.calm
                       (Db.loadAll Sample.one_session #"s0"))
                    #"What is RAG?")
      :: rest.
Proof.
  apply (@gemini_prompt_of_existing_session Sample.calm Sample.next_turn
           Sample.one_session #"s0" (Sample.user_says #"What is RAG?"));
    try (vm_compute; reflexivity).
  intros row [<-|[<-|[]]] _; vm_compute; reflexivity.
Defined.

(** The history that the RAG route hands to the model never repeats the
    current input: in the prompt of every stream that the model opens, the
    input is the text of the last user message of the request and no human
    message of the history slot has that text as content. *)
Theorem rag_history_excludes_current_input (w : World) (req : Request)
    (st : Store) (p : Prompt) (stream : Stream text) (m : BaseMessage) :
  In (EvModelStream p) (trace (snd (run (Rag.POST w req) st))) ->
  chain_stream w p = Resolved stream ->
  In m (prompt_history p) ->
  kind m = Human ->
  Rag.last_input (messages req) = Some (prompt_input p) /\
  content m <> prompt_input p.
Proof.
  destruct (Rag_POST_cases w req st)
    as [(resp & st1 & t1 & E & _ & Hp & Ht)
       | (sid0 & input & stream0 & st1 & st2 & t1 & uev & canSave & st'
          & tail & E & Hp & Ht & _ & Hli & Hi & Hs & Hu & Hend)];
    rewrite E; cbn [snd trace]; intros Hin Hres Hm Hk.
  - exfalso. rewrite Forall_forall in Ht. apply Ht in Hin.
    destruct Hin as (_ & H1 & _). destruct (H1 p eq_refl) as [e He].
    congruence.
  - apply RagEnd_trace in Hend as (_ & _ & _ & T4 & _).
    apply UserSaved_trace in Hu as (_ & U2 & _ & _).
    apply model_stream_unique in Hin; auto.
    injection Hin as ->. cbn [prompt_history prompt_input] in *.
    split; [exact Hli|].
    unfold rag_window in Hm.
    destruct (Db.loadAll st1 sid0); [contradiction|].
    destruct (JS.truthy_opt (sessionId req)); [|contradiction].
    unfold Rag.without_current_input in Hm. apply filter_In in Hm as [_ Hf].
    unfold is_human in Hf. rewrite Hk in Hf. cbn [kind_eqb andb] in Hf.
    apply negb_true_iff in Hf. now apply eqb_neq.
Qed.

Lemma rag_history_excludes_current_input_witness :
  let w := Sample.calm in
  let t := trace (snd (run (Rag.POST w Sample.next_turn)
                           Sample.one_session)) in
  let m := {| ref := 2; kind := Human; content := #"Hello" |} in
  exists p,
    In (EvModelStream p) t /\ In m (prompt_history p) /\
    content m <> prompt_input p.
Proof.
  intros w t m.
  assert (H : exists p, In (EvModelStream p) t /\
                        chain_stream w p
                        = Resolved {| chunks := [#"Hi"; #" there"];
                                      failure := None |} /\
                        In m (prompt_history p)).
  { vm_compute. eexists. split; [|split; [reflexivity|]].
    - repeat (first [left; reflexivity | right]).
    - left. reflexivity. }
  destruct H as (p & Hin & Hres & Hm).
  exists p. split; [exact Hin|]. split; [exact Hm|].
  exact (proj2 (@rag_history_excludes_current_input
                  w Sample.next_turn Sample.one_session p _ m
                  Hin Hres Hm eq_refl)).
Defined.

(* ================================================================== *)
(** * The summary and the overflow *)
(* ================================================================== *)

(** C3, as stated, fails: a completed turn of the RAG route on a session
    that has a summary and no stored turn has an empty overflow, and the
    overflow summarizer is not called; yet the summarizer that runs after
    the stream is, and the persisted summary of the session changes from
    "greeting" to "digest". *)
Lemma summary_rewritten_without_overflow :
  let w := Sample.calm in
  let r := run (Rag.POST w Sample.next_turn) Sample.bare_session in
  Db.loadAll Sample.bare_session #"s0" = [] /\
  rag_overflow w Sample.next_turn (Db.loadAll Sample.bare_session #"s0")
  = [] /\
  existsb is_overflow_invoke (trace (snd r)) = false /\
  fst r = Return (StreamResponse (Some #"s0")) /\
  In EvClose (trace (snd r)) /\
  existsb is_post_invoke (trace (snd r)) = true /\
  Db.summary_of Sample.bare_session #"s0" = #"greeting" /\
  Db.summary_of (store (snd r)) #"s0" = #"digest".
Proof.
  vm_compute. repeat (split; [reflexivity|]).
  split; [repeat (first [left; reflexivity | right])|].
  repeat split; reflexivity.
Qed.

Lemma join_summaries (s : text) :
  JS.join nl (filter JS.truthy [s; []]) = s.
Proof. destruct s; reflexivity. Qed.

Lemma loadAll_nonempty (st : Store) (sid : text) (r : MessageRow) :
  In r (chat_messages st) -> session_id r = sid -> Db.loadAll st sid <> [].
Proof.
  intros Hin Hs.
  assert (Hr : In r (Db.rows_of st sid)).
  { unfold Db.rows_of. apply filter_In. split; [exact Hin|].
    subst sid. apply eqb_refl. }
  unfold Db.loadAll. destruct (Db.rows_of st sid); [contradiction|].
  discriminate.
Qed.

Lemma stored_turns_overflow (w : World) (req : Request) (st : Store) :
  has_stored_turns req st ->
  exists sid,
    SessionOf w req st sid st /\
    rag_overflow w req (Db.loadAll st sid) <> [].
Proof.
  intros (sid & r & Hsid & Ht & Hin & Hs). exists sid.
  split; [now constructor|].
  rewrite rag_overflow_cases, Hsid. cbn [JS.truthy_opt]. rewrite Ht.
  exact (@loadAll_nonempty st sid r Hin Hs).
Qed.

Lemma RagEnd_no_overflow_invoke (w : World) (sid input answer a b : text)
    (hasErr canSave : bool) (fl : option Error) (st st' : Store)
    (tail : list Event) :
  RagEnd w sid input answer (rag_merge_prompt a b input answer) hasErr
         canSave fl st st' tail ->
  Forall (fun e => is_overflow_invoke e = false) tail.
Proof. intros H; inversion H; subst; repeat constructor. Qed.

Lemma UserSaved_no_overflow_invoke (w : World) (sid input : text)
    (st st2 : Store) (evs : list Event) (canSave : bool) :
  UserSaved w sid input st st2 evs canSave ->
  Forall (fun e => is_overflow_invoke e = false) evs.
Proof. intros H; inversion H; subst; repeat constructor. Qed.

Lemma quiet_no_overflow_invoke (t : list Event) :
  Forall (fun e => quiet_event e = true) t ->
  Forall (fun e => is_overflow_invoke e = false) t.
Proof.
  apply Forall_impl. intros [] H; simpl in *; try reflexivity; discriminate.
Qed.

(** C3 (amended). In the RAG route, a turn whose overflow is empty makes
    no call to the overflow summarizer, whatever else the run does, and
    the summary handed to the model for that turn is the persisted summary
    of the session, unchanged. *)
Theorem empty_overflow_makes_no_model_call (w : World) (req : Request)
    (st : Store) :
  (forall sid st1,
      SessionOf w req st sid st1 ->
      rag_overflow w req (Db.loadAll st1 sid) = []) ->
  let t := trace (snd (run (Rag.POST w req) st)) in
  (forall h, ~ In (EvModelInvoke (OverflowSummaryPrompt h)) t) /\
  (forall p,
      In (EvModelStream p) t ->
      exists sid st1,
        SessionOf w req st sid st1 /\
        prompt_summary p = Db.summary_of st1 sid).
Proof.
  intros Hov t. subst t.
  assert (Hsum : forall sid st1 input,
             SessionOf w req st sid st1 ->
             prompt_summary (rag_prompt w req st1 sid input)
             = Db.summary_of st1 sid).
  { intros sid st1 input Hs. unfold rag_prompt. cbn [prompt_summary].
    rewrite (Hov sid st1 Hs). apply join_summaries. }
  destruct (Rag_POST_shape w req st)
    as [(resp & st1 & t1 & E & _ & Hp & Ht & _ & Hok)
       | (sid & input & stream & st1 & st2 & t1 & uev & canSave & st'
          & tail & E & Hp & Ht & Hq & Hli & Hi & Hs & Hu & Hend & Hsess
          & Hok)];
    rewrite E; cbn [snd trace].
  - rewrite Forall_forall in Hok. split.
    + intros h Hin. destruct (Hok _ Hin) as [Ho _].
      destruct (@stored_turns_overflow w req st (Ho eq_refl))
        as (sid & Hs & Hne).
      exact (Hne (Hov sid st Hs)).
    + intros p Hin. destruct (Hok _ Hin) as [_ Hpr].
      destruct (Hpr p eq_refl) as (sid & input & Hs & _ & ->).
      exists sid, st1. split; [exact Hs | now apply Hsum].
  - split.
    + intros h Hin.
      assert (Hall : Forall (fun e => is_overflow_invoke e = false)
                       (((t1 ++ [EvModelStream
                                   (rag_prompt w req st1 sid input)])
                         ++ uev)
                        ++ map EvEnqueue
                             (snd (rag_loop (chunks stream) ([], false)))
                        ++ tail)).
      { repeat (apply Forall_app; split).
        - apply quiet_no_overflow_invoke, Hq, Hov, Hsess.
        - repeat constructor.
        - exact (UserSaved_no_overflow_invoke Hu).
        - apply Forall_forall. intros x Hx.
          apply In_enqueue in Hx as [c ->]. reflexivity.
        - exact (RagEnd_no_overflow_invoke Hend). }
      rewrite Forall_forall in Hall. apply Hall in Hin. discriminate.
    + intros p Hin.
      apply RagEnd_trace in Hend as (_ & _ & _ & T4 & _).
      apply UserSaved_trace in Hu as (_ & U2 & _ & _).
      apply model_stream_unique in Hin; auto.
      injection Hin as ->. exists sid, st1.
      split; [exact Hsess|]. exact (Hsum sid st1 input Hsess).
Qed.

Lemma empty_overflow_makes_no_model_call_witness :
  let w := Sample.calm in
  let t := trace (snd (run (Rag.POST w Sample.next_turn)
                           Sample.bare_session)) in
  (forall h, ~ In (EvModelInvoke (OverflowSummaryPrompt h)) t) /\
  (forall p,
      In (EvModelStream p) t ->
      exists sid st1,
        SessionOf w Sample.next_turn Sample.bare_session sid st1 /\
        prompt_summary p = Db.summary_of st1 sid).
Proof.
  apply (@empty_overflow_makes_no_model_call Sample.calm Sample.next_turn
           Sample.bare_session).
  intros sid st1 [sid0 Hsid _ | T user Hno _ _].
  - injection Hsid as <-. vm_compute. reflexivity.
  - vm_compute in Hno. discriminate Hno.
Defined.

(* ================================================================== *)
(** * A search that fails *)
(* ================================================================== *)



(* ================================================================== *)
(** * The writes that follow the stream *)
(* ================================================================== *)

Lemma GeminiEnd_writes (w : World) (sid input answer : text) (p : Prompt)
    (st st' : Store) (tail : list Event) :
  GeminiEnd w sid input answer p None st st' tail ->
  write_facts w (answer <> [] /\ db_fault w AtAddUser = None) st st' tail.
Proof.
  intros H; inversion H; subst; unfold_locals; try discriminate;
    (split;
     [ intros e0 Hf [Hne Hu]; try contradiction; try congruence
     | intros mid sid0 c post E; find_ai_insert E ]).
  - assert (e0 = e) by congruence. subst e0.
    split; [eexists; right; left; reflexivity|].
    split; [intros sid0 c Hin; in_cases Hin | reflexivity].
  - right. exists label, e. split; [right; left; reflexivity|].
    split; [reflexivity|].
    match goal with
    | Hc : _ \/ _ |- _ => destruct Hc as [Hr | (s & _ & Hw)]
    end.
    + left. exists p. split; [left; reflexivity | exact Hr].
    + right; right. exact Hw.
  - left. exists p, s. split; [left; reflexivity|].
    split; [assumption|]. right; left; reflexivity.
Qed.

Lemma RagEnd_writes (w : World) (sid input answer : text) (p : Prompt)
    (hasErr canSave : bool) (st st' : Store) (tail : list Event) :
  RagEnd w sid input answer p hasErr canSave None st st' tail ->
  write_facts w (answer <> [] /\ hasErr = false /\ canSave = true)
              st st' tail.
Proof.
  intros H; inversion H; subst; unfold_locals; try discriminate;
    (split;
     [ intros e0 Hf (Hne & He & Hc); try contradiction; try congruence
     | intros mid sid0 c post E; find_ai_insert E ]).
  - match goal with
    | Hc' : _ \/ _ |- _ => destruct Hc'; congruence
    end.
  - assert (e0 = e) by congruence. subst e0.
    split; [eexists; left; reflexivity|].
    split; [intros sid0 c Hin; in_cases Hin | reflexivity].
  - right. exists label, e. split; [right; left; reflexivity|].
    split; [reflexivity|].
    match goal with
    | Hc : _ \/ _ |- _ => destruct Hc as [Hr | (s & _ & Hw)]
    end.
    + left. exists p. split; [left; reflexivity | exact Hr].
    + right; left. exact Hw.
  - right. exists label, e.
    split; [do 3 right; left; reflexivity|].
    split; [reflexivity|]. right; right. assumption.
  - left. exists p, s. split; [left; reflexivity|].
    split; [assumption|]. do 2 right; left; reflexivity.
Qed.

(** The loop of the RAG route sets its flag only when it hands the
    friendly message to the caller. *)
Lemma rag_loop_flag (cs : list text) (acc : text) :
  snd (fst (rag_loop cs (acc, false))) = true ->
  In Rag.friendlyMessage (snd (rag_loop cs (acc, false))).
Proof.
  revert acc; induction cs as [|c cs IH]; intros acc; cbn [rag_loop fst snd].
  - discriminate.
  - destruct (JS.includes c Rag.SEARCH_ERROR_MARK
              || JS.includes (acc ++ c) Rag.SEARCH_ERROR_MARK).
    + intros _. now left.
    + cbn [fst snd]. intros H. right. exact (IH _ H).
Qed.

(** The writes of a completed run, seen from outside. *)
Lemma completed_write_facts (w : World) (tried : Prop)
    (st st1 st2 st' : Store) (t0 tail : list Event) (ds : list text) :
  Forall (fun e => prefix_event e = true) t0 ->
  (forall sid, Db.summary_of st1 sid = Db.summary_of st sid) ->
  chat_sessions st2 = chat_sessions st1 ->
  write_facts w tried st2 st' tail ->
  let t := t0 ++ map EvEnqueue ds ++ tail in
  (forall e,
      db_fault w AtAddAI = Some e -> tried ->
      (exists label, In (EvLog label (error_message e)) t) /\
      (forall sid c, ~ In (EvInsertMessage sid AI c) t) /\
      (forall sid, Db.summary_of st' sid = Db.summary_of st sid)) /\
  (forall pre sid c post,
      t = pre ++ EvInsertMessage sid AI c :: post ->
      (exists p s,
          In (EvModelInvoke p) post /\ chain_invoke w p = Resolved s /\
          In (EvUpdateSummary sid s) post) \/
      (exists label e,
          In (EvLog label (error_message e)) post /\
          (forall sid', Db.summary_of st' sid' = Db.summary_of st sid') /\
          ((exists p, In (EvModelInvoke p) post /\
                      chain_invoke w p = Rejected e) \/
           db_fault w AtUpdateConnect = Some e \/
           db_fault w AtUpdateSummary = Some e))).
Proof.
  intros H0 H1 H2 (W1 & W2) t. subst t.
  assert (Hsame : chat_sessions st' = chat_sessions st2 ->
                  forall sid, Db.summary_of st' sid = Db.summary_of st sid).
  { intros Hs sid.
    rewrite (@summary_of_sessions _ _ sid Hs),
            (@summary_of_sessions _ _ sid H2).
    apply H1. }
  split.
  - intros e Hf Htried. destruct (W1 e Hf Htried) as ((label & Hl) & Hn & Hs).
    split; [|split].
    + exists label. apply in_or_app. right. apply in_or_app. now right.
    + intros sid c Hin. apply ai_insert_in_tail_In in Hin; [|exact H0].
      exact (Hn sid c Hin).
    + exact (Hsame Hs).
  - intros pre sid c post E.
    apply ai_insert_in_tail in E as (mid & _ & E); [|exact H0].
    destruct (W2 _ _ _ _ E) as [Hl | (label & e & Hl & Hs & Hc)];
      [left; exact Hl|].
    right. exists label, e. split; [exact Hl|]. split; [exact (Hsame Hs)|].
    exact Hc.
Qed.

(** C7. In the routes that keep a summary, a turn whose stream was opened
    and ran to completion never shows the caller a failure of what comes
    after: the response is the stream, which is closed and never put in
    the error state, whatever the store or the summarizer do.  If the
    summarizer's model call is rejected, the error is logged and every
    persisted summary keeps its value.  If the write of the assistant
    turn fails (it is attempted when the user turn could be written, the
    delivered answer is not empty and, in the RAG route, the friendly
    message of a failed search was not delivered), the error of that
    write is logged, no assistant turn is recorded and every persisted
    summary keeps its value.  Once the assistant turn is appended, either
    the summarizer answered and its answer is written as the summary of
    that session, or the error of the step that failed (the summarizer's
    call, the checkout of a client, or the write of the summary) is
    logged and every persisted summary keeps its value.  And a run that
    does not write the summary leaves every persisted summary as it
    was. *)
Theorem post_stream_failures_are_swallowed (route : Route) (w : World)
    (req : Request) (st : Store) :
  let r := run (POST_of route w req) st in
  let t := trace (snd r) in
  summarizing route = true ->
  opened w t None ->
  ((exists h, fst r = Return (StreamResponse h)) /\ In EvClose t /\
   (forall e, ~ In (EvError e) t)) /\
  (forall p e,
      In (EvModelInvoke p) t -> is_post_prompt p = true ->
      chain_invoke w p = Rejected e ->
      (exists label, In (EvLog label (error_message e)) t) /\
      forall sid, Db.summary_of (store (snd r)) sid = Db.summary_of st sid) /\
  (forall e,
      db_fault w AtAddAI = Some e ->
      db_fault w AtAddUser = None ->
      List.concat (enqueues t) <> [] ->
      (route = RagRoute -> ~ In Rag.friendlyMessage (enqueues t)) ->
      (exists label, In (EvLog label (error_message e)) t) /\
      (forall sid c, ~ In (EvInsertMessage sid AI c) t) /\
      (forall sid,
          Db.summary_of (store (snd r)) sid = Db.summary_of st sid)) /\
  (forall pre sid c post,
      t = pre ++ EvInsertMessage sid AI c :: post ->
      (exists p s,
          In (EvModelInvoke p) post /\ chain_invoke w p = Resolved s /\
          In (EvUpdateSummary sid s) post) \/
      (exists label e,
          In (EvLog label (error_message e)) post /\
          (forall sid',
              Db.summary_of (store (snd r)) sid' = Db.summary_of st sid') /\
          ((exists p, In (EvModelInvoke p) post /\
                      chain_invoke w p = Rejected e) \/
           db_fault w AtUpdateConnect = Some e \/
           db_fault w AtUpdateSummary = Some e))) /\
  ((forall sid s, ~ In (EvUpdateSummary sid s) t) ->
   forall sid, Db.summary_of (store (snd r)) sid = Db.summary_of st sid).
Proof.
  intros r t Hroute. subst t r.
  destruct route; [| |discriminate Hroute]; unfold POST_of.
  - destruct (Gemini_POST_cases w req st)
      as [(resp & st1 & t1 & E & _ & Hp & Ht)
         | (sid & input & db & p & stream & st1 & t1 & st' & tail
            & E & Hp & Ht & Hs & Hi & Hend)];
      rewrite E; cbn [fst snd store trace]; intros Hop.
    + exfalso. exact (rejected_not_opened Ht Hop).
    + pose proof (GeminiEnd_summarizer Hend) as Hsum.
      pose proof (GeminiEnd_answer Hend) as (A1 & _).
      pose proof (GeminiEnd_trace Hend) as (_ & _ & T3 & T4 & _).
      assert (Hfl : failure stream = None).
      { rewrite <- (app_nil_r (t1 ++ [EvModelStream p])) in Hop.
        eapply opened_stream_completed;
          [exact Ht | constructor | exact T4 | exact Hs | exact Hop]. }
      rewrite Hfl in Hend. apply GeminiEnd_writes in Hend.
      destruct (T3 Hfl) as [Hc He].
      assert (H0 : Forall (fun e => prefix_event e = true)
                          (t1 ++ [EvModelStream p])).
      { apply Forall_app. split; [now apply setup_is_prefix|].
        repeat constructor. }
      assert (H1 : forall sid0,
                 Db.summary_of st1 sid0 = Db.summary_of st sid0).
      { intros sid0. exact (@Prepared_summaries _ _ _ _ _ sid0 Hp). }
      destruct (@completed_run_facts w st st1 st1 st' _ _ tail
                  (nonempty_chunks (chunks stream)) (Some sid)
                  eq_refl H0) as (C1 & C2 & _ & C4); auto.
      { apply Forall_app. split; [now apply setup_no_summary_event|].
        repeat constructor. }
      destruct (@completed_write_facts w _ st st1 st1 st' _ tail
                  (nonempty_chunks (chunks stream)) H0 H1 eq_refl Hend)
        as (W1 & W2).
      split; [exact C1|]. split; [exact C2|].
      split; [|split; [exact W2 | exact C4]].
      intros e Hf Hu Hne _. apply (W1 e Hf).
      rewrite enqueues_streamed in Hne by assumption. auto.
  - destruct (Rag_POST_cases w req st)
      as [(resp & st1 & t1 & E & _ & Hp & Ht)
         | (sid & input & stream & st1 & st2 & t1 & uev & canSave & st'
            & tail & E & Hp & Ht & _ & Hli & Hi & Hs & Hu & Hend)];
      rewrite E; cbn [fst snd store trace]; intros Hop.
    + exfalso. exact (rejected_not_opened Ht Hop).
    + pose proof (RagEnd_summarizer Hend) as Hsum.
      pose proof (RagEnd_answer Hend) as (A1 & _).
      pose proof (RagEnd_trace Hend) as (_ & _ & T3 & T4 & _).
      pose proof (UserSaved_no_summary_event Hu) as U3.
      pose proof (UserSaved_tables Hu) as (U4 & U5).
      apply UserSaved_trace in Hu as (U1 & U2 & _ & _).
      assert (Hfl : failure stream = None).
      { eapply opened_stream_completed;
          [exact Ht | exact U2 | exact T4 | exact Hs | exact Hop]. }
      rewrite Hfl in Hend. apply RagEnd_writes in Hend.
      destruct (T3 Hfl) as [Hc He].
      match type of Hop with
      | opened _ (?pre ++ _ ++ _) _ =>
        assert (H0 : Forall (fun e => prefix_event e = true) pre)
      end.
      { repeat (apply Forall_app; split); auto using setup_is_prefix;
          repeat constructor. }
      assert (H1 : forall sid0,
                 Db.summary_of st1 sid0 = Db.summary_of st sid0).
      { intros sid0. exact (@Prepared_summaries _ _ _ _ _ sid0 Hp). }
      destruct (@completed_run_facts w st st1 st2 st' _ _ tail
                  (snd (rag_loop (chunks stream) ([], false)))
                  (if JS.truthy sid then Some sid else None)
                  eq_refl H0) as (C1 & C2 & _ & C4); auto.
      { repeat (apply Forall_app; split);
          auto using setup_no_summary_event; repeat constructor. }
      destruct (@completed_write_facts w _ st st1 st2 st' _ tail
                  (snd (rag_loop (chunks stream) ([], false)))
                  H0 H1 U4 Hend)
        as (W1 & W2).
      split; [exact C1|]. split; [exact C2|].
      split; [|split; [exact W2 | exact C4]].
      intros e Hf Hau Hne Hfr. apply (W1 e Hf).
      specialize (Hfr eq_refl).
      rewrite enqueues_streamed in Hne, Hfr by assumption.
      assert (Hflag : snd (fst (rag_loop (chunks stream) ([], false)))
                      = false).
      { destruct (snd (fst (rag_loop (chunks stream) ([], false))))
          eqn:Hfg; [|reflexivity].
        exfalso. apply Hfr. now apply rag_loop_flag. }
      split; [|split; [exact Hflag|]].
      * intros Hz. apply Hne.
        pose proof (@rag_loop_clean (chunks stream) [] Hflag) as Hcl.
        simpl in Hcl. etransitivity; [symmetry; exact Hcl | exact Hz].
      * destruct U5 as [(_ & _ & Hbad) | (Hcs & _)];
          [contradiction | exact Hcs].
Qed.

Lemma post_stream_failures_are_swallowed_witness :
  let w := Sample.lost_answer_write in
  let r := run (POST_of RagRoute w Sample.next_turn) Sample.one_session in
  opened w (trace (snd r)) None /\
  (exists h, fst r = Return (StreamResponse h)) /\
  In EvClose (trace (snd r)) /\
  (exists label,
      In (EvLog label (error_message Sample.network_error))
         (trace (snd r))) /\
  (forall sid c, ~ In (EvInsertMessage sid AI c) (trace (snd r))) /\
  (forall sid,
      Db.summary_of (store (snd r)) sid
      = Db.summary_of Sample.one_session sid).
Proof.
  intros w r.
  assert (Hop : opened w (trace (snd r)) None).
  { left. vm_compute. do 2 eexists.
    split; [|split; reflexivity].
    repeat (first [left; reflexivity | right]). }
  destruct (@post_stream_failures_are_swallowed
              RagRoute w Sample.next_turn Sample.one_session eq_refl Hop)
    as ((Hr & Hc & _) & _ & Hlost & _).
  split; [exact Hop|]. split; [exact Hr|]. split; [exact Hc|].
  apply (Hlost Sample.network_error).
  - vm_compute. reflexivity.
  - vm_compute. reflexivity.
  - vm_compute. discriminate.
  - intros _ Hin. vm_compute in Hin.
    repeat (destruct Hin as [Hin|Hin]; [discriminate Hin|]). exact Hin.
Defined.
